(** * godb-orm: schema introspection and GORM model generation

    A shallow embedding of the type mapper, tag builder, naming
    normaliser, enum parser, generator and GUI session of godb-orm,
    with the properties of its specification stated and proved over it.

    Go strings are byte sequences.  A [string] below is the sequence of
    the bytes of the Go string (one [ascii] per byte), so [len], slicing
    and byte comparisons read as in the source.  The functions of Go's
    [strings] package are modelled on the ASCII range: [ToLower] and
    [ToUpper] map the letters A-Z / a-z and leave the other bytes alone,
    [TrimSpace] removes the ASCII white space. *)

From Stdlib Require Import Ascii NArith ZArith Lia.
From stdpp Require Import base option list strings gmap fin_maps sorting pretty.

#[local] Arguments String.append !_ _ / : simpl nomatch.

(** ** Package [strings] (and the slice expressions of the language) *)

Module Strings.

Definition byte_in (lo hi : N) (c : ascii) : bool :=
  ((lo <=? N_of_ascii c) && (N_of_ascii c <=? hi))%N.

(** [c >= 'A' && c <= 'Z'] *)
Definition is_upper (c : ascii) : bool := byte_in 65 90 c.
(** [c >= 'a' && c <= 'z'] *)
Definition is_lower (c : ascii) : bool := byte_in 97 122 c.
(** [c >= '0' && c <= '9'] *)
Definition is_digit (c : ascii) : bool := byte_in 48 57 c.

Definition lower_byte (c : ascii) : ascii :=
  if is_upper c then ascii_of_N (N_of_ascii c + 32) else c.
Definition upper_byte (c : ascii) : ascii :=
  if is_lower c then ascii_of_N (N_of_ascii c - 32) else c.

Fixpoint map_bytes (f : ascii -> ascii) (s : string) : string :=
  match s with
  | EmptyString => EmptyString
  | String c s' => String (f c) (map_bytes f s')
  end.

Definition ToLower : string -> string := map_bytes lower_byte.
Definition ToUpper : string -> string := map_bytes upper_byte.

(** ['\t', '\n', '\v', '\f', '\r', ' '] *)
Definition is_space (c : ascii) : bool :=
  byte_in 9 13 c || (N_of_ascii c =? 32)%N.

Fixpoint TrimLeft (s : string) : string :=
  match s with
  | String c s' => if is_space c then TrimLeft s' else s
  | EmptyString => EmptyString
  end.

Fixpoint TrimRight (s : string) : string :=
  match s with
  | EmptyString => EmptyString
  | String c s' =>
      match TrimRight s' with
      | EmptyString => if is_space c then EmptyString else String c EmptyString
      | t => String c t
      end
  end.

Definition TrimSpace (s : string) : string := TrimLeft (TrimRight s).

(** [strings.HasPrefix(s, p)] *)
Definition HasPrefix (s p : string) : bool := String.prefix p s.

(** [s[i:]], [s[:j]], [s[i:j]] for indices in range *)
Fixpoint slice_from (s : string) (i : nat) : string :=
  match i, s with
  | O, _ => s
  | S i', String _ s' => slice_from s' i'
  | S _, EmptyString => EmptyString
  end.

Fixpoint slice_to (s : string) (j : nat) : string :=
  match j, s with
  | S j', String c s' => String c (slice_to s' j')
  | _, _ => EmptyString
  end.

Definition slice (s : string) (i j : nat) : string :=
  slice_to (slice_from s i) (j - i).

(** [s[i]] *)
Definition byte_at (s : string) (i : nat) : option ascii := String.get i s.

(** [strings.HasSuffix(s, p)] *)
Definition HasSuffix (s p : string) : bool :=
  (String.length p <=? String.length s)%nat &&
  String.eqb (slice_from s (String.length s - String.length p)) p.

(** [strings.Index(s, sub)]: the byte offset of the first occurrence,
    [None] for Go's [-1]. *)
Fixpoint Index (s sub : string) : option nat :=
  if String.prefix sub s then Some O
  else match s with
       | EmptyString => None
       | String _ s' => S <$> Index s' sub
       end.

(** [strings.Contains(s, sub)] *)
Definition Contains (s sub : string) : bool :=
  match Index s sub with Some _ => true | None => false end.

(** [len(s)] *)
Definition len (s : string) : nat := String.length s.

(** [strings.Split(s, sep)] for a non-empty separator: the pieces
    between the successive occurrences of [sep]. *)
Fixpoint split_go (sep : string) (s : string) (cur : string) (skip : nat)
  : list string :=
  match s with
  | EmptyString => [String.rev cur]
  | String c s' =>
      match skip with
      | S k => split_go sep s' cur k
      | O =>
          if String.prefix sep s
          then String.rev cur :: split_go sep s' "" (String.length sep - 1)
          else split_go sep s' (String c cur) O
      end
  end.
Definition Split (s sep : string) : list string := split_go sep s "" O.

(** [strings.Join(parts, sep)] *)
Fixpoint Join (parts : list string) (sep : string) : string :=
  match parts with
  | [] => ""
  | [p] => p
  | p :: rest => p +:+ sep +:+ Join rest sep
  end.

End Strings.

Import Strings.

(** ** internal/generator/typemapper.go *)

Record TypeMapping := mkTypeMapping {
  GoType : string;
  ImportPath : string;
  IsSlice : bool
}.

(** The zero value, which a Go map read returns for an absent key. *)
Definition zeroTypeMapping : TypeMapping := mkTypeMapping "" "" false.

Record TypeMapper := mkTypeMapper {
  typeMap : gmap string TypeMapping
}.

Definition plainType (t : string) : TypeMapping := mkTypeMapping t "" false.
Definition importedType (t i : string) : TypeMapping := mkTypeMapping t i false.
Definition sliceType (t : string) : TypeMapping := mkTypeMapping t "" true.

(** The assignments [tm.typeMap[k] = v] of [initTypeMappings], in the
    order of the source. *)
Definition typeAssignments : list (string * TypeMapping) :=
  [ ("int", plainType "int32");
    ("integer", plainType "int32");
    ("smallint", plainType "int16");
    ("mediumint", plainType "int32");
    ("bigint", plainType "int64");
    ("tinyint", plainType "int8");
    ("serial", plainType "int32");
    ("bigserial", plainType "int64");
    ("smallserial", plainType "int16");
    ("int unsigned", plainType "uint32");
    ("integer unsigned", plainType "uint32");
    ("smallint unsigned", plainType "uint16");
    ("mediumint unsigned", plainType "uint32");
    ("bigint unsigned", plainType "uint64");
    ("tinyint unsigned", plainType "uint8");
    ("decimal", plainType "float64");
    ("numeric", plainType "float64");
    ("float", plainType "float32");
    ("double", plainType "float64");
    ("double precision", plainType "float64");
    ("real", plainType "float32");
    ("money", plainType "float64");
    ("varchar", plainType "string");
    ("char", plainType "string");
    ("character", plainType "string");
    ("character varying", plainType "string");
    ("text", plainType "string");
    ("longtext", plainType "string");
    ("mediumtext", plainType "string");
    ("tinytext", plainType "string");
    ("citext", plainType "string");
    ("timestamp", importedType "time.Time" "time");
    ("timestamptz", importedType "time.Time" "time");
    ("timestamp with time zone", importedType "time.Time" "time");
    ("timestamp without time zone", importedType "time.Time" "time");
    ("datetime", importedType "time.Time" "time");
    ("date", importedType "time.Time" "time");
    ("time", plainType "string");
    ("time with time zone", plainType "string");
    ("time without time zone", plainType "string");
    ("year", plainType "int16");
    ("interval", plainType "string");
    ("bool", plainType "bool");
    ("boolean", plainType "bool");
    ("tinyint(1)", plainType "bool");
    ("json", importedType "datatypes.JSON" "gorm.io/datatypes");
    ("jsonb", importedType "datatypes.JSON" "gorm.io/datatypes");
    ("uuid", importedType "uuid.UUID" "github.com/google/uuid");
    ("bytea", sliceType "[]byte");
    ("blob", sliceType "[]byte");
    ("tinyblob", sliceType "[]byte");
    ("mediumblob", sliceType "[]byte");
    ("longblob", sliceType "[]byte");
    ("binary", sliceType "[]byte");
    ("varbinary", sliceType "[]byte");
    ("bit", sliceType "[]byte");
    ("enum", plainType "string");
    ("set", plainType "string");
    ("inet", plainType "string");
    ("cidr", plainType "string");
    ("macaddr", plainType "string");
    ("macaddr8", plainType "string");
    ("xml", plainType "string");
    ("point", plainType "string");
    ("line", plainType "string");
    ("lseg", plainType "string");
    ("box", plainType "string");
    ("path", plainType "string");
    ("polygon", plainType "string");
    ("circle", plainType "string") ].

Definition initTypeMappings (tm : TypeMapper) : TypeMapper :=
  mkTypeMapper
    (foldl (fun m kv => <[kv.1 := kv.2]> m) (typeMap tm) typeAssignments).

Definition NewTypeMapper : TypeMapper :=
  initTypeMappings (mkTypeMapper ∅).

(** [extractBaseType]: cut at the first opening parenthesis. *)
Definition extractBaseType (dbType : string) : string :=
  match Index dbType "(" with
  | Some idx => TrimSpace (slice_to dbType idx)
  | None => dbType
  end.

(** [applyNullable] ignores both flags. *)
Definition applyNullable (goType : string) (_ : bool) (_ : bool) : string :=
  goType.

Definition GetGoType (tm : TypeMapper) (dbType : string) (isNullable : bool)
  : string * string * string :=
  let normalizedType := ToLower (TrimSpace dbType) in
  let baseType := extractBaseType normalizedType in
  let found (mapping : TypeMapping) :=
    (applyNullable (GoType mapping) isNullable (IsSlice mapping),
     ImportPath mapping, "") in
  match (if Contains normalizedType "unsigned"
         then typeMap tm !! (baseType +:+ " unsigned") else None) with
  | Some mapping => found mapping
  | None =>
    if HasPrefix normalizedType "tinyint(1)"
       && negb (Contains normalizedType "unsigned")
    then found (default zeroTypeMapping (typeMap tm !! "tinyint(1)"))
    else
      match typeMap tm !! normalizedType with
      | Some mapping => found mapping
      | None =>
        match typeMap tm !! baseType with
        | Some mapping => found mapping
        | None =>
          let comment := "// unknown type: " +:+ dbType in
          (applyNullable "interface{}" isNullable false, "", comment)
        end
      end
  end.

Definition GetGoTypeSimple (tm : TypeMapper) (dbType : string)
  (isNullable : bool) : string :=
  (GetGoType tm dbType isNullable).1.1.

(** ** internal/database/models.go *)

Record ColumnMetadata := mkColumnMetadata {
  Name : string;
  DataType : string;
  RawType : string;
  IsNullable : bool;
  IsPrimaryKey : bool;
  IsAutoIncrement : bool;
  DefaultValue : option string;
  EnumValues : list string;
  IsUnsigned : bool;
  CharMaxLength : option Z;
  NumericPrecision : option Z;
  NumericScale : option Z;
  Comment : string;
  OrdinalPosition : Z
}.

Record TableMetadata := mkTableMetadata {
  Schema : string;
  TableName : string;
  Columns : list ColumnMetadata;
  TableComment : string
}.

(** ** internal/generator/tagbuilder.go *)

(** [cleanDefaultValue] *)
Definition cleanDefaultValue (defaultVal : string) : string :=
  if Contains defaultVal "nextval" then ""
  else
    let lower := ToLower defaultVal in
    if Contains lower "current_timestamp"
       || Contains lower "now()"
       || Contains lower "current_date"
    then ""
    else
      let defaultVal :=
        if HasPrefix defaultVal "(" && HasSuffix defaultVal ")"
        then slice defaultVal 1 (len defaultVal - 1)
        else defaultVal in
      if String.eqb (ToUpper defaultVal) "NULL" then "" else defaultVal.

(** The slice [parts] of [BuildGormTag] after each of its conditional
    appends, in the order of the source. *)
Definition gormParts (col : ColumnMetadata) : list string :=
  let parts : list string := [] in
  let parts := if IsPrimaryKey col then parts ++ ["primaryKey"] else parts in
  let parts := if IsAutoIncrement col then parts ++ ["autoIncrement"] else parts in
  let parts := parts ++ ["column:" +:+ Name col] in
  let parts := parts ++ ["type:" +:+ RawType col] in
  let parts :=
    match DefaultValue col with
    | Some defaultVal =>
        let defaultVal := cleanDefaultValue defaultVal in
        if negb (String.eqb defaultVal "")
        then parts ++ ["default:" +:+ defaultVal] else parts
    | None => parts
    end in
  let parts :=
    if negb (IsNullable col) && negb (IsPrimaryKey col)
    then parts ++ ["not null"] else parts in
  parts.

Definition dquote : string := String (ascii_of_N 34) EmptyString.

(** [BuildGormTag]: [fmt.Sprintf(`gorm:"%s"`, strings.Join(parts, ";"))] *)
Definition BuildGormTag (col : ColumnMetadata) : string :=
  "gorm:" +:+ dquote +:+ Join (gormParts col) ";" +:+ dquote.

Definition BuildJSONTag (col : ColumnMetadata) : string :=
  "json:" +:+ dquote +:+ Name col +:+ dquote.

Definition BuildAllTags (col : ColumnMetadata) : string :=
  Join [BuildGormTag col; BuildJSONTag col] " ".

Record StructField := mkStructField {
  FieldName : string;
  FieldType : string;
  Tags : string;
  FieldComment : string;
  FieldImportPath : string
}.

(** The acronym table of [ToPascalCase]. *)
Definition pascalAcronyms : gmap string string :=
  list_to_map
    [ ("id", "ID"); ("url", "URL"); ("api", "API"); ("http", "HTTP");
      ("json", "JSON"); ("xml", "XML"); ("sql", "SQL"); ("uuid", "UUID");
      ("ip", "IP"); ("html", "HTML"); ("css", "CSS") ].

Definition pascalWord (word : string) : string :=
  if String.eqb word "" then ""
  else
    let lower := ToLower word in
    match pascalAcronyms !! lower with
    | Some acronym => acronym
    | None =>
        ToUpper (slice_to word 1) +:+
        (if (1 <? len word)%nat then ToLower (slice_from word 1) else "")
    end.

(** [ToPascalCase]: the words between underscores, each capitalised or
    replaced by its acronym, written to the builder in order. *)
Definition ToPascalCase (s : string) : string :=
  foldl (fun result word => result +:+ pascalWord word) "" (Split s "_").

(** [FormatEnumComment] *)
Definition FormatEnumComment (values : list string) : string :=
  match values with
  | [] => ""
  | _ =>
      let quoted := (fun v => "'" +:+ v +:+ "'") <$> values in
      "// enum(" +:+ Join quoted "," +:+ ")"
  end.

Definition BuildStructField (col : ColumnMetadata) (typeMapper : TypeMapper)
  : StructField :=
  let '(goType, importPath, typeComment) :=
    GetGoType typeMapper (RawType col) (IsNullable col) in
  let comment :=
    if (0 <? length (EnumValues col))%nat then FormatEnumComment (EnumValues col)
    else if negb (String.eqb typeComment "") then typeComment
    else if negb (String.eqb (Comment col) "") then "// " +:+ Comment col
    else "" in
  mkStructField (ToPascalCase (Name col)) goType (BuildAllTags col)
    comment importPath.

(** ** internal/generator/naming.go *)

(** The acronym table of [handleAcronyms]. *)
Definition acronyms : gmap string string :=
  list_to_map
    [ ("Id", "ID"); ("Url", "URL"); ("Api", "API"); ("Http", "HTTP");
      ("Json", "JSON"); ("Xml", "XML"); ("Sql", "SQL"); ("Uuid", "UUID");
      ("Ip", "IP"); ("Html", "HTML"); ("Css", "CSS"); ("Db", "DB") ].

(** The loop of [replaceAcronym], one iteration per unit of fuel.  [i] is
    the loop index at the loop test, [result] the current string.  The
    test [i <= len(result)-len(pattern)] is on Go's signed [int]s, which
    is [i + len(pattern) <= len(result)]; after a replacement the source
    adds [len(replacement) - 1] to [i] and the loop header adds one.
    [None] is "out of fuel". *)
Fixpoint replaceLoop (fuel : nat) (pattern replacement result : string)
  (i : nat) : option string :=
  match fuel with
  | O => None
  | S fuel' =>
      if (i + len pattern <=? len result)%nat then
        if String.eqb (slice result i (i + len pattern)) pattern then
          let isWordBoundary :=
            (len result <=? i + len pattern)%nat
            || match byte_at result (i + len pattern) with
               | Some c => is_upper c
               | None => false
               end in
          if isWordBoundary then
            replaceLoop fuel' pattern replacement
              (slice_to result i +:+ replacement
               +:+ slice_from result (i + len pattern))
              (i + len replacement)
          else replaceLoop fuel' pattern replacement result (S i)
        else replaceLoop fuel' pattern replacement result (S i)
      else Some result
  end.

(** [replaceAcronym]: the loop from index 0.  With a non-empty pattern
    every iteration shortens the part of [result] after [i], so
    [len(s) + 1] iterations are enough; lemma [replaceAcronym_words]
    gives the result for the patterns of the acronym table. *)
Definition replaceAcronym (s pattern replacement : string) : option string :=
  replaceLoop (S (len s)) pattern replacement s 0.

(** [handleAcronyms] ranges over a Go map, whose iteration order is not
    specified: [order] is the order in which one run visits the entries,
    a permutation of [map_to_list acronyms]. *)
Definition handleAcronymsIn (order : list (string * string)) (s : string)
  : option string :=
  foldl (fun result pr => result ≫= fun r => replaceAcronym r pr.1 pr.2)
        (Some s) order.

Definition acronymOrder (order : list (string * string)) : Prop :=
  order ≡ₚ map_to_list acronyms.

(** [handleAcronyms]: every order gives the same string (lemma
    [handleAcronymsIn_spec]), which is computed here in the order of the
    table's enumeration; the default is never reached. *)
Definition handleAcronyms (s : string) : string :=
  default s (handleAcronymsIn (map_to_list acronyms) s).

(** github.com/iancoleman/strcase is an external dependency.  [ToCamel] is
    [toCamelInitCase(s, true)] of its release v0.3.0, whose acronym table
    [uppercaseAcronym] is empty unless the program configures it (godb-orm
    does not). *)
Definition uppercaseAcronym : gmap string string := ∅.

Fixpoint camelLoop (hasAcronym : bool) (s : string) (first capNext prevIsCap : bool)
  : string :=
  match s with
  | EmptyString => EmptyString
  | String v s' =>
      let vIsCap := is_upper v in
      let vIsLow := is_lower v in
      let v' :=
        if capNext then (if vIsLow then upper_byte v else v)
        else if first then (if vIsCap then lower_byte v else v)
        else if prevIsCap && vIsCap && negb hasAcronym then lower_byte v
        else v in
      if vIsCap || vIsLow then String v' (camelLoop hasAcronym s' false false vIsCap)
      else if is_digit v then String v' (camelLoop hasAcronym s' false true vIsCap)
      else
        let capNext' :=
          Ascii.eqb v "_"%char || Ascii.eqb v " "%char
          || Ascii.eqb v "-"%char || Ascii.eqb v "."%char in
        camelLoop hasAcronym s' false capNext' vIsCap
  end.

Definition toCamelInitCase (s : string) (initCase : bool) : string :=
  let s := TrimSpace s in
  if String.eqb s "" then s
  else
    let '(s, hasAcronym) :=
      match uppercaseAcronym !! s with
      | Some a => (a, true)
      | None => (s, false)
      end in
    camelLoop hasAcronym s true initCase false.

Definition ToCamel (s : string) : string := toCamelInitCase s true.

(** [ToGoFieldName] *)
Definition ToGoFieldName (columnName : string) : string :=
  let pascalCase := ToCamel columnName in
  handleAcronyms pascalCase.

(** The irregular plurals of [singularize]. *)
Definition irregulars : gmap string string :=
  list_to_map
    [ ("people", "person"); ("children", "child"); ("men", "man");
      ("women", "woman"); ("teeth", "tooth"); ("feet", "foot");
      ("mice", "mouse"); ("geese", "goose") ].

(** [singularize] *)
Definition singularize (word : string) : string :=
  if String.eqb word "" then word
  else
    match irregulars !! word with
    | Some singular => singular
    | None =>
      let n := len word in
      let last3 := slice_from word (n - 3) in
      if (3 <? n)%nat && String.eqb last3 "ies" then slice_to word (n - 3) +:+ "y"
      else if (3 <? n)%nat && String.eqb last3 "ves" then slice_to word (n - 3) +:+ "f"
      else if (3 <? n)%nat && String.eqb last3 "oes" then slice_to word (n - 2)
      else if (2 <? n)%nat then
        if String.eqb (slice_from word (n - 2)) "es" then
          let base := slice_to word (n - 2) in
          let lastChar := slice_from base (len base - 1) in
          if (0 <? len base)%nat
             && (String.eqb lastChar "s" || String.eqb lastChar "x"
                 || String.eqb lastChar "z")
          then base
          else
            let lastTwo := slice_from base (len base - 2) in
            if (1 <? len base)%nat
               && (String.eqb lastTwo "ch" || String.eqb lastTwo "sh")
            then base
            else slice_to word (n - 1)
        else if String.eqb (slice_from word (n - 2)) "ss" then word
        else if String.eqb (slice_from word (n - 1)) "s" then slice_to word (n - 1)
        else word
      else word
    end.

(** [ToGoStructName] *)
Definition ToGoStructName (tableName : string) : string :=
  ToCamel (singularize tableName).

(** ** Package [regexp]

    The two patterns of [ParseEnumValues] use literals, character
    classes, greedy [*] and [+], and one capture group.  [run] is a
    backtracking matcher for that fragment: it lists the ways [r] can
    match at the start of [s], most preferred first, which is the order
    in which Go's leftmost-first matching chooses (a greedy repetition
    prefers one more iteration).  A match is a pair of the capture table
    and the unread rest of the input.  Bodies of [*] and [+] here are
    single-byte classes; an iteration that reads nothing is dropped. *)

Module Regexp.

Inductive re :=
| Eps
| Byte (c : ascii)
| Class (p : ascii -> bool)
| Seq (r1 r2 : re)
| Star (r : re)
| Plus (r : re)
| Group (n : nat) (r : re).

Abbreviation caps := (gmap nat string).

Fixpoint star_run (step : string -> caps -> list (caps * string))
  (fuel : nat) (s : string) (c : caps) : list (caps * string) :=
  match fuel with
  | O => [(c, s)]
  | S fuel' =>
      (step s c ≫= fun m =>
         if (len m.2 <? len s)%nat then star_run step fuel' m.2 m.1 else [])
      ++ [(c, s)]
  end.

Fixpoint run (r : re) (s : string) (c : caps) : list (caps * string) :=
  match r with
  | Eps => [(c, s)]
  | Byte a =>
      match s with
      | String b s' => if Ascii.eqb a b then [(c, s')] else []
      | EmptyString => []
      end
  | Class p =>
      match s with
      | String b s' => if p b then [(c, s')] else []
      | EmptyString => []
      end
  | Seq r1 r2 => run r1 s c ≫= fun m => run r2 m.2 m.1
  | Star r1 => star_run (run r1) (S (len s)) s c
  | Plus r1 =>
      run r1 s c ≫= fun m => star_run (run r1) (S (len m.2)) m.2 m.1
  | Group n r1 =>
      (fun m => (<[n := slice_to s (len s - len m.2)]> m.1, m.2))
        <$> run r1 s c
  end.

Fixpoint numGroups (r : re) : nat :=
  match r with
  | Eps | Byte _ | Class _ => 0
  | Seq r1 r2 => numGroups r1 `max` numGroups r2
  | Star r1 | Plus r1 => numGroups r1
  | Group n r1 => n `max` numGroups r1
  end.

(** The leftmost match in [s], which starts [pos] bytes into the whole
    input: start offset, captures and unread rest. *)
Fixpoint find_from (r : re) (s : string) (pos : nat)
  : option (nat * caps * string) :=
  match run r s ∅ with
  | m :: _ => Some (pos, m.1, m.2)
  | [] =>
      match s with
      | String _ s' => find_from r s' (S pos)
      | EmptyString => None
      end
  end.

(** [doExecute] from [pos]: start and end offsets of the match and its
    captures. *)
Definition exec (r : re) (s : string) (pos : nat)
  : option (nat * nat * caps) :=
  match find_from r (slice_from s pos) pos with
  | Some (m0, c, rest) => Some (m0, len s - len rest, c)
  | None => None
  end.

(** The submatch slice: the whole match, then each group (the empty
    string for a group that took no part). *)
Definition submatch (r : re) (s : string) (m0 m1 : nat) (c : caps)
  : list string :=
  slice s m0 m1 :: ((fun n => default "" (c !! n)) <$> seq 1 (numGroups r)).

(** [FindStringSubmatch]; [[]] is Go's [nil]. *)
Definition FindStringSubmatch (r : re) (s : string) : list string :=
  match exec r s 0 with
  | Some (m0, m1, c) => submatch r s m0 m1 c
  | None => []
  end.

(** The loop of [allMatches]: successive non-overlapping matches, an
    empty match next to the previous match being skipped. *)
Fixpoint allMatches (fuel : nat) (r : re) (s : string) (pos : nat)
  (prevMatchEnd : option nat) : list (list string) :=
  match fuel with
  | O => []
  | S fuel' =>
      if (pos <=? len s)%nat then
        match exec r s pos with
        | None => []
        | Some (m0, m1, c) =>
            let accept :=
              negb ((m1 =? pos)%nat && bool_decide (prevMatchEnd = Some m0)) in
            let pos' :=
              if (m1 =? pos)%nat
              then (if (pos <? len s)%nat then S pos else S (len s))
              else m1 in
            let rest := allMatches fuel' r s pos' (Some m1) in
            if accept then submatch r s m0 m1 c :: rest else rest
        end
      else []
  end.

(** [FindAllStringSubmatch(s, -1)]: the position grows in every
    iteration, so [len(s) + 2] iterations are enough. *)
Definition FindAllStringSubmatch (r : re) (s : string) : list (list string) :=
  allMatches (len s + 2) r s 0 None.

Fixpoint lit (s : string) : re :=
  match s with
  | EmptyString => Eps
  | String c s' => Seq (Byte c) (lit s')
  end.

(** [\s] is [[\t\n\f\r ]] in Go's syntax. *)
Definition perl_space (c : ascii) : bool :=
  let n := N_of_ascii c in
  ((n =? 9) || (n =? 10) || (n =? 12) || (n =? 13) || (n =? 32))%N.

(** [.] is any character but a newline. *)
Definition dot (c : ascii) : bool := negb (N_of_ascii c =? 10)%N.

(** any byte but a single quote *)
Definition not_quote (c : ascii) : bool := negb (Ascii.eqb c "'"%char).

End Regexp.

(** The pattern of an enum declaration: the word enum, optional white
    space, an opening parenthesis, optional white space, the group of
    one or more characters, optional white space and a closing
    parenthesis. *)
Definition enumRe : Regexp.re :=
  Regexp.Seq (Regexp.lit "enum")
  (Regexp.Seq (Regexp.Star (Regexp.Class Regexp.perl_space))
  (Regexp.Seq (Regexp.Byte "("%char)
  (Regexp.Seq (Regexp.Star (Regexp.Class Regexp.perl_space))
  (Regexp.Seq (Regexp.Group 1 (Regexp.Plus (Regexp.Class Regexp.dot)))
  (Regexp.Seq (Regexp.Star (Regexp.Class Regexp.perl_space))
              (Regexp.Byte ")"%char)))))).

(** The pattern of a quoted value: a quote, the group of the longest run
    of bytes other than a quote, and a quote. *)
Definition valueRe : Regexp.re :=
  Regexp.Seq (Regexp.Byte "'"%char)
  (Regexp.Seq (Regexp.Group 1 (Regexp.Star (Regexp.Class Regexp.not_quote)))
              (Regexp.Byte "'"%char)).

(** [ParseEnumValues] (typemapper.go) *)
Definition ParseEnumValues (columnType : string) : list string :=
  let matches := Regexp.FindStringSubmatch enumRe (ToLower columnType) in
  if (length matches <? 2)%nat then []
  else
    let valuesPart := default "" (matches !! 1%nat) in
    let valueMatches := Regexp.FindAllStringSubmatch valueRe valuesPart in
    foldl (fun values m =>
             if (2 <=? length m)%nat
             then values ++ [default "" (m !! 1%nat)] else values)
          [] valueMatches.

(** ** Errors and results

    An [error] is its chain: [errors.New(msg)] or a [fmt.Errorf] that
    wraps a cause with [%w] behind a context text. *)

Inductive error :=
| ErrNew (msg : string)
| ErrWrap (context : string) (cause : error).

Fixpoint Error (e : error) : string :=
  match e with
  | ErrNew msg => msg
  | ErrWrap context cause => context +:+ Error cause
  end.

(** A call that returns either a value and a nil error or a nil value
    and an error. *)
Inductive Result (A : Type) :=
| Ok (a : A)
| Err (e : error).
Arguments Ok {A} a.
Arguments Err {A} e.

(** ** internal/database/mysql_introspector.go *)

Module MySQL.

(** [parseEnumValues], the copy of [ParseEnumValues] in package
    [database]. *)
Definition parseEnumValues (columnType : string) : list string :=
  let matches := Regexp.FindStringSubmatch enumRe (ToLower columnType) in
  if (length matches <? 2)%nat then []
  else
    let valuesPart := default "" (matches !! 1%nat) in
    let valueMatches := Regexp.FindAllStringSubmatch valueRe valuesPart in
    foldl (fun values m =>
             if (2 <=? length m)%nat
             then values ++ [default "" (m !! 1%nat)] else values)
          [] valueMatches.

(** One row of the catalog query of [GetColumns] as [rows.Scan] fills
    it; an [option] is a [sql.Null...] value. *)
Record ColumnRow := mkColumnRow {
  columnName : string;
  dataType : string;
  columnType : string;
  isNullable : string;
  columnKey : option string;
  extra : option string;
  columnDefault : option string;
  charMaxLength : option Z;
  numericPrecision : option Z;
  numericScale : option Z;
  columnComment : option string;
  ordinalPosition : Z
}.

(** The body of the row loop of [GetColumns]. *)
Definition columnOfRow (r : ColumnRow) : ColumnMetadata :=
  {| Name := columnName r;
     DataType := dataType r;
     RawType := columnType r;
     IsNullable := String.eqb (isNullable r) "YES";
     IsPrimaryKey :=
       match columnKey r with
       | Some k => String.eqb k "PRI"
       | None => false
       end;
     IsAutoIncrement :=
       match extra r with
       | Some x => Contains x "auto_increment"
       | None => false
       end;
     DefaultValue := columnDefault r;
     EnumValues :=
       if String.eqb (ToLower (dataType r)) "enum"
       then parseEnumValues (columnType r) else [];
     IsUnsigned := Contains (ToLower (columnType r)) "unsigned";
     CharMaxLength := charMaxLength r;
     NumericPrecision := numericPrecision r;
     NumericScale := numericScale r;
     Comment := default "" (columnComment r);
     OrdinalPosition := ordinalPosition r |}.

(** What the catalog query gave: a failed query, or the rows scanned
    in order and the scan error that ended the iteration, if any. *)
Inductive QueryOutcome :=
| QueryFailed (err : error)
| QueryRows (rows : list ColumnRow) (scanErr : option error).

(** [GetColumns] on the outcome of its query. *)
Definition GetColumns (q : QueryOutcome) : Result (list ColumnMetadata) :=
  match q with
  | QueryFailed err => Err (ErrWrap "failed to query columns: " err)
  | QueryRows rows (Some err) => Err (ErrWrap "failed to scan column: " err)
  | QueryRows rows None => Ok (columnOfRow <$> rows)
  end.

End MySQL.

(** ** internal/generator/imports.go *)

(** [ImportManager.imports], a [map[string]bool]. *)
Definition ImportManager := gmap string bool.

Definition NewImportManager : ImportManager := ∅.

Definition Add (importPath : string) (im : ImportManager) : ImportManager :=
  if negb (String.eqb importPath "") then <[importPath := true]> im else im.

Definition Has (im : ImportManager) (importPath : string) : bool :=
  default false (im !! importPath).

(** [GetAll]: the keys, sorted by [sort.Strings]. *)
Definition GetAll (im : ImportManager) : list string :=
  merge_sort String.le ((map_to_list im).*1).

Definition stdLibPrefixes : list string :=
  [ "archive/"; "bufio"; "bytes"; "compress/"; "container/"; "context";
    "crypto/"; "database/"; "debug/"; "embed"; "encoding/"; "errors";
    "expvar"; "flag"; "fmt"; "go/"; "hash/"; "html/"; "image/"; "index/";
    "io"; "log"; "math"; "mime/"; "net/"; "os"; "path"; "reflect";
    "regexp"; "runtime"; "sort"; "strconv"; "strings"; "sync"; "syscall";
    "testing"; "text/"; "time"; "unicode"; "unsafe" ].

Definition isStdLib (path : string) : bool :=
  existsb (fun prefix =>
             String.eqb path prefix
             || HasPrefix path (prefix +:+ "/")
             || HasPrefix path prefix)
          stdLibPrefixes.

Definition importLine (path : string) : string :=
  String (ascii_of_N 9) dquote +:+ path +:+ dquote +:+ String (ascii_of_N 10) "".

Definition GenerateImportBlock (im : ImportManager) : string :=
  if (size im =? 0)%nat then ""
  else
    let paths := GetAll im in
    let stdLib := filter (fun path => isStdLib path = true) paths in
    let thirdParty := filter (fun path => isStdLib path = false) paths in
    "import (" +:+ String (ascii_of_N 10) ""
    +:+ foldl (fun b path => b +:+ importLine path) "" stdLib
    +:+ (if (0 <? length stdLib)%nat && (0 <? length thirdParty)%nat
         then String (ascii_of_N 10) "" else "")
    +:+ foldl (fun b path => b +:+ importLine path) "" thirdParty
    +:+ ")".

Module WellKnownImports.
Definition Time : string := "time".
Definition Datatypes : string := "gorm.io/datatypes".
Definition UUID : string := "github.com/google/uuid".
Definition GormDriver : string := "gorm.io/gorm".
End WellKnownImports.

(** ** internal/generator/template.go *)

Record TemplateData := mkTemplateData {
  tdPackageName : string;
  tdImports : string;
  tdStructName : string;
  tdTableName : string;
  tdFields : list StructField;
  tdHasTime : bool;
  tdHasJSON : bool;
  tdHasUUID : bool
}.

Definition DetectRequiredImports (fields : list StructField) : ImportManager :=
  foldl (fun importMgr field =>
           let goType := FieldType field in
           let importMgr :=
             if String.eqb goType "time.Time" || String.eqb goType "*time.Time"
             then Add WellKnownImports.Time importMgr else importMgr in
           let importMgr :=
             if String.eqb goType "datatypes.JSON"
                || String.eqb goType "*datatypes.JSON"
             then Add WellKnownImports.Datatypes importMgr else importMgr in
           let importMgr :=
             if String.eqb goType "uuid.UUID" || String.eqb goType "*uuid.UUID"
             then Add WellKnownImports.UUID importMgr else importMgr in
           if negb (String.eqb (FieldImportPath field) "")
           then Add (FieldImportPath field) importMgr else importMgr)
        NewImportManager fields.

(** ** internal/config/config.go *)

Record DBConfig := mkDBConfig {
  Host : string;
  Port : Z;
  User : string;
  Password : string;
  DBName : string;
  Driver : string
}.

Record GeneratorConfig := mkGeneratorConfig {
  Tables : string;
  OutputDir : string
}.

Record Config := mkConfig {
  Database : DBConfig;
  GeneratorOptions : GeneratorConfig
}.

(** ** The interface [database.DBIntrospector] and the environment

    Everything outside the program (the database servers and the objects
    that hold their sessions, the file system, the log) is one state of
    type [World], which every effectful call reads and replaces.  A value
    of the interface is the method set of one object.  A method that
    returns a value and an error returns a [Result] when the value is nil
    with every error.  [asPostgres] is the type assertion to
    [*database.PostgresIntrospector], with the methods only that type
    has. *)

Record PostgresMethods (World : Type) := mkPostgresMethods {
  GetSchemas : World -> Result (list string) * World;
  SetCurrentSchema : string -> World -> World;
  CurrentSchema : World -> string
}.
Arguments GetSchemas {World}.
Arguments SetCurrentSchema {World}.
Arguments CurrentSchema {World}.

Record DBIntrospector (World : Type) := mkDBIntrospector {
  Connect : World -> option error * World;
  Close : World -> option error * World;
  GetTables : World -> Result (list string) * World;
  GetColumns : string -> World -> Result (list ColumnMetadata) * World;
  GetTableMetadata : string -> World -> Result TableMetadata * World;
  asPostgres : option (PostgresMethods World)
}.
Arguments Connect {World}.
Arguments Close {World}.
Arguments GetTables {World}.
Arguments GetColumns {World}.
Arguments GetTableMetadata {World}.
Arguments asPostgres {World}.

(** The calls that leave the repository: the two constructors of the
    engine variants (their methods talk to the SQL client), the template
    and formatting libraries, the file system, the configuration file,
    the log, and [strcase.ToSnake]. *)
Record Env (World : Type) := mkEnv {
  NewMySQLIntrospector : DBConfig -> World -> DBIntrospector World * World;
  NewPostgresIntrospector : DBConfig -> World -> DBIntrospector World * World;
  template_Parse : option error;
  template_Execute : TemplateData -> Result string;
  format_Source : string -> Result string;
  os_MkdirAll : string -> World -> option error * World;
  os_WriteFile : string -> string -> World -> option error * World;
  filepath_Join : string -> string -> string;
  filepath_Dir : string -> string;
  ToSnake : string -> string;
  LoadConfig : World -> Result Config * World;
  SaveConfig : Config -> World -> option error * World;
  log_Printf : string -> World -> World
}.
Arguments NewMySQLIntrospector {World}.
Arguments NewPostgresIntrospector {World}.
Arguments template_Parse {World}.
Arguments template_Execute {World}.
Arguments format_Source {World}.
Arguments os_MkdirAll {World}.
Arguments os_WriteFile {World}.
Arguments filepath_Join {World}.
Arguments filepath_Dir {World}.
Arguments ToSnake {World}.
Arguments LoadConfig {World}.
Arguments SaveConfig {World}.
Arguments log_Printf {World}.

(** ** internal/database/connection.go *)

Definition NewIntrospector {World} (env : Env World) (cfg : DBConfig) (w : World)
  : Result (DBIntrospector World) * World :=
  if String.eqb (Driver cfg) "mysql" then
    let '(i, w) := NewMySQLIntrospector env cfg w in (Ok i, w)
  else if String.eqb (Driver cfg) "postgres"
          || String.eqb (Driver cfg) "postgresql" then
    let '(i, w) := NewPostgresIntrospector env cfg w in (Ok i, w)
  else (Err (ErrNew ("unsupported database driver: " +:+ Driver cfg)), w).

(** ** internal/generator/generator.go *)

Record Generator (World : Type) := mkGenerator {
  introspector : DBIntrospector World;
  typeMapper : TypeMapper;
  packageName : string
}.
Arguments introspector {World}.
Arguments typeMapper {World}.
Arguments packageName {World}.

Definition NewGenerator {World} (i : DBIntrospector World) : Generator World :=
  mkGenerator World i NewTypeMapper "models".

Section GeneratorMethods.
Context {World : Type} (env : Env World).

(** The field list [Generate] builds from the columns. *)
Definition buildFields (g : Generator World) (columns : list ColumnMetadata)
  : list StructField :=
  foldl (fun fields col =>
           let field := BuildStructField col (typeMapper g) in
           let field :=
             mkStructField (ToGoFieldName (Name col)) (FieldType field)
               (Tags field) (FieldComment field) (FieldImportPath field) in
           fields ++ [field])
        [] columns.

Definition buildTemplateData (g : Generator World) (tableName : string)
  (fields : list StructField) : TemplateData :=
  let importMgr := DetectRequiredImports fields in
  {| tdPackageName := packageName g;
     tdImports := GenerateImportBlock importMgr;
     tdStructName := ToGoStructName tableName;
     tdTableName := tableName;
     tdFields := fields;
     tdHasTime := Has importMgr WellKnownImports.Time;
     tdHasJSON := Has importMgr WellKnownImports.Datatypes;
     tdHasUUID := Has importMgr WellKnownImports.UUID |}.

(** [Generate]: the bytes (empty for nil) and the error. *)
Definition Generate (g : Generator World) (tableName : string) (w : World)
  : (string * option error) * World :=
  match GetTableMetadata (introspector g) tableName w with
  | (Err err, w) =>
      (("", Some (ErrWrap "failed to get table metadata: " err)), w)
  | (Ok meta, w) =>
      let fields := buildFields g (Columns meta) in
      let templateData := buildTemplateData g tableName fields in
      match template_Parse env with
      | Some err => (("", Some (ErrWrap "failed to parse template: " err)), w)
      | None =>
          match template_Execute env templateData with
          | Err err =>
              (("", Some (ErrWrap "failed to execute template: " err)), w)
          | Ok buf =>
              match format_Source env buf with
              | Err err =>
                  ((buf,
                    Some (ErrWrap "go/format failed (returning unformatted): "
                                  err)), w)
              | Ok formatted => ((formatted, None), w)
              end
          end
      end
  end.

Definition GenerateString (g : Generator World) (tableName : string) (w : World)
  : (string * option error) * World :=
  match Generate g tableName w with
  | ((_, Some err), w) => (("", Some err), w)
  | ((bytes, None), w) => ((bytes, None), w)
  end.

Definition ToFileName (tableName : string) : string :=
  ToSnake env tableName +:+ ".go".

Definition GenerateToFile (g : Generator World) (tableName outputDir : string)
  (w : World) : (string * option error) * World :=
  match Generate g tableName w with
  | ((_, Some err), w) => (("", Some err), w)
  | ((content, None), w) =>
      match os_MkdirAll env outputDir w with
      | (Some err, w) =>
          (("", Some (ErrWrap "failed to create output directory: " err)), w)
      | (None, w) =>
          let fileName := ToFileName tableName in
          let filePath := filepath_Join env outputDir fileName in
          match os_WriteFile env filePath content w with
          | (Some err, w) =>
              (("", Some (ErrWrap "failed to write file: " err)), w)
          | (None, w) => ((filePath, None), w)
          end
      end
  end.

(** The loop of [GenerateAll] (and of [SaveSelectedToDirectory]) over
    the tables still to do, [filePaths] being the paths so far. *)
Fixpoint generateLoop (g : Generator World) (outputDir : string)
  (tables : list string) (filePaths : list string) (w : World)
  : (list string * option error) * World :=
  match tables with
  | [] => ((filePaths, None), w)
  | table :: rest =>
      match GenerateToFile g table outputDir w with
      | ((_, Some err), w) =>
          ((filePaths,
            Some (ErrWrap ("failed to generate " +:+ table +:+ ": ") err)), w)
      | ((filePath, None), w) =>
          generateLoop g outputDir rest (filePaths ++ [filePath]) w
      end
  end.

Definition GenerateAll (g : Generator World) (outputDir : string) (w : World)
  : (list string * option error) * World :=
  match GetTables (introspector g) w with
  | (Err err, w) => (([], Some (ErrWrap "failed to get tables: " err)), w)
  | (Ok tables, w) => generateLoop g outputDir tables [] w
  end.

(** Running [GenerateToFile] on each table of a list in turn: the paths
    written and the world reached when every one succeeds. *)
Fixpoint generateEach (g : Generator World) (outputDir : string)
  (tables : list string) (w : World) : option (list string * World) :=
  match tables with
  | [] => Some ([], w)
  | table :: rest =>
      match GenerateToFile g table outputDir w with
      | ((filePath, None), w) =>
          match generateEach g outputDir rest w with
          | Some (paths, w) => Some (filePath :: paths, w)
          | None => None
          end
      | ((_, Some _), _) => None
      end
  end.

End GeneratorMethods.

(** The path [GenerateToFile] writes the struct of a table to:
    [filepath.Join(outputDir, ToFileName(tableName))]. *)
Definition filePathOf {World} (env : Env World) (outputDir tableName : string)
  : string :=
  filepath_Join env outputDir (ToFileName env tableName).

(** ** app.go

    Every method of [App] holds the session's lock for its whole body
    (the write lock in [ConnectDB], [DisconnectDB] and [SetSchema], the
    read lock in the others, which do not assign to the fields of [App]),
    so a method is one step from a state of the session and the world to
    the next. *)

Module App.

Definition ErrNotConnected : error := ErrNew "database not connected".
Definition ErrNoInspector : error :=
  ErrNew "database inspector not initialized".

Record ColumnInfo := mkColumnInfo {
  ciName : string;
  ciDataType : string;
  ciRawType : string;
  ciGoType : string;
  ciIsNullable : bool;
  ciIsPrimaryKey : bool;
  ciIsAutoIncrement : bool;
  ciDefaultValue : option string;
  ciEnumValues : list string;
  ciComment : string
}.

Record ConnectionStatus := mkConnectionStatus {
  csConnected : bool;
  csDriver : string;
  csHost : string;
  csDatabaseName : string;
  csError : string
}.

(** The fields of [App] that its methods assign ([ctx] is only stored,
    [mu] is the lock). *)
Record State (World : Type) := mkState {
  introspector : option (DBIntrospector World);
  dbConfig : option DBConfig;
  generator : option (Generator World);
  connected : bool
}.
Arguments mkState {World}.
Arguments introspector {World}.
Arguments dbConfig {World}.
Arguments generator {World}.
Arguments connected {World}.

Section Methods.
Context {World : Type} (env : Env World).

Local Abbreviation App := (State World).

Definition NewApp : App := mkState None None None false.

Definition Startup (a : App) (w : World) : App * World :=
  match LoadConfig env w with
  | (Ok cfg, w) =>
      if negb (String.eqb (DBName (Database cfg)) "")
      then (mkState (introspector a) (Some (Database cfg)) (generator a)
                    (connected a), w)
      else (a, w)
  | (Err _, w) => (a, w)
  end.

Definition Greet (name : string) : string :=
  "Hello " +:+ name +:+ ", welcome to godb-orm!".

Definition GetSavedConfig (a : App) : option DBConfig := dbConfig a.

Definition GetConnectionStatus (a : App) : ConnectionStatus :=
  match dbConfig a with
  | Some cfg => mkConnectionStatus (connected a) (Driver cfg) (Host cfg)
                                   (DBName cfg) ""
  | None => mkConnectionStatus (connected a) "" "" "" ""
  end.

Definition ConnectDB (cfg : DBConfig) (a : App) (w : World)
  : option error * App * World :=
  (* Close existing connection if any *)
  let '(a, w) :=
    match introspector a with
    | Some i =>
        let '(_, w) := Close i w in
        (mkState None (dbConfig a) None false, w)
    | None => (a, w)
    end in
  (* Create new introspector based on driver *)
  match NewIntrospector env cfg w with
  | (Err err, w) =>
      (Some (ErrWrap "failed to create introspector: " err), a, w)
  | (Ok i, w) =>
      (* Attempt connection *)
      match Connect i w with
      | (Some err, w) =>
          (Some (ErrWrap "failed to connect to database: " err), a, w)
      | (None, w) =>
          (* Store state *)
          let a := mkState (Some i) (Some cfg) (Some (NewGenerator i)) true in
          (* Save configuration for future use *)
          let fullCfg := mkConfig cfg (mkGeneratorConfig "*" "./models") in
          match SaveConfig env fullCfg w with
          | (Some err, w) =>
              (None, a,
               log_Printf env
                 ("Warning: Could not save config: " +:+ Error err) w)
          | (None, w) => (None, a, w)
          end
      end
  end.

Definition DisconnectDB (a : App) (w : World) : option error * App * World :=
  match introspector a with
  | Some i =>
      match Close i w with
      | (Some err, w) =>
          (Some (ErrWrap "failed to close connection: " err), a, w)
      | (None, w) => (None, mkState None (dbConfig a) None false, w)
      end
  | None => (None, a, w)
  end.

Definition IsPostgres (a : App) : bool :=
  match dbConfig a with
  | Some cfg => String.eqb (Driver cfg) "postgres"
  | None => false
  end.

(** The guard [!a.connected || a.introspector == nil]: the
    introspector a connected session has. *)
Definition connectedIntrospector (a : App) : option (DBIntrospector World) :=
  if negb (connected a) then None else introspector a.

(** The guard [!a.connected || a.generator == nil]. *)
Definition connectedGenerator (a : App) : option (Generator World) :=
  if negb (connected a) then None else generator a.

Definition FetchSchemas (a : App) (w : World)
  : (list string * option error) * World :=
  match connectedIntrospector a with
  | None => (([], Some ErrNotConnected), w)
  | Some i =>
      match asPostgres i with
      | Some pgIntrospector =>
          match GetSchemas pgIntrospector w with
          | (Ok schemas, w) => ((schemas, None), w)
          | (Err err, w) => (([], Some err), w)
          end
      | None => (([], None), w)
      end
  end.

Definition SetSchema (schema : string) (a : App) (w : World)
  : option error * World :=
  match connectedIntrospector a with
  | None => (Some ErrNotConnected, w)
  | Some i =>
      match asPostgres i with
      | Some pgIntrospector =>
          (None, SetCurrentSchema pgIntrospector schema w)
      | None => (None, w)
      end
  end.

Definition GetCurrentSchema (a : App) (w : World) : string :=
  match introspector a with
  | None => ""
  | Some i =>
      match asPostgres i with
      | Some pgIntrospector => CurrentSchema pgIntrospector w
      | None =>
          match dbConfig a with
          | Some cfg => DBName cfg
          | None => ""
          end
      end
  end.

Definition FetchTables (a : App) (w : World)
  : (list string * option error) * World :=
  match connectedIntrospector a with
  | None => (([], Some ErrNotConnected), w)
  | Some i =>
      match GetTables i w with
      | (Err err, w) => (([], Some (ErrWrap "failed to fetch tables: " err)), w)
      | (Ok tables, w) => ((tables, None), w)
      end
  end.

Definition columnInfo (typeMapper : TypeMapper) (col : ColumnMetadata)
  : ColumnInfo :=
  let goType := (GetGoType typeMapper (RawType col) (IsNullable col)).1.1 in
  {| ciName := Name col;
     ciDataType := DataType col;
     ciRawType := RawType col;
     ciGoType := goType;
     ciIsNullable := IsNullable col;
     ciIsPrimaryKey := IsPrimaryKey col;
     ciIsAutoIncrement := IsAutoIncrement col;
     ciDefaultValue := DefaultValue col;
     ciEnumValues := EnumValues col;
     ciComment := Comment col |}.

Definition FetchTableSchema (tableName : string) (a : App) (w : World)
  : (list ColumnInfo * option error) * World :=
  match connectedIntrospector a with
  | None => (([], Some ErrNotConnected), w)
  | Some i =>
      match GetColumns i tableName w with
      | (Err err, w) =>
          (([], Some (ErrWrap ("failed to fetch schema for table "
                               +:+ tableName +:+ ": ") err)), w)
      | (Ok columns, w) =>
          let typeMapper := NewTypeMapper in
          ((foldl (fun columnInfos col =>
                     columnInfos ++ [columnInfo typeMapper col])
                  [] columns, None), w)
      end
  end.

Definition GetCodePreview (tableName : string) (a : App) (w : World)
  : (string * option error) * World :=
  match connectedGenerator a with
  | None => (("", Some ErrNotConnected), w)
  | Some g =>
      match GenerateString env g tableName w with
      | ((_, Some err), w) =>
          (("", Some (ErrWrap ("failed to generate code for table "
                               +:+ tableName +:+ ": ") err)), w)
      | ((code, None), w) => ((code, None), w)
      end
  end.

Fixpoint previewLoop (g : Generator World) (tableNames : list string)
  (results : gmap string string) (w : World)
  : (gmap string string * option error) * World :=
  match tableNames with
  | [] => ((results, None), w)
  | tableName :: rest =>
      match GenerateString env g tableName w with
      | ((_, Some err), w) =>
          ((∅, Some (ErrWrap ("failed to generate code for table "
                              +:+ tableName +:+ ": ") err)), w)
      | ((code, None), w) =>
          previewLoop g rest (<[tableName := code]> results) w
      end
  end.

Definition GetCodePreviewMultiple (tableNames : list string) (a : App)
  (w : World) : (gmap string string * option error) * World :=
  match connectedGenerator a with
  | None => ((∅, Some ErrNotConnected), w)
  | Some g => previewLoop g tableNames ∅ w
  end.

Definition SaveCodeToFile (tableName filePath : string) (a : App) (w : World)
  : option error * World :=
  match connectedGenerator a with
  | None => (Some ErrNotConnected, w)
  | Some g =>
      match Generate env g tableName w with
      | ((_, Some err), w) =>
          (Some (ErrWrap ("failed to generate code for table "
                          +:+ tableName +:+ ": ") err), w)
      | ((code, None), w) =>
          let dir := filepath_Dir env filePath in
          match os_MkdirAll env dir w with
          | (Some err, w) =>
              (Some (ErrWrap ("failed to create directory " +:+ dir +:+ ": ")
                             err), w)
          | (None, w) =>
              match os_WriteFile env filePath code w with
              | (Some err, w) =>
                  (Some (ErrWrap ("failed to write file " +:+ filePath
                                  +:+ ": ") err), w)
              | (None, w) => (None, w)
              end
          end
      end
  end.

Definition SaveAllToDirectory (outputDir : string) (a : App) (w : World)
  : (list string * option error) * World :=
  match connectedGenerator a with
  | None => (([], Some ErrNotConnected), w)
  | Some g =>
      match GenerateAll env g outputDir w with
      | ((_, Some err), w) =>
          (([], Some (ErrWrap "failed to generate all tables: " err)), w)
      | ((filePaths, None), w) => ((filePaths, None), w)
      end
  end.

Definition SaveSelectedToDirectory (tableNames : list string)
  (outputDir : string) (a : App) (w : World)
  : (list string * option error) * World :=
  match connectedGenerator a with
  | None => (([], Some ErrNotConnected), w)
  | Some g => generateLoop env g outputDir tableNames [] w
  end.

(** The calls the front end can make on the bound [App]. *)
Inductive Call :=
| CallStartup
| CallGreet (name : string)
| CallGetSavedConfig
| CallGetConnectionStatus
| CallConnectDB (cfg : DBConfig)
| CallDisconnectDB
| CallIsPostgres
| CallFetchSchemas
| CallSetSchema (schema : string)
| CallGetCurrentSchema
| CallFetchTables
| CallFetchTableSchema (tableName : string)
| CallGetCodePreview (tableName : string)
| CallGetCodePreviewMultiple (tableNames : list string)
| CallSaveCodeToFile (tableName filePath : string)
| CallSaveAllToDirectory (outputDir : string)
| CallSaveSelectedToDirectory (tableNames : list string) (outputDir : string).

(** The session and the world after a call. *)
Definition perform (c : Call) (a : App) (w : World) : App * World :=
  match c with
  | CallStartup => Startup a w
  | CallGreet _ | CallGetSavedConfig | CallGetConnectionStatus
  | CallIsPostgres | CallGetCurrentSchema => (a, w)
  | CallConnectDB cfg => let '(_, a, w) := ConnectDB cfg a w in (a, w)
  | CallDisconnectDB => let '(_, a, w) := DisconnectDB a w in (a, w)
  | CallFetchSchemas => (a, (FetchSchemas a w).2)
  | CallSetSchema schema => (a, (SetSchema schema a w).2)
  | CallFetchTables => (a, (FetchTables a w).2)
  | CallFetchTableSchema t => (a, (FetchTableSchema t a w).2)
  | CallGetCodePreview t => (a, (GetCodePreview t a w).2)
  | CallGetCodePreviewMultiple ts => (a, (GetCodePreviewMultiple ts a w).2)
  | CallSaveCodeToFile t p => (a, (SaveCodeToFile t p a w).2)
  | CallSaveAllToDirectory d => (a, (SaveAllToDirectory d a w).2)
  | CallSaveSelectedToDirectory ts d =>
      (a, (SaveSelectedToDirectory ts d a w).2)
  end.

(** The states of a session: [NewApp] in any world, and what the
    calls make of them. *)
Inductive reachable : App -> World -> Prop :=
| reachable_new (w : World) : reachable NewApp w
| reachable_call (c : Call) (a : App) (w : World) :
    reachable a w -> reachable (perform c a w).1 (perform c a w).2.

(** The session is disconnected: the flag is down and neither an
    introspector nor a generator is kept. *)
Definition Disconnected (a : App) : Prop :=
  connected a = false /\ introspector a = None /\ generator a = None.

(** A session without an introspector has the flag down and no
    generator. *)
Definition session_inv (a : App) : Prop :=
  introspector a = None -> connected a = false /\ generator a = None.

(** The connection fields agree: the flag is up exactly when there is
    an introspector, the generator is the one [NewGenerator] makes of
    it, and a connected session has a configuration. *)
Definition consistent (a : App) : Prop :=
  (connected a = true <-> is_Some (introspector a)) /\
  generator a = NewGenerator <$> introspector a /\
  (connected a = true -> is_Some (dbConfig a)).

End Methods.

End App.

(** ** Sample data of the specification *)

Definition idColumn : ColumnMetadata :=
  {| Name := "id"; DataType := ""; RawType := "int unsigned";
     IsNullable := false; IsPrimaryKey := true; IsAutoIncrement := true;
     DefaultValue := None; EnumValues := []; IsUnsigned := false;
     CharMaxLength := None; NumericPrecision := None; NumericScale := None;
     Comment := ""; OrdinalPosition := 0 |}.


Definition emailColumn : ColumnMetadata :=
  {| Name := "email"; DataType := ""; RawType := "varchar(255)";
     IsNullable := false; IsPrimaryKey := false; IsAutoIncrement := false;
     DefaultValue := None; EnumValues := []; IsUnsigned := false;
     CharMaxLength := None; NumericPrecision := None; NumericScale := None;
     Comment := ""; OrdinalPosition := 0 |}.

Definition descriptionColumn : ColumnMetadata :=
  {| Name := "description"; DataType := ""; RawType := "text";
     IsNullable := true; IsPrimaryKey := false; IsAutoIncrement := false;
     DefaultValue := None; EnumValues := []; IsUnsigned := false;
     CharMaxLength := None; NumericPrecision := None; NumericScale := None;
     Comment := ""; OrdinalPosition := 0 |}.

(** The texts [BuildGormTag] copies into the tag of a column: its name,
    its raw type and its cleaned default. *)
Definition copiedTexts (col : ColumnMetadata) : list string :=
  [Name col; RawType col; from_option cleanDefaultValue "" (DefaultValue col)].


(** A database of three tables whose second table fails metadata
    retrieval, in a world that is the log of the calls made so far. *)
Module Scenario.

Inductive Event :=
| EvGetTables
| EvGetTableMetadata (tableName : string)
| EvMkdirAll (path : string)
| EvWriteFile (path : string)
| EvClose.

#[global] Instance Event_eq_dec : EqDecision Event.
Proof. solve_decision. Defined.

Definition World := list Event.

Definition tables : list string := ["accounts"; "broken"; "customers"].

Definition metadataOf (tableName : string) : TableMetadata :=
  {| Schema := "shop"; TableName := tableName;
     Columns := [idColumn; emailColumn]; TableComment := "" |}.

Definition metadataError : error := ErrNew "Error 1146: table is gone".

Definition introspector : DBIntrospector World :=
  {| Connect := fun w => (None, w);
     Close := fun w => (None, w ++ [EvClose]);
     GetTables := fun w => (Ok tables, w ++ [EvGetTables]);
     GetColumns := fun t w => (Ok [idColumn; emailColumn], w);
     GetTableMetadata := fun t w =>
       (if String.eqb t "broken" then Err metadataError else Ok (metadataOf t),
        w ++ [EvGetTableMetadata t]);
     asPostgres := None |}.

Definition formatError : error := ErrNew "1:1: expected 'package'".

(** The rendering stands for the template's text; the formatter
    succeeds or fails as [formatOk] says. *)
Definition env (formatOk : bool) : Env World :=
  {| NewMySQLIntrospector := fun _ w => (introspector, w);
     NewPostgresIntrospector := fun _ w => (introspector, w);
     template_Parse := None;
     template_Execute := fun td =>
       Ok ("package " +:+ tdPackageName td +:+ " type " +:+ tdStructName td);
     format_Source := fun buf => if formatOk then Ok buf else Err formatError;
     os_MkdirAll := fun path w => (None, w ++ [EvMkdirAll path]);
     os_WriteFile := fun path _ w => (None, w ++ [EvWriteFile path]);
     filepath_Join := fun dir file => dir +:+ "/" +:+ file;
     filepath_Dir := fun path => path;
     ToSnake := fun s => s;
     LoadConfig := fun w => (Err (ErrNew "no configuration"), w);
     SaveConfig := fun _ w => (None, w);
     log_Printf := fun _ w => w |}.

Definition generator : Generator World := NewGenerator introspector.

End Scenario.


Definition Scenario_goodConfig : DBConfig :=
  mkDBConfig "localhost" 3306 "root" "" "shop" "mysql".

Definition Scenario_badConfig : DBConfig :=
  mkDBConfig "localhost" 1521 "system" "" "shop" "oracle".


(** ** Predicates on the bytes of a string *)

(** Every byte of [s] satisfies [P]. *)
Fixpoint bytes_all (P : ascii -> Prop) (s : string) : Prop :=
  match s with
  | EmptyString => True
  | String c s' => P c /\ bytes_all P s'
  end.

(** No byte of [s] is an upper-case letter. *)
Definition lowercase (s : string) : Prop :=
  bytes_all (fun c => is_upper c = false) s.

(** Every captured text satisfies [P] bytewise. *)
Definition caps_all (P : ascii -> Prop) (c : Regexp.caps) : Prop :=
  forall (n : nat) (v : string), c !! n = Some v -> bytes_all P v.


(** What a match keeps of an input whose bytes satisfy [P], and a
    matching step that keeps it. *)
Definition match_ok (P : ascii -> Prop) (m : Regexp.caps * string) : Prop :=
  caps_all P m.1 /\ bytes_all P m.2.

Definition step_ok (P : ascii -> Prop)
  (step : string -> Regexp.caps -> list (Regexp.caps * string)) : Prop :=
  forall s c m, bytes_all P s -> caps_all P c -> m ∈ step s c -> match_ok P m.


(** A row of the MySQL catalog for an enum column declared with
    upper-case letters. *)
Definition statusRow : MySQL.ColumnRow :=
  {| MySQL.columnName := "status";
     MySQL.dataType := "enum";
     MySQL.columnType := "enum('Active','INACTIVE')";
     MySQL.isNullable := "NO";
     MySQL.columnKey := Some "";
     MySQL.extra := Some "";
     MySQL.columnDefault := Some "Active";
     MySQL.charMaxLength := Some 8%Z;
     MySQL.numericPrecision := None;
     MySQL.numericScale := None;
     MySQL.columnComment := Some "";
     MySQL.ordinalPosition := 3 |}.


(** ** Words of an identifier

    An identifier in exported form is a run of bytes without upper-case
    letters followed by words, each an upper-case letter and the bytes up
    to the next upper-case letter. *)

(** Every byte of [s] is an upper-case letter. *)
Definition all_upper (s : string) : Prop :=
  bytes_all (fun c => is_upper c = true) s.

Definition is_word (w : string) : Prop :=
  match w with
  | String c rest => is_upper c = true /\ lowercase rest
  | EmptyString => False
  end.

Definition flatten (ws : list string) : string :=
  foldr String.append "" ws.

(** The split of a string into its leading run and its words. *)
Fixpoint parseWords (s : string) : string * list string :=
  match s with
  | EmptyString => ("", [])
  | String c s' =>
      let '(pre, ws) := parseWords s' in
      if is_upper c then ("", String c pre :: ws) else (String c pre, ws)
  end.

(** The one-letter words of a string. *)
Fixpoint letters (s : string) : list string :=
  match s with
  | EmptyString => []
  | String c s' => String c "" :: letters s'
  end.

(** The end of the string or an upper-case letter comes next. *)
Definition at_boundary (s : string) : bool :=
  match s with
  | EmptyString => true
  | String c _ => is_upper c
  end.

(** What one [replaceAcronym] does to a word, and to the words. *)
Definition wordSubst (pattern replacement w : string) : list string :=
  if String.eqb w pattern then letters replacement else [w].

Definition wordStep (ws : list string) (pr : string * string) : list string :=
  ws ≫= wordSubst pr.1 pr.2.

(** What [handleAcronyms] does to a word: a word of the table becomes the
    letters of its acronym, any other word stays. *)
Definition acronymWord (table : gmap string string) (w : string) : list string :=
  match table !! w with
  | Some replacement => letters replacement
  | None => [w]
  end.

(** [handleAcronyms] word by word. *)
Definition acronymWords (s : string) : string :=
  let '(pre, ws) := parseWords s in
  pre +:+ flatten (ws ≫= acronymWord acronyms).

(** An entry of an acronym table as [replaceAcronym] needs it: the key
    is a word of two bytes or more, the value is upper-case. *)
Definition goodEntry (pr : string * string) : Prop :=
  is_word pr.1 /\ (2 <= len pr.1)%nat /\ all_upper pr.2.


(** ** internal/database/postgres_introspector.go *)

Module Postgres.

(** [normalizeDataType] *)
Definition normalizeDataType (dataType udtName : string) : string :=
  if String.eqb udtName "int2" then "smallint"
  else if String.eqb udtName "int4" then "integer"
  else if String.eqb udtName "int8" then "bigint"
  else if String.eqb udtName "float4" then "real"
  else if String.eqb udtName "float8" then "double precision"
  else if String.eqb udtName "bool" then "boolean"
  else if String.eqb udtName "varchar" || String.eqb udtName "bpchar"
  then "varchar"
  else if String.eqb udtName "timestamptz" then "timestamptz"
  else if String.eqb udtName "timestamp" then "timestamp"
  else if String.eqb udtName "jsonb" then "jsonb"
  else if String.eqb udtName "json" then "json"
  else if String.eqb udtName "uuid" then "uuid"
  else if String.eqb udtName "bytea" then "bytea"
  else if String.eqb dataType "ARRAY" && HasPrefix udtName "_"
  then "[]" +:+ slice_from udtName 1
  else dataType.

(** [buildRawType]; an [option] is a [sql.NullInt64], [%d] prints the
    decimal digits. *)
Definition buildRawType (dataType udtName : string)
  (charMaxLength numericPrecision numericScale : option Z) : string :=
  let normalizedType := normalizeDataType dataType udtName in
  match (if String.eqb normalizedType "varchar"
            || String.eqb normalizedType "character varying"
         then charMaxLength else None) with
  | Some n => "varchar(" +:+ pretty n +:+ ")"
  | None =>
      match (if String.eqb normalizedType "numeric"
                || String.eqb normalizedType "decimal"
             then numericPrecision else None) with
      | Some p =>
          match numericScale with
          | Some s =>
              if (0 <? s)%Z
              then "numeric(" +:+ pretty p +:+ "," +:+ pretty s +:+ ")"
              else "numeric(" +:+ pretty p +:+ ")"
          | None => "numeric(" +:+ pretty p +:+ ")"
          end
      | None => normalizedType
      end
  end.

(** One row of the column query of [GetColumns]. *)
Record ColumnRow := mkColumnRow {
  columnName : string;
  dataType : string;
  udtName : string;
  isNullable : string;
  columnDefault : option string;
  charMaxLength : option Z;
  numericPrecision : option Z;
  numericScale : option Z;
  ordinalPosition : Z;
  columnComment : string
}.

(** The body of the row loop of [GetColumns]. *)
Definition columnOfRow (r : ColumnRow) : ColumnMetadata :=
  {| Name := columnName r;
     DataType := normalizeDataType (dataType r) (udtName r);
     RawType := buildRawType (dataType r) (udtName r) (charMaxLength r)
                  (numericPrecision r) (numericScale r);
     IsNullable := String.eqb (isNullable r) "YES";
     IsPrimaryKey := false;
     IsAutoIncrement :=
       match columnDefault r with
       | Some d => Contains d "nextval"
       | None => false
       end;
     DefaultValue := columnDefault r;
     EnumValues := [];
     IsUnsigned := false;
     CharMaxLength := charMaxLength r;
     NumericPrecision := numericPrecision r;
     NumericScale := numericScale r;
     Comment := columnComment r;
     OrdinalPosition := ordinalPosition r |}.

(** The loop that marks the primary-key columns. *)
Definition markPrimaryKey (pkColumns : gmap string bool) (col : ColumnMetadata)
  : ColumnMetadata :=
  match pkColumns !! Name col with
  | Some _ =>
      {| Name := Name col; DataType := DataType col; RawType := RawType col;
         IsNullable := IsNullable col; IsPrimaryKey := true;
         IsAutoIncrement := IsAutoIncrement col;
         DefaultValue := DefaultValue col; EnumValues := EnumValues col;
         IsUnsigned := IsUnsigned col; CharMaxLength := CharMaxLength col;
         NumericPrecision := NumericPrecision col;
         NumericScale := NumericScale col; Comment := Comment col;
         OrdinalPosition := OrdinalPosition col |}
  | None => col
  end.

(** What a query gave: a failure, or the rows scanned in order and the
    scan error that ended the iteration, if any. *)
Inductive QueryOutcome (Row : Type) :=
| QueryFailed (err : error)
| QueryRows (rows : list Row) (scanErr : option error).
Arguments QueryFailed {Row} err.
Arguments QueryRows {Row} rows scanErr.

(** [getPrimaryKeyColumns] on the outcome of its query. *)
Definition getPrimaryKeyColumns (q : QueryOutcome string)
  : Result (gmap string bool) :=
  match q with
  | QueryFailed err => Err (ErrWrap "failed to query primary keys: " err)
  | QueryRows rows (Some err) =>
      Err (ErrWrap "failed to scan primary key column: " err)
  | QueryRows rows None =>
      Ok (foldl (fun pkColumns columnName => <[columnName := true]> pkColumns)
                ∅ rows)
  end.

(** [GetColumns] on the outcomes of the column query and of the
    primary-key query (which runs only after the rows are read). *)
Definition GetColumns (q : QueryOutcome ColumnRow) (pk : QueryOutcome string)
  : Result (list ColumnMetadata) :=
  match q with
  | QueryFailed err => Err (ErrWrap "failed to query columns: " err)
  | QueryRows rows (Some err) => Err (ErrWrap "failed to scan column: " err)
  | QueryRows rows None =>
      let columns := columnOfRow <$> rows in
      match getPrimaryKeyColumns pk with
      | Err err => Err err
      | Ok pkColumns => Ok (markPrimaryKey pkColumns <$> columns)
      end
  end.

End Postgres.

(** ** cmd/root.go *)

(** [splitTables] *)
Definition splitTables (tables : string) : list string :=
  foldl (fun result t =>
           let t := TrimSpace t in
           if negb (String.eqb t "") then result ++ [t] else result)
        [] (Split tables ",").

(** ** More of internal/generator/imports.go *)

Definition AddMultiple (importPaths : list string) (im : ImportManager)
  : ImportManager :=
  foldl (fun im path => Add path im) im importPaths.

Definition Clear (im : ImportManager) : ImportManager := ∅.

Definition Count (im : ImportManager) : nat := size im.


(** ** Checks on the type table *)

(** The import a Go type needs is the import path of its mapping: the
    three qualified types carry theirs, any other type carries none, is
    not empty and is no pointer. *)
Definition mappingOK (m : TypeMapping) : bool :=
  (String.eqb (GoType m) "time.Time" && String.eqb (ImportPath m) "time")
  || (String.eqb (GoType m) "datatypes.JSON"
      && String.eqb (ImportPath m) "gorm.io/datatypes")
  || (String.eqb (GoType m) "uuid.UUID"
      && String.eqb (ImportPath m) "github.com/google/uuid")
  || (String.eqb (ImportPath m) ""
      && negb (String.eqb (GoType m) "")
      && negb (HasPrefix (GoType m) "*")
      && negb (String.eqb (GoType m) "time.Time")
      && negb (String.eqb (GoType m) "datatypes.JSON")
      && negb (String.eqb (GoType m) "uuid.UUID")).


(** A byte other than the underscore. *)
Definition not_underscore (c : ascii) : Prop := c <> "_"%char.

(** ** What a field asks of the import block

    The four checks of the loop of [DetectRequiredImports]: the three
    type names (plain or as pointers) and the import path of the field. *)
Definition fieldNeeds (field : StructField) (path : string) : Prop :=
  (path = WellKnownImports.Time
   /\ (FieldType field = "time.Time" \/ FieldType field = "*time.Time"))
  \/ (path = WellKnownImports.Datatypes
      /\ (FieldType field = "datatypes.JSON"
          \/ FieldType field = "*datatypes.JSON"))
  \/ (path = WellKnownImports.UUID
      /\ (FieldType field = "uuid.UUID" \/ FieldType field = "*uuid.UUID"))
  \/ (path = FieldImportPath field /\ path <> "").

(** One round of the loop of [DetectRequiredImports]. *)
Definition detectStep (importMgr : ImportManager) (field : StructField)
  : ImportManager :=
  let goType := FieldType field in
  let importMgr :=
    if String.eqb goType "time.Time" || String.eqb goType "*time.Time"
    then Add WellKnownImports.Time importMgr else importMgr in
  let importMgr :=
    if String.eqb goType "datatypes.JSON"
       || String.eqb goType "*datatypes.JSON"
    then Add WellKnownImports.Datatypes importMgr else importMgr in
  let importMgr :=
    if String.eqb goType "uuid.UUID" || String.eqb goType "*uuid.UUID"
    then Add WellKnownImports.UUID importMgr else importMgr in
  if negb (String.eqb (FieldImportPath field) "")
  then Add (FieldImportPath field) importMgr else importMgr.


(** A byte that the verb [%d] prints, or the comma between the two
    numbers of [numeric(%d,%d)]. *)
Definition sizeByte (c : ascii) : Prop :=
  is_digit c = true \/ c = "-"%char \/ c = ","%char.

(** The Go types of the catalog type names that [normalizeDataType]
    knows, as the type table gives them. *)
Definition Postgres_udtTypes : list (string * string) :=
  [ ("int2", "int16"); ("int4", "int32"); ("int8", "int64");
    ("float4", "float32"); ("float8", "float64"); ("bool", "bool");
    ("varchar", "string"); ("bpchar", "string");
    ("timestamptz", "time.Time"); ("timestamp", "time.Time");
    ("jsonb", "datatypes.JSON"); ("json", "datatypes.JSON");
    ("uuid", "uuid.UUID"); ("bytea", "[]byte") ].


(** A byte other than the single quote. *)
Definition noQuote (c : ascii) : Prop := c <> "'"%char.

(* ================================================================== *)
(** * Properties *)

Example getgotype_samples :
  GetGoType NewTypeMapper "VARCHAR(255)" true = ("string", "", "") /\
  GetGoType NewTypeMapper "int(10) unsigned" false = ("uint32", "", "") /\
  GetGoType NewTypeMapper "tinyint(1)" false = ("bool", "", "") /\
  GetGoType NewTypeMapper "geometry" true
    = ("interface{}", "", "// unknown type: geometry").
Proof. vm_compute. done. Qed.

Example naming_samples :
  ToGoFieldName "user_id" = "UserID" /\
  ToGoFieldName "api_key" = "APIKey" /\
  handleAcronyms "ApiUrl" = "APIURL" /\
  handleAcronyms "DbConnection" = "DBConnection" /\
  ToPascalCase "http_status" = "HTTPStatus" /\
  ToGoStructName "order_items" = "OrderItem" /\
  singularize "addresses" = "address" /\
  singularize "leaves" = "leaf" /\
  singularize "statuses" = "status" /\
  singularize "users" = "user" /\
  Split "a__b_" "_" = ["a"; ""; "b"; ""] /\
  cleanDefaultValue "(0)" = "0" /\
  cleanDefaultValue "null" = "" /\
  cleanDefaultValue "nextval('x_seq'::regclass)" = "".
Proof. vm_compute. repeat split. Qed.

Example enum_samples :
  ParseEnumValues "enum('active','inactive')" = ["active"; "inactive"] /\
  ParseEnumValues "ENUM('pending','approved','rejected')"
    = ["pending"; "approved"; "rejected"] /\
  ParseEnumValues "enum( 'a' , 'b' )" = ["a"; "b"] /\
  ParseEnumValues "enum(  )" = [] /\
  ParseEnumValues "varchar(255)" = [] /\
  ParseEnumValues "int" = [] /\
  Regexp.FindStringSubmatch enumRe "x enum ( ab) ) z" = ["enum ( ab) )"; "ab) "] /\
  Regexp.FindAllStringSubmatch valueRe "'a','','b" = [["'a'"; "a"]; ["''"; ""]].
Proof. vm_compute. repeat split. Qed.

(** ** Type mapper *)

(** C1: for every raw type string (and every lookup table), [GetGoType]
    returns the same Go type, import path and note for a nullable column
    as for a non-nullable one, on every branch, the fallback for an
    unknown type included; [GetGoTypeSimple] inherits it. *)
Theorem GetGoType_ignores_nullable (tm : TypeMapper) (dbType : string) :
  GetGoType tm dbType true = GetGoType tm dbType false /\
  GetGoTypeSimple tm dbType true = GetGoTypeSimple tm dbType false.
Proof.
  assert (H : GetGoType tm dbType true = GetGoType tm dbType false).
  { unfold GetGoType, applyNullable.
    repeat (case_match; try reflexivity). }
  split; [exact H |]. unfold GetGoTypeSimple. by rewrite H.
Qed.

(** C4: when the normalised raw type contains the marker unsigned and
    the table has an entry for the base type followed by unsigned, that
    entry decides the result, whatever the other entries are; and with
    the table of the program, int unsigned maps to uint32 while int maps
    to int32. *)
Theorem unsigned_lookup_priority :
  (forall (tm : TypeMapper) (dbType : string) (isNullable : bool)
          (mapping : TypeMapping),
      Contains (ToLower (TrimSpace dbType)) "unsigned" = true ->
      typeMap tm !! (extractBaseType (ToLower (TrimSpace dbType))
                     +:+ " unsigned") = Some mapping ->
      GetGoType tm dbType isNullable = (GoType mapping, ImportPath mapping, "")) /\
  GetGoType NewTypeMapper "int unsigned" false = ("uint32", "", "") /\
  GetGoType NewTypeMapper "int" false = ("int32", "", "").
Proof.
  split; [| by vm_compute].
  intros tm dbType isNullable mapping Hc Hm.
  unfold GetGoType. rewrite Hc, Hm. reflexivity.
Qed.

Lemma unsigned_lookup_priority_witness :
  Contains (ToLower (TrimSpace "INT(10) unsigned")) "unsigned" = true /\
  typeMap NewTypeMapper
    !! (extractBaseType (ToLower (TrimSpace "INT(10) unsigned")) +:+ " unsigned")
    = Some (plainType "uint32") /\
  GetGoType NewTypeMapper "INT(10) unsigned" true = ("uint32", "", "").
Proof.
  split; [by vm_compute |]. split; [by vm_compute |].
  apply (proj1 unsigned_lookup_priority NewTypeMapper "INT(10) unsigned" true
               (plainType "uint32")); by vm_compute.
Defined.

(** ** Tag builder *)

(** The attribute list of a column, part by part. *)
Lemma gormParts_eq (col : ColumnMetadata) :
  gormParts col
  = (if IsPrimaryKey col then ["primaryKey"] else [])
    ++ (if IsAutoIncrement col then ["autoIncrement"] else [])
    ++ ["column:" +:+ Name col]
    ++ ["type:" +:+ RawType col]
    ++ match DefaultValue col with
       | Some d =>
           if String.eqb (cleanDefaultValue d) "" then []
           else ["default:" +:+ cleanDefaultValue d]
       | None => []
       end
    ++ (if negb (IsNullable col) && negb (IsPrimaryKey col)
        then ["not null"] else []).
Proof.
  unfold gormParts.
  destruct (IsPrimaryKey col), (IsAutoIncrement col), (IsNullable col),
    (DefaultValue col) as [d|]; simpl;
    try destruct (String.eqb (cleanDefaultValue d) ""); reflexivity.
Qed.

(** C2: a column named id of raw type int unsigned that is a primary key,
    auto-incremented, not nullable and without default gets the attribute
    list primaryKey;autoIncrement;column:id;type:int unsigned, which
    [BuildGormTag] returns as the quoted value of the key gorm; and
    for every column the attributes are, in this order, the primary-key
    marker, the auto-increment marker, the column name, the declared
    type, the cleaned default and the not-null marker, each under its
    condition. *)
Theorem BuildGormTag_order :
  (forall col : ColumnMetadata,
      Name col = "id" -> RawType col = "int unsigned" ->
      IsPrimaryKey col = true -> IsAutoIncrement col = true ->
      IsNullable col = false -> DefaultValue col = None ->
      Join (gormParts col) ";"
        = "primaryKey;autoIncrement;column:id;type:int unsigned" /\
      BuildGormTag col
        = "gorm:" +:+ dquote
          +:+ "primaryKey;autoIncrement;column:id;type:int unsigned"
          +:+ dquote) /\
  (forall col : ColumnMetadata,
      gormParts col
      = (if IsPrimaryKey col then ["primaryKey"] else [])
        ++ (if IsAutoIncrement col then ["autoIncrement"] else [])
        ++ ["column:" +:+ Name col]
        ++ ["type:" +:+ RawType col]
        ++ match DefaultValue col with
           | Some d =>
               if String.eqb (cleanDefaultValue d) "" then []
               else ["default:" +:+ cleanDefaultValue d]
           | None => []
           end
        ++ (if negb (IsNullable col) && negb (IsPrimaryKey col)
            then ["not null"] else [])) /\
  (forall col : ColumnMetadata,
      BuildGormTag col = "gorm:" +:+ dquote +:+ Join (gormParts col) ";" +:+ dquote).
Proof.
  split; [| split]; [| | reflexivity].
  - intros col Hn Ht Hpk Hai Hnull Hdef.
    unfold BuildGormTag, gormParts.
    rewrite Hn, Ht, Hpk, Hai, Hnull, Hdef. by vm_compute.
  - exact gormParts_eq.
Qed.

Lemma BuildGormTag_order_witness :
  BuildGormTag idColumn
  = "gorm:" +:+ dquote
    +:+ "primaryKey;autoIncrement;column:id;type:int unsigned" +:+ dquote.
Proof.
  apply (proj1 BuildGormTag_order idColumn); reflexivity.
Defined.

(** Splitting at semicolons undoes joining with semicolons when no part
    holds a semicolon. *)
Section SplitJoin.

Lemma rev_app_rev_app (p q r : string) :
  String.rev_app (String.rev_app p q) r = String.rev_app q (p +:+ r).
Proof.
  revert q r. induction p as [|c p IH]; intros q r; simpl; [done |].
  by rewrite IH.
Qed.

Lemma append_empty_r (p : string) : p +:+ "" = p.
Proof. induction p as [|c p IH]; simpl; [done | by f_equal]. Qed.

Lemma rev_rev_app (p : string) : String.rev (String.rev_app p "") = p.
Proof.
  unfold String.rev. rewrite rev_app_rev_app. apply append_empty_r.
Qed.

Lemma prefix_empty (s : string) : String.prefix "" s = true.
Proof. by destruct s. Qed.

Lemma prefix_single (a c : ascii) (s : string) :
  String.prefix (String a "") (String c s)
  = (if ascii_dec a c then true else false).
Proof. cbn [String.prefix]. by rewrite prefix_empty. Qed.

Lemma Contains_cons_false (c : ascii) (p sub : string) :
  Contains (String c p) sub = false ->
  String.prefix sub (String c p) = false /\ Contains p sub = false.
Proof.
  unfold Contains. cbn [Index].
  destruct (String.prefix sub (String c p)); [done |].
  destruct (Index p sub); simpl; done.
Qed.

Lemma Contains_append_single (a : ascii) (pre s : string) :
  Contains pre (String a "") = false -> Contains s (String a "") = false ->
  Contains (pre +:+ s) (String a "") = false.
Proof.
  intros Hpre Hs. induction pre as [|c pre IH]; [done |].
  apply Contains_cons_false in Hpre as [Hc Hpre]. specialize (IH Hpre).
  rewrite prefix_single in Hc.
  change (String c pre +:+ s) with (String c (pre +:+ s)).
  unfold Contains in *. cbn [Index]. rewrite prefix_single.
  destruct (ascii_dec a c); [done |].
  destruct (Index (pre +:+ s) (String a "")); done.
Qed.

Lemma split_go_part (p rest cur : string) :
  Contains p ";" = false ->
  split_go ";" (p +:+ rest) cur 0
  = match rest with
    | EmptyString => [String.rev (String.rev_app p cur)]
    | String _ _ => split_go ";" rest (String.rev_app p cur) 0
    end.
Proof.
  revert cur. induction p as [|c p IH]; intros cur Hp.
  - by destruct rest.
  - apply Contains_cons_false in Hp as [Hc Hp].
    rewrite prefix_single in Hc.
    change (String c p +:+ rest) with (String c (p +:+ rest)).
    cbn [split_go]. rewrite prefix_single.
    destruct (ascii_dec ";" c); [done |]. by apply IH.
Qed.

Lemma Split_Join (parts : list string) :
  parts <> [] ->
  Forall (fun p => Contains p ";" = false) parts ->
  Split (Join parts ";") ";" = parts.
Proof.
  unfold Split. induction parts as [|p parts IH]; [done |].
  intros _ Hall. apply Forall_cons in Hall as [Hp Hall].
  destruct parts as [|q parts].
  - cbn [Join]. pose proof (split_go_part p "" "" Hp) as Hs.
    rewrite append_empty_r in Hs. rewrite Hs. by rewrite rev_rev_app.
  - change (Join (p :: q :: parts) ";")
      with (p +:+ String ";"%char (Join (q :: parts) ";")).
    rewrite split_go_part by done.
    cbn [split_go]. rewrite prefix_single.
    destruct (ascii_dec ";" ";"); [| done].
    rewrite rev_rev_app. f_equal. by apply IH.
Qed.

End SplitJoin.

(** C3: for every column the attribute not null is in the attribute list
    of [BuildGormTag] exactly when the column is neither nullable nor a
    primary key; the attribute list read back from the tag text by
    splitting it at the semicolons says the same whenever the name, the
    raw type and the default of the column hold no semicolon; the tag of
    the non-nullable varchar column email contains not null and the tag
    of the nullable text column description does not. *)
Theorem not_null_iff :
  (forall col : ColumnMetadata,
      "not null" ∈ gormParts col
      <-> IsNullable col = false /\ IsPrimaryKey col = false) /\
  (forall col : ColumnMetadata,
      Forall (fun p => Contains p ";" = false) (copiedTexts col) ->
      "not null" ∈ Split (Join (gormParts col) ";") ";"
      <-> IsNullable col = false /\ IsPrimaryKey col = false) /\
  Contains (BuildGormTag emailColumn) "not null" = true /\
  Contains (BuildGormTag descriptionColumn) "not null" = false.
Proof.
  assert (Hparts : forall col : ColumnMetadata,
             "not null" ∈ gormParts col
             <-> IsNullable col = false /\ IsPrimaryKey col = false).
  { intros col. rewrite (gormParts_eq col).
    rewrite !elem_of_app.
    destruct (IsPrimaryKey col), (IsAutoIncrement col), (IsNullable col);
      simpl; (split; [intros H | intros [? ?]; try done]);
      repeat match goal with
        | H : _ \/ _ |- _ => destruct H as [H|H]
        | H : _ ∈ [] |- _ => by apply not_elem_of_nil in H
        | H : _ ∈ [_] |- _ => apply list_elem_of_singleton in H; try done
        | H : _ ∈ match ?d with _ => _ end |- _ => destruct d
        | H : _ ∈ (if ?b then _ else _) |- _ => destruct b
        end;
      try done;
      repeat (first [ right; apply list_elem_of_singleton; reflexivity | right ]). }
  split; [exact Hparts |]. split; [| by vm_compute].
  intros col Hall. rewrite Split_Join; [apply Hparts | |].
  - rewrite (gormParts_eq col).
    destruct (IsPrimaryKey col), (IsAutoIncrement col); done.
  - unfold copiedTexts in Hall.
    apply Forall_cons in Hall as [Hn Hall].
    apply Forall_cons in Hall as [Ht Hall].
    apply Forall_cons in Hall as [Hd _].
    rewrite (gormParts_eq col).
    pose proof (Contains_append_single ";"%char) as Hc.
    repeat first
      [ apply Forall_app; split
      | apply Forall_nil_2
      | apply Forall_cons; split ];
      repeat match goal with
        | |- Forall _ (if ?b then _ else _) => destruct b
        | |- Forall _ (match ?d with _ => _ end) => destruct d
        | |- Forall _ [] => apply Forall_nil_2
        | |- Forall _ [_] => apply Forall_cons; split; [| apply Forall_nil_2]
        end;
      try (by vm_compute); try (apply Hc; [by vm_compute | done]).
Qed.

Lemma not_null_iff_witness :
  Forall (fun p => Contains p ";" = false) (copiedTexts emailColumn) /\
  ("not null" ∈ Split (Join (gormParts emailColumn) ";") ";"
   <-> IsNullable emailColumn = false /\ IsPrimaryKey emailColumn = false).
Proof.
  assert (H : Forall (fun p => Contains p ";" = false) (copiedTexts emailColumn)).
  { repeat constructor. }
  split; [exact H |].
  exact (proj1 (proj2 not_null_iff) emailColumn H).
Defined.

(** ** Naming: singularisation *)

Section SliceFacts.

Lemma slice_from_step (s : string) (i : nat) :
  (i < len s)%nat ->
  exists c, slice_from s i = String c (slice_from s (S i)).
Proof.
  revert i. induction s as [|c s IH]; intros i Hi; simpl in Hi; [lia |].
  destruct i as [|i].
  - exists c. by destruct s.
  - destruct (IH i) as [c' Hc']; [lia |]. exists c'. exact Hc'.
Qed.

End SliceFacts.

(** A word with the suffix ss is none of the irregular plurals. *)
Lemma irregulars_not_ss (word : string) :
  HasSuffix word "ss" = true -> irregulars !! word = None.
Proof.
  intros Hss. destruct (irregulars !! word) as [v|] eqn:Hl; [| done].
  exfalso. unfold irregulars in Hl.
  apply elem_of_list_to_map_2 in Hl.
  repeat (apply elem_of_cons in Hl as [Hl|Hl];
          [injection Hl as -> ->; by vm_compute in Hss |]).
  by apply not_elem_of_nil in Hl.
Qed.

(** C9: [singularize] maps categories to category, boxes to box and
    people to person, and returns every word that ends in ss (class, for
    one) unchanged. *)
Theorem singularize_samples :
  singularize "categories" = "category" /\
  singularize "boxes" = "box" /\
  singularize "people" = "person" /\
  singularize "class" = "class" /\
  (forall word : string, HasSuffix word "ss" = true -> singularize word = word).
Proof.
  do 4 (split; [by vm_compute |]).
  intros word Hss. unfold singularize.
  rewrite (irregulars_not_ss word Hss).
  unfold HasSuffix in Hss. apply andb_true_iff in Hss as [Hlen Hss].
  apply Nat.leb_le in Hlen. apply String.eqb_eq in Hss.
  change (String.length "ss") with 2%nat in *.
  fold (len word) in *. set (n := len word) in *.
  destruct (String.eqb word "") eqn:He; [by apply String.eqb_eq in He |].
  assert (H3 : forall t, (3 <? n)%nat = true ->
             String.eqb (slice_from word (n - 3)) (String t "es") = false).
  { intros t Hn. apply Nat.ltb_lt in Hn.
    destruct (slice_from_step word (n - 3)) as [c Hc]; [unfold n in *; lia |].
    replace (S (n - 3)) with (n - 2)%nat in Hc by lia.
    rewrite Hc, Hss. cbn [String.eqb]. by destruct (Ascii.eqb c t). }
  destruct (3 <? n)%nat eqn:Hn3; cbn [andb].
  - rewrite !H3 by done. rewrite Hss.
    destruct (2 <? n)%nat; [| done]. by vm_compute.
  - rewrite Hss. destruct (2 <? n)%nat; [| done]. by vm_compute.
Qed.

Lemma singularize_samples_witness :
  HasSuffix "address" "ss" = true /\ singularize "address" = "address".
Proof.
  split; [by vm_compute |].
  apply (proj2 (proj2 (proj2 (proj2 singularize_samples)))). by vm_compute.
Defined.

(** ** Generator *)

Section GeneratorFacts.
Context {World : Type} (env : Env World).

(** The loop continues from the paths and the world that the tables
    done so far have produced. *)
Lemma generateLoop_app (g : Generator World) (outputDir : string)
  (done rest : list string) (acc paths : list string) (w0 w1 : World) :
  generateEach env g outputDir done w0 = Some (paths, w1) ->
  generateLoop env g outputDir (done ++ rest) acc w0
  = generateLoop env g outputDir rest (acc ++ paths) w1.
Proof.
  revert acc paths w0. induction done as [|t done IH]; intros acc paths w0 H.
  - injection H as <- <-. by rewrite app_nil_r.
  - cbn [generateEach] in H. cbn [app generateLoop].
    destruct (GenerateToFile env g t outputDir w0) as [[p [e|]] w0'];
      [done |].
    destruct (generateEach env g outputDir done w0') as [[ps w']|] eqn:Hd;
      [| done].
    injection H as <- <-.
    rewrite (IH (acc ++ [p]) ps w0' Hd). by rewrite <- app_assoc.
Qed.

(** C6: when the metadata is there, the template parses and renders to
    [buf], and the formatter rejects [buf], [Generate] returns [buf]
    itself together with a formatting error. *)
Theorem Generate_format_failure (g : Generator World) (tableName : string)
  (w w' : World) (meta : TableMetadata) (buf : string) (err : error) :
  GetTableMetadata (introspector g) tableName w = (Ok meta, w') ->
  template_Parse env = None ->
  template_Execute env
    (buildTemplateData g tableName (buildFields g (Columns meta))) = Ok buf ->
  format_Source env buf = Err err ->
  Generate env g tableName w
  = ((buf, Some (ErrWrap "go/format failed (returning unformatted): " err)),
     w').
Proof.
  intros Hm Hp He Hf. unfold Generate. by rewrite Hm, Hp, He, Hf.
Qed.

(** C5: [GenerateAll] runs [GenerateToFile] on the tables in the order
    [GetTables] gave them.  When it fails on a table, the result is the
    paths of the tables before it, in order, and the error of that
    table, in the world that the failed call left: whatever tables come
    later, nothing is run for them.  With three tables of which the
    second fails metadata retrieval, the result is the path of the
    first table and that error.  When no table fails, every path is
    returned. *)
Theorem GenerateAll_stops_at_first_failure (g : Generator World)
  (outputDir : string) :
  (forall (w w0 w1 w2 : World) (done later paths : list string)
          (failing partial : string) (err : error),
      GetTables (introspector g) w = (Ok (done ++ failing :: later), w0) ->
      generateEach env g outputDir done w0 = Some (paths, w1) ->
      GenerateToFile env g failing outputDir w1 = ((partial, Some err), w2) ->
      GenerateAll env g outputDir w
      = ((paths,
          Some (ErrWrap ("failed to generate " +:+ failing +:+ ": ") err)),
         w2)) /\
  (forall (w w0 w1 w2 : World) (first second third path1 : string)
          (err : error),
      GetTables (introspector g) w = (Ok [first; second; third], w0) ->
      GenerateToFile env g first outputDir w0 = ((path1, None), w1) ->
      GetTableMetadata (introspector g) second w1 = (Err err, w2) ->
      GenerateAll env g outputDir w
      = (([path1],
          Some (ErrWrap ("failed to generate " +:+ second +:+ ": ")
                  (ErrWrap "failed to get table metadata: " err))),
         w2)) /\
  (forall (w w0 w1 : World) (tables paths : list string),
      GetTables (introspector g) w = (Ok tables, w0) ->
      generateEach env g outputDir tables w0 = Some (paths, w1) ->
      GenerateAll env g outputDir w = ((paths, None), w1)).
Proof.
  assert (Hfail : forall (w w0 w1 w2 : World) (done later paths : list string)
                    (failing partial : string) (err : error),
      GetTables (introspector g) w = (Ok (done ++ failing :: later), w0) ->
      generateEach env g outputDir done w0 = Some (paths, w1) ->
      GenerateToFile env g failing outputDir w1 = ((partial, Some err), w2) ->
      GenerateAll env g outputDir w
      = ((paths,
          Some (ErrWrap ("failed to generate " +:+ failing +:+ ": ") err)),
         w2)).
  { intros w w0 w1 w2 done later paths failing partial err Ht Hd Hf.
    unfold GenerateAll. rewrite Ht.
    rewrite (generateLoop_app g outputDir done _ [] paths w0 w1 Hd).
    cbn [generateLoop app]. by rewrite Hf. }
  split; [exact Hfail |]. split.
  - intros w w0 w1 w2 first second third path1 err Ht H1 H2.
    apply (Hfail w w0 w1 w2 [first] [third] [path1] second "" _ Ht).
    + cbn [generateEach]. by rewrite H1.
    + unfold GenerateToFile, Generate. by rewrite H2.
  - intros w w0 w1 tables paths Ht Hd.
    unfold GenerateAll. rewrite Ht.
    rewrite <- (app_nil_r tables).
    rewrite (generateLoop_app g outputDir tables [] [] paths w0 w1 Hd).
    reflexivity.
Qed.

End GeneratorFacts.

Lemma Generate_format_failure_witness :
  Generate (Scenario.env false) Scenario.generator "accounts" []
  = (("package models type Account",
      Some (ErrWrap "go/format failed (returning unformatted): "
                    Scenario.formatError)),
     [Scenario.EvGetTableMetadata "accounts"]).
Proof.
  apply (Generate_format_failure (Scenario.env false) Scenario.generator
           "accounts" [] _ (Scenario.metadataOf "accounts")); by vm_compute.
Defined.

Lemma GenerateAll_stops_at_first_failure_witness :
  GenerateAll (Scenario.env true) Scenario.generator "out" []
  = ((["out/accounts.go"],
      Some (ErrWrap "failed to generate broken: "
              (ErrWrap "failed to get table metadata: "
                       Scenario.metadataError))),
     [ Scenario.EvGetTables;
       Scenario.EvGetTableMetadata "accounts";
       Scenario.EvMkdirAll "out";
       Scenario.EvWriteFile "out/accounts.go";
       Scenario.EvGetTableMetadata "broken" ]).
Proof.
  apply (proj1 (proj2 (GenerateAll_stops_at_first_failure (Scenario.env true)
                         Scenario.generator "out"))
           [] [Scenario.EvGetTables]
           [ Scenario.EvGetTables; Scenario.EvGetTableMetadata "accounts";
             Scenario.EvMkdirAll "out"; Scenario.EvWriteFile "out/accounts.go" ]
           _ "accounts" "broken" "customers"); by vm_compute.
Defined.

(** ** The session of the GUI *)

Section SessionFacts.
Context {World : Type} (env : Env World).

Import App.

Lemma ConnectDB_inv (cfg : DBConfig) (a : State World) (w : World) :
  session_inv a -> session_inv (ConnectDB env cfg a w).1.2.
Proof.
  intros Ha. unfold ConnectDB.
  destruct (introspector a) as [i|] eqn:Hi.
  - destruct (Close i w) as [r w1].
    destruct (NewIntrospector env cfg w1) as [[j|e] w2]; [| by intros _].
    destruct (Connect j w2) as [[e|] w3]; [by intros _ |].
    destruct (SaveConfig env _ w3) as [[e|] w4]; by intros ?.
  - destruct (NewIntrospector env cfg w) as [[j|e] w2]; [| done].
    destruct (Connect j w2) as [[e|] w3]; [done |].
    destruct (SaveConfig env _ w3) as [[e|] w4]; by intros ?.
Qed.

Lemma perform_inv (c : Call) (a : State World) (w : World) :
  session_inv a -> session_inv (perform env c a w).1.
Proof.
  intros Ha. destruct c; cbn [perform fst]; try exact Ha.
  - unfold Startup. destruct (LoadConfig env w) as [[cfg|e] w1]; [| exact Ha].
    destruct (negb _); exact Ha.
  - pose proof (ConnectDB_inv cfg a w Ha) as H.
    by destruct (ConnectDB env cfg a w) as [[r a'] w'].
  - unfold DisconnectDB. destruct (introspector a) as [i|] eqn:Hi.
    + by destruct (Close i w) as [[e|] w1].
    + exact Ha.
Qed.

Lemma reachable_inv (a : State World) (w : World) :
  reachable env a w -> session_inv a.
Proof.
  induction 1 as [w | c a w _ IH]; [done |]. by apply perform_inv.
Qed.

(** C7: in every reachable state of the session, a [ConnectDB] that
    returns an error leaves the session disconnected (flag down, no
    introspector, no generator); and whenever the flag is down,
    [FetchTables], [FetchTableSchema], [GetCodePreview],
    [SaveCodeToFile], [SaveAllToDirectory], [FetchSchemas] and
    [SetSchema] return the error database not connected and leave the
    world as it was, so no call reaches the database. *)
Theorem disconnected_session (a : State World) (w : World) :
  reachable env a w ->
  (forall (cfg : DBConfig) (err : error) (a' : State World) (w' : World),
      ConnectDB env cfg a w = (Some err, a', w') ->
      reachable env a' w' /\ Disconnected a') /\
  (forall (a' : State World) (w' : World),
      connected a' = false ->
      FetchTables a' w' = (([], Some ErrNotConnected), w') /\
      (forall t, FetchTableSchema t a' w' = (([], Some ErrNotConnected), w')) /\
      (forall t, GetCodePreview env t a' w' = (("", Some ErrNotConnected), w')) /\
      (forall t p, SaveCodeToFile env t p a' w' = (Some ErrNotConnected, w')) /\
      (forall d, SaveAllToDirectory env d a' w'
                 = (([], Some ErrNotConnected), w')) /\
      FetchSchemas a' w' = (([], Some ErrNotConnected), w') /\
      (forall s, SetSchema s a' w' = (Some ErrNotConnected, w'))) /\
  Error ErrNotConnected = "database not connected".
Proof.
  intros Hr. split; [| split; [| reflexivity]].
  - intros cfg err a' w' Hc. split.
    + pose proof (reachable_call env (CallConnectDB cfg) a w Hr) as H.
      cbn [perform] in H. by rewrite Hc in H.
    + pose proof (reachable_inv a w Hr) as Ha. unfold session_inv in Ha.
      unfold ConnectDB in Hc.
      destruct (introspector a) as [i|] eqn:Hi.
      * destruct (Close i w) as [r w1].
        destruct (NewIntrospector env cfg w1) as [[j|e] w2].
        -- destruct (Connect j w2) as [[e|] w3].
           ++ by injection Hc as _ <- _.
           ++ by destruct (SaveConfig env _ w3) as [[e|] w4].
        -- by injection Hc as _ <- _.
      * destruct (Ha eq_refl) as [Hcon Hgen].
        destruct (NewIntrospector env cfg w) as [[j|e] w2].
        -- destruct (Connect j w2) as [[e|] w3].
           ++ by injection Hc as _ <- _.
           ++ by destruct (SaveConfig env _ w3) as [[e|] w4].
        -- by injection Hc as _ <- _.
  - intros a' w' Hcon.
    unfold FetchTables, FetchTableSchema, GetCodePreview, SaveCodeToFile,
      SaveAllToDirectory, FetchSchemas, SetSchema, connectedIntrospector,
      connectedGenerator.
    rewrite Hcon. cbn [negb]. repeat split.
Qed.

End SessionFacts.

Lemma disconnected_session_witness :
  let env := Scenario.env true in
  let s1 := App.perform env (App.CallConnectDB Scenario_goodConfig) App.NewApp [] in
  let r := App.ConnectDB env Scenario_badConfig s1.1 s1.2 in
  App.connected s1.1 = true /\
  App.reachable env s1.1 s1.2 /\
  r.1.1 = Some (ErrWrap "failed to create introspector: "
                        (ErrNew "unsupported database driver: oracle")) /\
  App.Disconnected r.1.2 /\
  App.FetchTables r.1.2 r.2 = (([], Some App.ErrNotConnected), [Scenario.EvClose]).
Proof.
  intros env s1 r.
  assert (Hr : App.reachable env s1.1 s1.2).
  { apply App.reachable_call, App.reachable_new. }
  split; [reflexivity |]. split; [exact Hr |]. split; [by vm_compute |].
  pose proof (disconnected_session env s1.1 s1.2 Hr) as [Hfail [Hops _]].
  destruct (Hfail Scenario_badConfig
              (ErrWrap "failed to create introspector: "
                       (ErrNew "unsupported database driver: oracle"))
              r.1.2 r.2) as [_ Hd]; [by vm_compute |].
  split; [exact Hd |].
  destruct Hd as [Hc _].
  exact (proj1 (Hops r.1.2 r.2 Hc)).
Defined.

(** ** Enum values *)

Section BytesFacts.
Context (P : ascii -> Prop).

Lemma bytes_all_slice_from (s : string) (i : nat) :
  bytes_all P s -> bytes_all P (slice_from s i).
Proof.
  revert s. induction i as [|i IH]; intros s Hs; [by destruct s |].
  destruct s as [|c s]; [done |]. apply IH. by destruct Hs.
Qed.

Lemma bytes_all_slice_to (s : string) (j : nat) :
  bytes_all P s -> bytes_all P (slice_to s j).
Proof.
  revert s. induction j as [|j IH]; intros s Hs; [by destruct s |].
  destruct s as [|c s]; [done |]. destruct Hs as [Hc Hs].
  split; [done | by apply IH].
Qed.

Lemma bytes_all_slice (s : string) (i j : nat) :
  bytes_all P s -> bytes_all P (slice s i j).
Proof. intros Hs. by apply bytes_all_slice_to, bytes_all_slice_from. Qed.

Lemma caps_all_empty : caps_all P (∅ : Regexp.caps).
Proof. intros n v Hn. by rewrite lookup_empty in Hn. Qed.

Lemma caps_all_insert (c : Regexp.caps) (n : nat) (v : string) :
  caps_all P c -> bytes_all P v -> caps_all P (<[n := v]> c).
Proof.
  intros Hc Hv k u Hk. destruct (decide (n = k)) as [->|Hne].
  - rewrite lookup_insert_eq in Hk. by injection Hk as <-.
  - rewrite lookup_insert_ne in Hk by done. by apply (Hc k).
Qed.

Lemma star_run_ok step (fuel : nat) : step_ok P step -> step_ok P (Regexp.star_run step fuel).
Proof.
  intros Hstep. induction fuel as [|fuel IH]; intros s c m Hs Hc Hm.
  - apply list_elem_of_singleton in Hm as ->. by split.
  - cbn [Regexp.star_run] in Hm. apply elem_of_app in Hm as [Hm|Hm].
    + apply list_elem_of_bind in Hm as [m1 [Hm Hm1]].
      destruct (Hstep s c m1 Hs Hc Hm1) as [Hc1 Hs1].
      destruct (len m1.2 <? len s)%nat; [| by apply not_elem_of_nil in Hm].
      by apply (IH m1.2 m1.1).
    + apply list_elem_of_singleton in Hm as ->. by split.
Qed.

Lemma run_ok (r : Regexp.re) : step_ok P (Regexp.run r).
Proof.
  induction r as [|a|p|r1 IH1 r2 IH2|r1 IH1|r1 IH1|n r1 IH1];
    intros s c m Hs Hc Hm; cbn [Regexp.run] in Hm.
  - apply list_elem_of_singleton in Hm as ->. by split.
  - destruct s as [|b s]; [by apply not_elem_of_nil in Hm |].
    destruct (Ascii.eqb a b); [| by apply not_elem_of_nil in Hm].
    apply list_elem_of_singleton in Hm as ->. split; [done | by destruct Hs].
  - destruct s as [|b s]; [by apply not_elem_of_nil in Hm |].
    destruct (p b); [| by apply not_elem_of_nil in Hm].
    apply list_elem_of_singleton in Hm as ->. split; [done | by destruct Hs].
  - apply list_elem_of_bind in Hm as [m1 [Hm Hm1]].
    destruct (IH1 s c m1 Hs Hc Hm1) as [Hc1 Hs1].
    by apply (IH2 m1.2 m1.1).
  - by apply (star_run_ok (Regexp.run r1) (S (len s)) IH1 s c).
  - apply list_elem_of_bind in Hm as [m1 [Hm Hm1]].
    destruct (IH1 s c m1 Hs Hc Hm1) as [Hc1 Hs1].
    by apply (star_run_ok (Regexp.run r1) (S (len m1.2)) IH1 m1.2 m1.1).
  - apply list_elem_of_fmap in Hm as [m1 [-> Hm1]].
    destruct (IH1 s c m1 Hs Hc Hm1) as [Hc1 Hs1].
    split; [| done]. cbn [fst].
    apply caps_all_insert; [done | by apply bytes_all_slice_to].
Qed.

Lemma find_from_ok (r : Regexp.re) (s : string) (pos m0 : nat)
  (c : Regexp.caps) (rest : string) :
  bytes_all P s -> Regexp.find_from r s pos = Some (m0, c, rest) -> caps_all P c.
Proof.
  revert pos. induction s as [|b s IH]; intros pos Hs Hf; cbn [Regexp.find_from] in Hf.
  - destruct (Regexp.run r "" ∅) as [|m ms] eqn:Hr; [done |].
    injection Hf as _ <- _.
    apply (run_ok r "" ∅ m Hs caps_all_empty). rewrite Hr. apply list_elem_of_here.
  - destruct (Regexp.run r (String b s) ∅) as [|m ms] eqn:Hr.
    + apply (IH (S pos)); [by destruct Hs | done].
    + injection Hf as _ <- _.
      apply (run_ok r (String b s) ∅ m Hs caps_all_empty).
      rewrite Hr. apply list_elem_of_here.
Qed.

Lemma exec_ok (r : Regexp.re) (s : string) (pos m0 m1 : nat) (c : Regexp.caps) :
  bytes_all P s -> Regexp.exec r s pos = Some (m0, m1, c) -> caps_all P c.
Proof.
  intros Hs He. unfold Regexp.exec in He.
  destruct (Regexp.find_from r (slice_from s pos) pos) as [[[k c'] rest]|] eqn:Hf;
    [| done].
  injection He as _ _ <-.
  apply (find_from_ok r (slice_from s pos) pos k c' rest); [| done].
  by apply bytes_all_slice_from.
Qed.

Lemma submatch_ok (r : Regexp.re) (s : string) (m0 m1 : nat) (c : Regexp.caps) :
  bytes_all P s -> caps_all P c ->
  Forall (bytes_all P) (Regexp.submatch r s m0 m1 c).
Proof.
  intros Hs Hc. unfold Regexp.submatch. apply Forall_cons. split.
  - by apply bytes_all_slice.
  - apply Forall_fmap, Forall_forall. intros n _. cbn.
    destruct (c !! n) as [v|] eqn:Hn; [by apply (Hc n) | done].
Qed.

Lemma FindStringSubmatch_ok (r : Regexp.re) (s : string) :
  bytes_all P s -> Forall (bytes_all P) (Regexp.FindStringSubmatch r s).
Proof.
  intros Hs. unfold Regexp.FindStringSubmatch.
  destruct (Regexp.exec r s 0) as [[[m0 m1] c]|] eqn:He; [| done].
  apply submatch_ok; [done | by apply (exec_ok r s 0 m0 m1)].
Qed.

Lemma allMatches_ok (fuel : nat) (r : Regexp.re) (s : string) (pos : nat)
  (prev : option nat) :
  bytes_all P s ->
  Forall (Forall (bytes_all P)) (Regexp.allMatches fuel r s pos prev).
Proof.
  intros Hs. revert pos prev.
  induction fuel as [|fuel IH]; intros pos prev; cbn [Regexp.allMatches]; [done |].
  destruct (pos <=? len s)%nat; [| done].
  destruct (Regexp.exec r s pos) as [[[m0 m1] c]|] eqn:He; [| done].
  destruct (negb _); [| by apply IH].
  apply Forall_cons. split; [| by apply IH].
  apply submatch_ok; [done | by apply (exec_ok r s pos m0 m1)].
Qed.

Lemma lookup_default_ok (l : list string) (i : nat) :
  Forall (bytes_all P) l -> bytes_all P (default "" (l !! i)).
Proof.
  intros Hl. destruct (l !! i) as [v|] eqn:Hi; [| done].
  by apply (Forall_lookup_1 _ l i v).
Qed.

End BytesFacts.

Lemma lower_byte_not_upper (c : ascii) : is_upper (lower_byte c) = false.
Proof. destruct c as [[] [] [] [] [] [] [] []]; reflexivity. Qed.

Lemma ToLower_lowercase (s : string) : lowercase (ToLower s).
Proof.
  induction s as [|c s IH]; [done |].
  split; [apply lower_byte_not_upper | exact IH].
Qed.

Lemma lowercase_ToLower (s : string) : lowercase s -> ToLower s = s.
Proof.
  induction s as [|c s IH]; [done |]. intros [Hc Hs].
  unfold ToLower in *. cbn [map_bytes]. rewrite (IH Hs).
  unfold lower_byte. by rewrite Hc.
Qed.

Lemma foldl_values_ok (P : ascii -> Prop) (valueMatches : list (list string))
  (values : list string) :
  Forall (Forall (bytes_all P)) valueMatches ->
  Forall (bytes_all P) values ->
  Forall (bytes_all P)
    (foldl (fun values m =>
              if (2 <=? length m)%nat
              then values ++ [default "" (m !! 1%nat)] else values)
           values valueMatches).
Proof.
  revert values. induction valueMatches as [|m ms IH]; intros values Hms Hv;
    [done |].
  apply Forall_cons in Hms as [Hm Hms]. cbn [foldl]. apply IH; [done |].
  destruct (2 <=? length m)%nat; [| done].
  apply Forall_app. split; [done |].
  apply Forall_cons. split; [by apply lookup_default_ok | done].
Qed.

(** Every value [ParseEnumValues] returns is made of bytes of the
    lower-cased column type. *)
Lemma ParseEnumValues_ok (P : ascii -> Prop) (columnType : string) :
  bytes_all P (ToLower columnType) ->
  Forall (bytes_all P) (ParseEnumValues columnType).
Proof.
  intros Hs. unfold ParseEnumValues.
  destruct (length _ <? 2)%nat; [done |].
  apply foldl_values_ok; [| done].
  apply allMatches_ok, lookup_default_ok. by apply FindStringSubmatch_ok.
Qed.

(** Without the word enum in the input the pattern has no match. *)
Lemma run_lit_no_prefix (p s : string) (c : Regexp.caps) :
  String.prefix p s = false -> Regexp.run (Regexp.lit p) s c = [].
Proof.
  revert s. induction p as [|a p IH]; intros s Hp.
  - by rewrite prefix_empty in Hp.
  - cbn [Regexp.lit Regexp.run]. destruct s as [|b s]; [done |].
    cbn [String.prefix] in Hp.
    destruct (Ascii.eqb_spec a b) as [->|Hne].
    + destruct (ascii_dec b b); [| done].
      cbn. rewrite (IH s Hp). done.
    + done.
Qed.

Lemma Index_None (s sub : string) :
  Index s sub = None ->
  String.prefix sub s = false /\
  match s with String _ s' => Index s' sub = None | EmptyString => True end.
Proof.
  destruct s as [|c s]; cbn [Index];
    destruct (String.prefix sub _); try done.
  destruct (Index s sub); done.
Qed.

Lemma find_from_enum_none (s : string) (pos : nat) :
  Index s "enum" = None -> Regexp.find_from enumRe s pos = None.
Proof.
  revert pos. induction s as [|b s IH]; intros pos Hi;
    apply Index_None in Hi as [Hp Hi]; cbn [Regexp.find_from];
    unfold enumRe; cbn [Regexp.run]; rewrite (run_lit_no_prefix "enum" _ ∅ Hp).
  - done.
  - cbn [mbind list_bind]. by apply IH.
Qed.

Lemma ParseEnumValues_no_enum (columnType : string) :
  Contains (ToLower columnType) "enum" = false ->
  ParseEnumValues columnType = [].
Proof.
  intros Hc. unfold Contains in Hc.
  destruct (Index (ToLower columnType) "enum") eqn:Hi; [done |].
  unfold ParseEnumValues, Regexp.FindStringSubmatch, Regexp.exec.
  replace (slice_from (ToLower columnType) 0) with (ToLower columnType)
    by (by destruct (ToLower columnType)).
  by rewrite (find_from_enum_none _ 0 Hi).
Qed.

(** C10: every value that [ParseEnumValues] returns is lower-case,
    whatever the input, because the values are cut from the lower-cased
    column type: the declaration enum('Active','INACTIVE') gives active
    and inactive; an input without an enum declaration gives the empty
    result; and the MySQL introspector, whose [parseEnumValues] is the
    same function, stores such values in [EnumValues]. *)
Theorem ParseEnumValues_lowercase :
  (forall (columnType v : string),
      v ∈ ParseEnumValues columnType -> lowercase v /\ ToLower v = v) /\
  ParseEnumValues "enum('Active','INACTIVE')" = ["active"; "inactive"] /\
  (forall columnType : string,
      Contains (ToLower columnType) "enum" = false ->
      ParseEnumValues columnType = []) /\
  ParseEnumValues "varchar(255)" = [] /\
  (forall columnType : string,
      MySQL.parseEnumValues columnType = ParseEnumValues columnType) /\
  (forall (q : MySQL.QueryOutcome) (columns : list ColumnMetadata)
          (col : ColumnMetadata) (v : string),
      MySQL.GetColumns q = Ok columns -> col ∈ columns ->
      v ∈ EnumValues col -> lowercase v /\ ToLower v = v) /\
  EnumValues (MySQL.columnOfRow statusRow) = ["active"; "inactive"].
Proof.
  assert (Hlow : forall columnType v : string,
             v ∈ ParseEnumValues columnType -> lowercase v /\ ToLower v = v).
  { intros columnType v Hv.
    pose proof (ParseEnumValues_ok _ columnType (ToLower_lowercase columnType))
      as Hall.
    rewrite Forall_forall in Hall. specialize (Hall v Hv).
    split; [exact Hall | by apply lowercase_ToLower]. }
  split; [exact Hlow |]. split; [by vm_compute |].
  split; [exact ParseEnumValues_no_enum |]. split; [by vm_compute |].
  split; [reflexivity |]. split; [| by vm_compute].
  intros q columns col v Hq Hcol Hv.
  destruct q as [err | rows [err|]]; cbn [MySQL.GetColumns] in Hq; try done.
  injection Hq as <-.
  apply list_elem_of_fmap in Hcol as [row [-> _]].
  cbn [MySQL.columnOfRow EnumValues] in Hv.
  destruct (String.eqb _ "enum"); [| by apply not_elem_of_nil in Hv].
  by apply (Hlow (MySQL.columnType row)).
Qed.

Lemma ParseEnumValues_lowercase_witness :
  "inactive" ∈ ParseEnumValues "ENUM('Active', 'INACTIVE')" /\
  ToLower "inactive" = "inactive".
Proof.
  assert (H : "inactive" ∈ ParseEnumValues "ENUM('Active', 'INACTIVE')").
  { vm_compute. apply list_elem_of_further, list_elem_of_here. }
  split; [exact H |].
  exact (proj2 (proj1 ParseEnumValues_lowercase
                  "ENUM('Active', 'INACTIVE')" "inactive" H)).
Defined.

(** ** Naming: acronyms *)

Section StringFacts.

Lemma append_assoc (a b c : string) : (a +:+ b) +:+ c = a +:+ (b +:+ c).
Proof. induction a as [|x a IH]; [done |]. cbn. by rewrite IH. Qed.

Lemma len_append (a b : string) : len (a +:+ b) = (len a + len b)%nat.
Proof. unfold len. induction a as [|x a IH]; [done |]. cbn. by rewrite IH. Qed.

Lemma slice_from_0 (s : string) : slice_from s 0 = s.
Proof. by destruct s. Qed.

Lemma slice_from_append (done rem : string) (n : nat) :
  slice_from (done +:+ rem) (len done + n) = slice_from rem n.
Proof. unfold len. induction done as [|x done IH]; [done |]. exact IH. Qed.

Lemma slice_to_append (done rem : string) :
  slice_to (done +:+ rem) (len done) = done.
Proof.
  unfold len. induction done as [|x done IH]; [by destruct rem |].
  cbn. by rewrite IH.
Qed.

Lemma slice_append (done rem : string) (n : nat) :
  slice (done +:+ rem) (len done) (len done + n) = slice_to rem n.
Proof.
  unfold slice. pose proof (slice_from_append done rem 0) as H.
  rewrite Nat.add_0_r in H. rewrite H, slice_from_0. f_equal. lia.
Qed.

Lemma byte_at_append (done rem : string) (n : nat) :
  byte_at (done +:+ rem) (len done + n) = byte_at rem n.
Proof. unfold len. induction done as [|x done IH]; [done |]. exact IH. Qed.

(** Comparing the first bytes of [rem] with [p] is the prefix test. *)
Lemma slice_to_eqb_prefix (p rem : string) :
  String.eqb (slice_to rem (len p)) p = String.prefix p rem.
Proof.
  unfold len. revert rem. induction p as [|a p IH]; intros rem.
  - rewrite prefix_empty. by destruct rem.
  - destruct rem as [|b rem]; [done |]. cbn [String.length slice_to].
    cbn [String.eqb String.prefix]. rewrite IH.
    destruct (Ascii.eqb_spec b a) as [->|Hne].
    + by destruct (ascii_dec a a).
    + destruct (ascii_dec a b) as [->|]; done.
Qed.

Lemma prefix_split (p rem : string) :
  String.prefix p rem = true -> rem = p +:+ slice_from rem (len p).
Proof.
  unfold len. revert rem. induction p as [|a p IH]; intros rem Hp.
  - by rewrite slice_from_0.
  - destruct rem as [|b rem]; [done |]. cbn [String.prefix] in Hp.
    destruct (ascii_dec a b) as [->|]; [| done].
    cbn. f_equal. by apply IH.
Qed.

Lemma prefix_append (p rest : string) : String.prefix p (p +:+ rest) = true.
Proof.
  induction p as [|a p IH]; [apply prefix_empty |].
  cbn. by destruct (ascii_dec a a).
Qed.

Lemma byte_at_boundary (rem : string) (n : nat) :
  (n <= len rem)%nat ->
  ((len rem <=? n)%nat
   || match byte_at rem n with Some c => is_upper c | None => false end)
  = at_boundary (slice_from rem n).
Proof.
  unfold len. revert rem. induction n as [|n IH]; intros rem Hn.
  - rewrite slice_from_0. by destruct rem.
  - destruct rem as [|b rem]; [cbn in Hn; lia |].
    cbn in Hn. apply (IH rem). lia.
Qed.

End StringFacts.

(** One iteration of the loop of [replaceAcronym], on the part [done]
    already passed and the part [rem] still to scan. *)
Lemma replaceLoop_step (fuel : nat) (p rep done rem : string) :
  replaceLoop (S fuel) p rep (done +:+ rem) (len done)
  = if (len p <=? len rem)%nat then
      if String.prefix p rem && at_boundary (slice_from rem (len p)) then
        replaceLoop fuel p rep
          ((done +:+ rep) +:+ slice_from rem (len p)) (len (done +:+ rep))
      else replaceLoop fuel p rep (done +:+ rem) (S (len done))
    else Some (done +:+ rem).
Proof.
  cbn [replaceLoop]. rewrite len_append.
  replace (len done + len p <=? len done + len rem)%nat
    with (len p <=? len rem)%nat
    by (destruct (Nat.leb_spec (len p) (len rem));
        destruct (Nat.leb_spec (len done + len p) (len done + len rem)); lia).
  destruct (Nat.leb_spec (len p) (len rem)) as [Hle|]; [| done].
  rewrite slice_append, slice_to_eqb_prefix.
  destruct (String.prefix p rem) eqn:Hp; [| done]. cbn [andb].
  rewrite byte_at_append.
  replace (len done + len rem <=? len done + len p)%nat
    with (len rem <=? len p)%nat
    by (destruct (Nat.leb_spec (len rem) (len p));
        destruct (Nat.leb_spec (len done + len rem) (len done + len p)); lia).
  rewrite (byte_at_boundary rem (len p) Hle).
  destruct (at_boundary _); [| done].
  rewrite slice_to_append, slice_from_append, len_append.
  by rewrite append_assoc.
Qed.

Section WordFacts.

Lemma append_cons_assoc (done : string) (c : ascii) (rest : string) :
  done +:+ String c rest = (done +:+ String c "") +:+ rest.
Proof. by rewrite append_assoc. Qed.

Lemma len_snoc (done : string) (c : ascii) :
  len (done +:+ String c "") = S (len done).
Proof. rewrite len_append. cbn. lia. Qed.

Lemma flatten_boundary (ws : list string) :
  Forall is_word ws -> at_boundary (flatten ws) = true.
Proof.
  intros Hws. destruct Hws as [|w ws Hw _]; [done |].
  destruct w as [|c w]; [done |]. by destruct Hw.
Qed.

(** Inside a word only the word itself can match as a whole word. *)
Lemma lower_match (plow lows rest : string) :
  lowercase plow -> lowercase lows -> at_boundary rest = true ->
  String.prefix plow (lows +:+ rest) = true ->
  at_boundary (slice_from (lows +:+ rest) (len plow)) = true ->
  plow = lows.
Proof.
  unfold len. revert lows. induction plow as [|a plow IH];
    intros lows Hp Hl Hr Hpre Hb.
  - rewrite slice_from_0 in Hb. destruct lows as [|b lows]; [done |].
    destruct Hl as [Hl _]. cbn in Hb. congruence.
  - destruct Hp as [Ha Hp]. destruct lows as [|b lows].
    + destruct rest as [|b rest]; [done |].
      cbn in Hpre, Hr. destruct (ascii_dec a b) as [->|]; [| done]. congruence.
    + destruct Hl as [_ Hl]. cbn in Hpre.
      destruct (ascii_dec a b) as [->|]; [| done].
      f_equal. by apply IH.
Qed.

Lemma word_match (p w rest : string) :
  is_word p -> is_word w -> at_boundary rest = true ->
  String.prefix p (w +:+ rest) && at_boundary (slice_from (w +:+ rest) (len p))
  = String.eqb w p.
Proof.
  intros Hp Hw Hr. destruct (String.eqb_spec w p) as [->|Hne].
  - rewrite prefix_append.
    pose proof (slice_from_append p rest 0) as H. rewrite Nat.add_0_r in H.
    by rewrite H, slice_from_0.
  - destruct (String.prefix p (w +:+ rest)) eqn:Hpre; [| done].
    destruct (at_boundary (slice_from (w +:+ rest) (len p))) eqn:Hb; [| done].
    exfalso. apply Hne.
    destruct p as [|a plow]; [done |]. destruct w as [|b lows]; [done |].
    destruct Hp as [_ Hp]. destruct Hw as [_ Hw].
    cbn in Hpre. destruct (ascii_dec a b) as [->|]; [| done].
    f_equal. symmetry.
    apply (lower_match plow lows rest Hp Hw Hr Hpre). exact Hb.
Qed.

Lemma lower_no_match (p : string) (c : ascii) (rest : string) :
  is_word p -> is_upper c = false -> String.prefix p (String c rest) = false.
Proof.
  intros Hp Hc. destruct p as [|a p]; [done |]. destruct Hp as [Ha _].
  cbn. destruct (ascii_dec a c) as [->|]; [congruence | done].
Qed.

Lemma len_flatten_cons (w : string) (ws : list string) :
  len (flatten (w :: ws)) = (len w + len (flatten ws))%nat.
Proof. cbn [flatten foldr]. apply len_append. Qed.

(** Words shorter than the pattern are not the pattern. *)
Lemma short_words (p rep : string) (ws : list string) :
  (len (flatten ws) < len p)%nat ->
  (fun w => if String.eqb w p then rep else w) <$> ws = ws.
Proof.
  induction ws as [|w ws IH]; intros Hlen; [done |].
  rewrite len_flatten_cons in Hlen. cbn [fmap list_fmap].
  rewrite IH by lia. destruct (String.eqb_spec w p) as [->|]; [lia | done].
Qed.

End WordFacts.

Local Ltac len_lia :=
  rewrite ?len_flatten_cons, ?len_append in *;
  unfold len in *; cbn [String.length] in *; lia.

(** [replaceAcronym] on a string given as its words: each word that is
    the pattern is replaced, the others are kept; [fuel] above the
    length left to scan is enough. *)
Lemma replaceLoop_words (p rep : string) (ws : list string) :
  is_word p -> Forall is_word ws ->
  forall (pre done : string) (fuel : nat),
    lowercase pre ->
    (len pre + len (flatten ws) < fuel)%nat ->
    replaceLoop fuel p rep (done +:+ (pre +:+ flatten ws)) (len done)
    = Some (done +:+ (pre +:+
              flatten ((fun w => if String.eqb w p then rep else w) <$> ws))).
Proof.
  intros Hp Hws.
  assert (Hlp : (1 <= len p)%nat) by (destruct p; [done | cbn; lia]).
  induction Hws as [|w ws Hw Hws IHws].
  - (* no word left *)
    intros pre. induction pre as [|c pre IHpre]; intros done fuel Hpre Hfuel;
      (destruct fuel as [|fuel]; [lia |]); rewrite replaceLoop_step.
    + destruct p as [|a p]; [done |]. done.
    + destruct (len p <=? _)%nat; [| done].
      change (String c pre +:+ flatten []) with (String c (pre +:+ flatten [])).
      destruct Hpre as [Hc Hpre].
      rewrite (lower_no_match p c _ Hp Hc). cbn [andb].
      rewrite (append_cons_assoc done c), <- (len_snoc done c).
      rewrite (IHpre (done +:+ String c "") fuel Hpre) by len_lia.
      by rewrite <- append_cons_assoc.
  - intros pre. induction pre as [|c pre IHpre]; intros done fuel Hpre Hfuel;
      (destruct fuel as [|fuel]; [lia |]); rewrite replaceLoop_step.
    + (* at the start of the word [w] *)
      change ("" +:+ flatten (w :: ws)) with (w +:+ flatten ws).
      destruct (Nat.leb_spec (len p) (len (w +:+ flatten ws))) as [Hle|Hgt].
      * rewrite (word_match p w (flatten ws) Hp Hw (flatten_boundary ws Hws)).
        cbn [fmap list_fmap flatten foldr].
        destruct (String.eqb_spec w p) as [->|Hne].
        -- pose proof (slice_from_append p (flatten ws) 0) as H.
           rewrite Nat.add_0_r in H. rewrite H, slice_from_0.
           pose proof (IHws "" (done +:+ rep) fuel I) as IH.
           change ("" +:+ flatten ws) with (flatten ws) in IH.
           rewrite IH by len_lia.
           change ("" +:+ ?x) with x. by rewrite append_assoc.
        -- destruct w as [|b lows]; [done |]. destruct Hw as [Hb Hlows].
           change (String b lows +:+ flatten ws)
             with (String b (lows +:+ flatten ws)).
           rewrite (append_cons_assoc done b), <- (len_snoc done b).
           rewrite (IHws lows (done +:+ String b "") fuel Hlows).
           ++ rewrite <- append_cons_assoc. f_equal.
           ++ len_lia.
      * change (flatten (w :: ws)) with (w +:+ flatten ws) in *.
        rewrite (short_words p rep (w :: ws)); [done |].
        change (flatten (w :: ws)) with (w +:+ flatten ws). len_lia.
    + destruct Hpre as [Hc Hpre].
      change (String c pre +:+ flatten (w :: ws))
        with (String c (pre +:+ flatten (w :: ws))).
      destruct (Nat.leb_spec (len p) (len (String c (pre +:+ flatten (w :: ws)))))
        as [Hle|Hgt].
      * rewrite (lower_no_match p c _ Hp Hc). cbn [andb].
        rewrite (append_cons_assoc done c), <- (len_snoc done c).
        rewrite (IHpre (done +:+ String c "") fuel Hpre)
          by len_lia.
        by rewrite <- append_cons_assoc.
      * rewrite (short_words p rep (w :: ws)); [done |].
        change (String c (pre +:+ flatten (w :: ws)))
          with (String c "" +:+ (pre +:+ flatten (w :: ws))) in Hgt.
        rewrite !len_append in Hgt. clear -Hgt. unfold len in *. lia.
Qed.

Lemma replaceAcronym_words (p rep pre : string) (ws : list string) :
  is_word p -> lowercase pre -> Forall is_word ws ->
  replaceAcronym (pre +:+ flatten ws) p rep
  = Some (pre +:+ flatten ((fun w => if String.eqb w p then rep else w) <$> ws)).
Proof.
  intros Hp Hpre Hws. unfold replaceAcronym.
  apply (replaceLoop_words p rep ws Hp Hws pre "" _ Hpre).
  rewrite len_append. lia.
Qed.

Section WordSteps.

Lemma flatten_app (a b : list string) :
  flatten (a ++ b) = flatten a +:+ flatten b.
Proof.
  unfold flatten. induction a as [|w a IH]; [done |].
  cbn [app foldr]. by rewrite IH, append_assoc.
Qed.

Lemma flatten_letters (s : string) : flatten (letters s) = s.
Proof.
  induction s as [|c s IH]; [done |].
  change (flatten (letters (String c s))) with (String c (flatten (letters s))).
  by rewrite IH.
Qed.

Lemma letters_words (s : string) : all_upper s -> Forall is_word (letters s).
Proof.
  induction s as [|c s IH]; intros Hs; [done |]. destruct Hs as [Hc Hs].
  apply Forall_cons. split; [by split | by apply IH].
Qed.

Lemma letters_short (s : string) : Forall (fun w => len w = 1%nat) (letters s).
Proof. induction s as [|c s IH]; [done |]. by apply Forall_cons. Qed.

Lemma flatten_wordStep (ws : list string) (p rep : string) :
  flatten (wordStep ws (p, rep))
  = flatten ((fun w => if String.eqb w p then rep else w) <$> ws).
Proof.
  unfold wordStep. induction ws as [|w ws IH]; [done |].
  rewrite bind_cons, flatten_app, IH. cbn [fmap list_fmap flatten foldr fst snd].
  f_equal. unfold wordSubst. destruct (String.eqb w p).
  - apply flatten_letters.
  - cbn. apply append_empty_r.
Qed.

Lemma wordStep_words (ws : list string) (pr : string * string) :
  all_upper pr.2 -> Forall is_word ws -> Forall is_word (wordStep ws pr).
Proof.
  intros Hrep Hws. unfold wordStep. apply Forall_bind.
  eapply Forall_impl; [exact Hws |]. intros w Hw.
  change (Forall is_word (if String.eqb w pr.1 then letters pr.2 else [w])).
  destruct (String.eqb w pr.1).
  - by apply letters_words.
  - by apply Forall_cons.
Qed.

(** One-letter words are no keys of a table of longer keys. *)
Lemma wordStep_short (ws : list string) (order : list (string * string)) :
  Forall (fun w => len w = 1%nat) ws -> Forall goodEntry order ->
  foldl wordStep ws order = ws.
Proof.
  intros Hws Hord. induction Hord as [|[p rep] order [_ [Hp _]] _ IH];
    [done |].
  cbn [foldl]. replace (wordStep ws (p, rep)) with ws; [exact IH |].
  clear IH. unfold wordStep. induction Hws as [|w ws Hw _ IHws]; [done |].
  rewrite bind_cons, <- IHws. unfold wordSubst. cbn [fst snd] in *.
  destruct (String.eqb_spec w p) as [->|]; [lia | done].
Qed.

Lemma wordStep_app (a b : list string) (order : list (string * string)) :
  foldl wordStep (a ++ b) order = foldl wordStep a order ++ foldl wordStep b order.
Proof.
  revert a b. induction order as [|pr order IH]; intros a b; [done |].
  cbn [foldl]. unfold wordStep at 2. rewrite bind_app. apply IH.
Qed.

Lemma wordStep_bind (ws : list string) (order : list (string * string)) :
  foldl wordStep ws order = ws ≫= fun w => foldl wordStep [w] order.
Proof.
  induction ws as [|w ws IH].
  - induction order as [|pr order IHo]; done.
  - change (w :: ws) with ([w] ++ ws).
    rewrite wordStep_app, IH. by rewrite bind_app, bind_cons, app_nil_r.
Qed.

Lemma wordStep_lookup (w : string) (order : list (string * string)) :
  Forall goodEntry order ->
  foldl wordStep [w] order = acronymWord (list_to_map order) w.
Proof.
  intros Hord. induction Hord as [|[p rep] order Hg Hord IH].
  - unfold acronymWord. cbn. by rewrite lookup_empty.
  - cbn [foldl]. unfold wordStep at 2. rewrite bind_cons. cbn [mbind list_bind].
    rewrite app_nil_r. unfold wordSubst. cbn [fst snd].
    rewrite list_to_map_cons. unfold acronymWord at 1.
    destruct (String.eqb_spec w p) as [->|Hne].
    + rewrite lookup_insert_eq.
      apply wordStep_short; [apply letters_short | done].
    + by rewrite lookup_insert_ne.
Qed.

End WordSteps.

Lemma handleAcronymsIn_words (order : list (string * string)) :
  Forall goodEntry order ->
  forall (pre : string) (ws : list string),
    lowercase pre -> Forall is_word ws ->
    handleAcronymsIn order (pre +:+ flatten ws)
    = Some (pre +:+ flatten (foldl wordStep ws order)).
Proof.
  intros Hord. induction Hord as [|[p rep] order [Hp [_ Hrep]] Hord IH];
    intros pre ws Hpre Hws; [done |].
  unfold handleAcronymsIn. cbn [foldl mbind option_bind fst snd].
  rewrite (replaceAcronym_words p rep pre ws Hp Hpre Hws).
  rewrite <- flatten_wordStep.
  apply (IH pre (wordStep ws (p, rep)) Hpre).
  by apply wordStep_words.
Qed.

(** The table of [handleAcronyms]. *)
Lemma acronyms_good : Forall goodEntry (map_to_list acronyms).
Proof.
  apply Forall_forall. intros [p rep] Hin.
  apply elem_of_map_to_list in Hin. unfold acronyms in Hin.
  apply elem_of_list_to_map_2 in Hin.
  repeat (apply elem_of_cons in Hin as [Hin|Hin];
          [injection Hin as -> ->;
           split; [by vm_compute | split; [vm_compute; lia | by vm_compute]] |]).
  by apply not_elem_of_nil in Hin.
Qed.

Lemma acronymOrder_good (order : list (string * string)) :
  acronymOrder order -> Forall goodEntry order.
Proof. intros Ho. unfold acronymOrder in Ho. rewrite Ho. apply acronyms_good. Qed.

Lemma acronymOrder_table (order : list (string * string)) :
  acronymOrder order -> list_to_map order = acronyms.
Proof.
  intros Ho. unfold acronymOrder in Ho.
  transitivity (list_to_map (map_to_list acronyms) : gmap string string);
    [| apply list_to_map_to_list].
  apply list_to_map_proper; [| done].
  rewrite Ho. apply NoDup_fst_map_to_list.
Qed.

(** In whatever order the table is visited, a word of the table becomes
    its acronym and every other word stays. *)
Lemma handleAcronymsIn_acronymWord (order : list (string * string))
  (pre : string) (ws : list string) :
  acronymOrder order -> lowercase pre -> Forall is_word ws ->
  handleAcronymsIn order (pre +:+ flatten ws)
  = Some (pre +:+ flatten (ws ≫= acronymWord acronyms)).
Proof.
  intros Ho Hpre Hws.
  rewrite (handleAcronymsIn_words order (acronymOrder_good order Ho) pre ws Hpre Hws).
  rewrite wordStep_bind. do 3 f_equal.
  apply Forall_bind_ext, Forall_forall. intros w _.
  rewrite (wordStep_lookup w order (acronymOrder_good order Ho)).
  by rewrite (acronymOrder_table order Ho).
Qed.

Lemma parseWords_spec (s : string) :
  s = (parseWords s).1 +:+ flatten (parseWords s).2 /\
  lowercase (parseWords s).1 /\ Forall is_word (parseWords s).2.
Proof.
  induction s as [|c s [IH1 [IH2 IH3]]]; [done |].
  cbn [parseWords]. destruct (parseWords s) as [pre ws]. cbn [fst snd] in *.
  destruct (is_upper c) eqn:Hc; cbn [fst snd].
  - split; [| split; [done |]].
    + change (String c s = String c (pre +:+ flatten ws)). by f_equal.
    + apply Forall_cons. split; [by split | done].
  - split; [| split; [by split | done]].
    change (String c s = String c (pre +:+ flatten ws)). by f_equal.
Qed.

Lemma handleAcronymsIn_spec (order : list (string * string)) (s : string) :
  acronymOrder order -> handleAcronymsIn order s = Some (acronymWords s).
Proof.
  intros Ho. destruct (parseWords_spec s) as [Hs [Hpre Hws]].
  unfold acronymWords. destruct (parseWords s) as [pre ws]. cbn [fst snd] in *.
  rewrite Hs at 1. by apply handleAcronymsIn_acronymWord.
Qed.

Lemma handleAcronyms_acronymWords (s : string) :
  handleAcronyms s = acronymWords s.
Proof.
  unfold handleAcronyms.
  by rewrite (handleAcronymsIn_spec (map_to_list acronyms) s (reflexivity _)).
Qed.

(** The words [handleAcronyms] produces are left alone by a second run. *)
Lemma acronymWord_words (w : string) :
  is_word w -> Forall is_word (acronymWord acronyms w).
Proof.
  intros Hw. unfold acronymWord. destruct (acronyms !! w) as [rep|] eqn:Hl.
  - apply letters_words.
    pose proof acronyms_good as Hg. rewrite Forall_forall in Hg.
    apply elem_of_map_to_list in Hl. by destruct (Hg _ Hl) as [_ [_ ?]].
  - by apply Forall_cons.
Qed.

Lemma acronymWord_stable (w w' : string) :
  w' ∈ acronymWord acronyms w -> acronymWord acronyms w' = [w'].
Proof.
  unfold acronymWord at 1. intros Hin.
  assert (Hnone : acronyms !! w' = None); [| unfold acronymWord; by rewrite Hnone].
  destruct (acronyms !! w) as [rep|] eqn:Hl.
  - pose proof (letters_short rep) as Hs. rewrite Forall_forall in Hs.
    specialize (Hs w' Hin).
    destruct (acronyms !! w') as [rep'|] eqn:Hl'; [| done].
    pose proof acronyms_good as Hg. rewrite Forall_forall in Hg.
    apply elem_of_map_to_list in Hl'. destruct (Hg _ Hl') as [_ [Hlen _]].
    cbn [fst] in Hlen. lia.
  - by apply list_elem_of_singleton in Hin as ->.
Qed.

Lemma acronymWord_bind_stable (ws : list string) :
  (ws ≫= acronymWord acronyms) ≫= acronymWord acronyms
  = ws ≫= acronymWord acronyms.
Proof.
  induction ws as [|w ws IH]; [done |].
  rewrite bind_cons, bind_app, IH. f_equal.
  assert (H : forall l, (forall w', w' ∈ l -> acronymWord acronyms w' = [w']) ->
                        l ≫= acronymWord acronyms = l).
  { clear. induction l as [|x l IHl]; intros Hl; [done |].
    rewrite bind_cons, (Hl x) by apply list_elem_of_here.
    cbn. f_equal. apply IHl. intros w' Hw'. apply Hl. by apply list_elem_of_further. }
  apply H. intros w'. apply acronymWord_stable.
Qed.

Lemma acronymWords_idempotent (order : list (string * string)) (s : string) :
  acronymOrder order ->
  handleAcronymsIn order (acronymWords s) = Some (acronymWords s).
Proof.
  intros Ho. destruct (parseWords_spec s) as [_ [Hpre Hws]].
  unfold acronymWords. destruct (parseWords s) as [pre ws]. cbn [fst snd] in *.
  rewrite handleAcronymsIn_acronymWord; [| done | done |].
  - by rewrite acronymWord_bind_stable.
  - apply Forall_bind. eapply Forall_impl; [exact Hws |].
    intros w Hw. by apply acronymWord_words.
Qed.

(** C8: [ToGoFieldName] maps user_id to UserID and http_status to
    HTTPStatus (and so does [ToPascalCase]); and acronym correction is
    idempotent: for every string, running [handleAcronyms] on its own
    output returns that output, in whatever orders the runs visit the
    acronym table, and every order gives the same output. *)
Theorem handleAcronyms_idempotent :
  ToGoFieldName "user_id" = "UserID" /\
  ToGoFieldName "http_status" = "HTTPStatus" /\
  ToPascalCase "user_id" = "UserID" /\
  ToPascalCase "http_status" = "HTTPStatus" /\
  (forall s : string, handleAcronyms (handleAcronyms s) = handleAcronyms s) /\
  (forall (s : string) (first second again : list (string * string)),
      acronymOrder first -> acronymOrder second -> acronymOrder again ->
      handleAcronymsIn first s = Some (handleAcronyms s) /\
      handleAcronymsIn second (handleAcronyms s) = Some (handleAcronyms s) /\
      handleAcronymsIn again s = Some (handleAcronyms s)).
Proof.
  do 4 (split; [by vm_compute |]). split.
  - intros s. unfold handleAcronyms at 1.
    rewrite (handleAcronyms_acronymWords s).
    by rewrite (acronymWords_idempotent _ s (reflexivity _)).
  - intros s first second again H1 H2 H3.
    rewrite (handleAcronyms_acronymWords s).
    split; [by apply handleAcronymsIn_spec |].
    split; [by apply acronymWords_idempotent | by apply handleAcronymsIn_spec].
Qed.

Lemma handleAcronyms_idempotent_witness :
  acronymOrder (reverse (map_to_list acronyms)) /\
  handleAcronymsIn (reverse (map_to_list acronyms)) "ApiUrlId" = Some "APIURLID" /\
  handleAcronymsIn (map_to_list acronyms) "APIURLID" = Some "APIURLID".
Proof.
  assert (Hrev : acronymOrder (reverse (map_to_list acronyms))).
  { apply reverse_Permutation. }
  assert (Hid : acronymOrder (map_to_list acronyms)).
  { unfold acronymOrder. reflexivity. }
  split; [exact Hrev |].
  destruct (proj2 (proj2 (proj2 (proj2 (proj2 handleAcronyms_idempotent))))
              "ApiUrlId" _ _ _ Hrev Hid Hid) as [Ha [Hb _]].
  split; [exact Ha | exact Hb].
Defined.

Example coverage_samples :
  Postgres.buildRawType "character varying" "varchar" (Some 255%Z) None None
    = "varchar(255)" /\
  Postgres.buildRawType "numeric" "numeric" None (Some 10%Z) (Some 2%Z)
    = "numeric(10,2)" /\
  Postgres.buildRawType "numeric" "numeric" None (Some 10%Z) (Some 0%Z)
    = "numeric(10)" /\
  Postgres.buildRawType "ARRAY" "_int4" None None None = "[]int4" /\
  Postgres.buildRawType "text" "text" None None None = "text" /\
  splitTables " users, ,posts ,," = ["users"; "posts"] /\
  splitTables "" = [].
Proof. vm_compute. repeat split. Qed.

(** * Further properties of the code *)

(** ** Normalising a raw type *)

Section Normalise.

Lemma lower_byte_idem (c : ascii) : lower_byte (lower_byte c) = lower_byte c.
Proof. destruct c as [[] [] [] [] [] [] [] []]; reflexivity. Qed.

Lemma lower_byte_space (c : ascii) : is_space (lower_byte c) = is_space c.
Proof. destruct c as [[] [] [] [] [] [] [] []]; reflexivity. Qed.

Lemma ToLower_idem (s : string) : ToLower (ToLower s) = ToLower s.
Proof.
  unfold ToLower. induction s as [|c s IH]; [done |].
  cbn [map_bytes]. by rewrite lower_byte_idem, IH.
Qed.

Lemma TrimLeft_idem (s : string) : TrimLeft (TrimLeft s) = TrimLeft s.
Proof.
  induction s as [|c s IH]; [done |]. cbn [TrimLeft].
  destruct (is_space c) eqn:Hc; [done |]. cbn [TrimLeft]. by rewrite Hc.
Qed.

Lemma TrimRight_cons (c : ascii) (s : string) :
  TrimRight (String c s)
  = match TrimRight s with
    | EmptyString => if is_space c then EmptyString else String c EmptyString
    | t => String c t
    end.
Proof. reflexivity. Qed.

Lemma TrimRight_idem (s : string) : TrimRight (TrimRight s) = TrimRight s.
Proof.
  induction s as [|c s IH]; [done |]. rewrite TrimRight_cons.
  destruct (TrimRight s) as [|b t] eqn:Ht.
  - destruct (is_space c) eqn:Hc; [done |].
    rewrite TrimRight_cons. cbn [TrimRight]. by rewrite Hc.
  - rewrite TrimRight_cons. by rewrite IH.
Qed.

(** Cutting the front of a string that has no space at its end leaves
    no space at the end. *)
Lemma TrimRight_tail (c : ascii) (s : string) :
  TrimRight (String c s) = String c s -> TrimRight s = s.
Proof.
  rewrite TrimRight_cons. destruct (TrimRight s) as [|b t] eqn:Ht.
  - destruct (is_space c); [done |]. by intros [= <-].
  - by intros [= <-].
Qed.

Lemma TrimRight_TrimLeft (s : string) :
  TrimRight s = s -> TrimRight (TrimLeft s) = TrimLeft s.
Proof.
  induction s as [|c s IH]; [done |]. intros Hs. cbn [TrimLeft].
  destruct (is_space c); [| done]. apply IH. by apply (TrimRight_tail c).
Qed.

Lemma TrimSpace_idem (s : string) : TrimSpace (TrimSpace s) = TrimSpace s.
Proof.
  unfold TrimSpace.
  rewrite (TrimRight_TrimLeft (TrimRight s) (TrimRight_idem s)).
  apply TrimLeft_idem.
Qed.

Lemma TrimLeft_ToLower (s : string) : TrimLeft (ToLower s) = ToLower (TrimLeft s).
Proof.
  unfold ToLower. induction s as [|c s IH]; [done |].
  cbn [map_bytes TrimLeft]. rewrite lower_byte_space.
  by destruct (is_space c).
Qed.

Lemma TrimRight_ToLower (s : string) :
  TrimRight (ToLower s) = ToLower (TrimRight s).
Proof.
  unfold ToLower. induction s as [|c s IH]; [done |].
  cbn [map_bytes]. rewrite !TrimRight_cons, IH, lower_byte_space.
  destruct (TrimRight s) as [|b t]; cbn [map_bytes]; [| done].
  by destruct (is_space c).
Qed.

Lemma TrimSpace_ToLower (s : string) :
  TrimSpace (ToLower s) = ToLower (TrimSpace s).
Proof. unfold TrimSpace. by rewrite TrimRight_ToLower, TrimLeft_ToLower. Qed.

(** Normalising twice is normalising once. *)
Lemma normalise_idem (s : string) :
  ToLower (TrimSpace (ToLower (TrimSpace s))) = ToLower (TrimSpace s).
Proof. by rewrite TrimSpace_ToLower, TrimSpace_idem, ToLower_idem. Qed.

End Normalise.

(** X1: the Go type and the import path that [GetGoType] returns depend
    only on the trimmed, lower-cased raw type: the raw type and its
    normal form get the same pair, for every lookup table; and when the
    note is empty for one it is empty for the other. *)
Theorem GetGoType_normalised (tm : TypeMapper) (dbType : string)
  (isNullable : bool) :
  (GetGoType tm dbType isNullable).1
  = (GetGoType tm (ToLower (TrimSpace dbType)) isNullable).1 /\
  ((GetGoType tm dbType isNullable).2 = ""
   <-> (GetGoType tm (ToLower (TrimSpace dbType)) isNullable).2 = "").
Proof.
  unfold GetGoType. rewrite normalise_idem.
  set (n := ToLower (TrimSpace dbType)).
  destruct (if Contains n "unsigned" then _ else None) as [m|]; [done |].
  destruct (HasPrefix n "tinyint(1)" && negb (Contains n "unsigned")); [done |].
  destruct (typeMap tm !! n) as [m|]; [done |].
  destruct (typeMap tm !! extractBaseType n) as [m|]; [done |].
  split; [done |]. cbn [snd]. split; intros H.
  - by destruct dbType.
  - by destruct n.
Qed.

(** ** The type table *)

Lemma foldl_insert_lookup (l : list (string * TypeMapping))
  (m0 : gmap string TypeMapping) (k : string) (v : TypeMapping) :
  foldl (fun m kv => <[kv.1 := kv.2]> m) m0 l !! k = Some v ->
  (k, v) ∈ l \/ m0 !! k = Some v.
Proof.
  revert m0. induction l as [|[k' v'] l IH]; intros m0 H; [by right |].
  cbn [foldl fst snd] in H. destruct (IH _ H) as [Hin|Hm].
  - left. by apply list_elem_of_further.
  - destruct (decide (k' = k)) as [->|Hne].
    + rewrite lookup_insert_eq in Hm. injection Hm as <-. left. apply list_elem_of_here.
    + rewrite lookup_insert_ne in Hm by done. by right.
Qed.

Lemma typeMap_assigned (k : string) (m : TypeMapping) :
  typeMap NewTypeMapper !! k = Some m -> (k, m) ∈ typeAssignments.
Proof.
  intros H. unfold NewTypeMapper, initTypeMappings in H. cbn [typeMap] in H.
  apply foldl_insert_lookup in H as [H|H]; [done |].
  by rewrite lookup_empty in H.
Qed.

Lemma typeMap_mappingOK (k : string) (m : TypeMapping) :
  typeMap NewTypeMapper !! k = Some m -> mappingOK m = true.
Proof.
  intros H. apply typeMap_assigned in H.
  assert (Hall : forallb (fun kv => mappingOK kv.2) typeAssignments = true)
    by (by vm_compute).
  rewrite forallb_forall in Hall. apply (Hall (k, m)).
  by apply list_elem_of_In.
Qed.

(** The result of [GetGoType] is the entry of one key of the table, or
    the fallback. *)
Lemma GetGoType_cases (dbType : string) (isNullable : bool) :
  (exists k m, typeMap NewTypeMapper !! k = Some m /\
               GetGoType NewTypeMapper dbType isNullable
               = (GoType m, ImportPath m, "")) \/
  GetGoType NewTypeMapper dbType isNullable
  = ("interface{}", "", "// unknown type: " +:+ dbType).
Proof.
  unfold GetGoType, applyNullable.
  set (n := ToLower (TrimSpace dbType)).
  destruct (if Contains n "unsigned" then _ else None) as [m|] eqn:Hu.
  { left. destruct (Contains n "unsigned"); [| done].
    exists (extractBaseType n +:+ " unsigned"), m. split; [exact Hu | reflexivity]. }
  destruct (HasPrefix n "tinyint(1)" && negb (Contains n "unsigned")).
  { left. exists "tinyint(1)", (plainType "bool"). split; by vm_compute. }
  destruct (typeMap NewTypeMapper !! n) as [m|] eqn:Hn.
  { left. exists n, m. split; [exact Hn | reflexivity]. }
  destruct (typeMap NewTypeMapper !! extractBaseType n) as [m|] eqn:Hb.
  { left. exists (extractBaseType n), m. split; [exact Hb | reflexivity]. }
  right. reflexivity.
Qed.

(** X2: no entry of the type table is shadowed: for every key of
    [initTypeMappings], [GetGoType] on that key returns the Go type and
    the import path assigned to it, with an empty note. *)
Theorem GetGoType_table_entries :
  forall (k : string) (m : TypeMapping) (isNullable : bool),
    (k, m) ∈ typeAssignments ->
    typeMap NewTypeMapper !! k = Some m /\
    GetGoType NewTypeMapper k isNullable = (GoType m, ImportPath m, "").
Proof.
  intros k m isNullable Hin. unfold typeAssignments in Hin.
  repeat (apply elem_of_cons in Hin as [Hin|Hin];
          [injection Hin as -> ->; destruct isNullable; by vm_compute |]).
  by apply not_elem_of_nil in Hin.
Qed.

Lemma GetGoType_table_entries_witness :
  ("jsonb", importedType "datatypes.JSON" "gorm.io/datatypes") ∈ typeAssignments /\
  GetGoType NewTypeMapper "jsonb" true
  = ("datatypes.JSON", "gorm.io/datatypes", "").
Proof.
  assert (H : ("jsonb", importedType "datatypes.JSON" "gorm.io/datatypes")
              ∈ typeAssignments).
  { unfold typeAssignments. do 46 apply list_elem_of_further.
    apply list_elem_of_here. }
  split; [exact H |].
  exact (proj2 (GetGoType_table_entries _ _ true H)).
Defined.

(** The imports detected for one field whose type and import path come
    from a mapping of the table. *)
Lemma detect_single (n t tg c ip : string) (sl : bool) :
  mappingOK (mkTypeMapping t ip sl) = true ->
  t <> "" /\
  HasPrefix t "*" = false /\
  DetectRequiredImports [mkStructField n t tg c ip] = Add ip NewImportManager /\
  DetectRequiredImports [mkStructField n t tg c ""]
  = DetectRequiredImports [mkStructField n t tg c ip].
Proof.
  intros Hk. unfold mappingOK in Hk. cbn [GoType ImportPath] in Hk.
  unfold DetectRequiredImports. cbn [foldl FieldType FieldImportPath].
  apply orb_true_iff in Hk as [Hk|Hk];
    [apply orb_true_iff in Hk as [Hk|Hk];
     [apply orb_true_iff in Hk as [Hk|Hk] |] |].
  1-3: apply andb_true_iff in Hk as [Ht Hip];
       apply String.eqb_eq in Ht; apply String.eqb_eq in Hip; subst t ip;
       (split; [discriminate |]); (split; [reflexivity |]);
       (split; reflexivity).
  repeat match goal with
    | H : (_ && _) = true |- _ => apply andb_true_iff in H as [H ?]
    | H : negb _ = true |- _ => apply negb_true_iff in H
    end.
  apply String.eqb_eq in Hk. subst ip.
  assert (Hp : forall x, String.eqb t (String "*" x) = false).
  { intros x. apply String.eqb_neq. intros ->.
    unfold HasPrefix in *. rewrite prefix_single in *.
    by destruct (ascii_dec "*" "*"). }
  repeat match goal with
    | H : String.eqb t ?x = false |- _ =>
        lazymatch x with
        | EmptyString => fail
        | _ => rewrite H; clear H
        end
    end.
  rewrite !Hp. cbn [orb].
  split; [by intros -> |]. done.
Qed.

(** X3: for every column, the field that [BuildStructField] builds has a
    Go type that is not empty and not a pointer, and its import path is
    exactly the import its type needs: [DetectRequiredImports] finds the
    same imports from the type name alone as from the type name and the
    import path, namely the import path when it is not empty and nothing
    otherwise. *)
Theorem BuildStructField_imports (col : ColumnMetadata) :
  let field := BuildStructField col NewTypeMapper in
  FieldType field <> "" /\
  HasPrefix (FieldType field) "*" = false /\
  DetectRequiredImports [field] = Add (FieldImportPath field) NewImportManager /\
  DetectRequiredImports
    [mkStructField (FieldName field) (FieldType field) (Tags field)
                   (FieldComment field) ""]
  = DetectRequiredImports [field].
Proof.
  cbn zeta. unfold BuildStructField.
  destruct (GetGoType_cases (RawType col) (IsNullable col))
    as [[k [m [Hk ->]]] | ->];
    cbn [FieldType FieldImportPath FieldName Tags FieldComment].
  - apply typeMap_mappingOK in Hk. destruct m as [t ip sl].
    cbn [GoType ImportPath]. by apply (detect_single _ _ _ _ _ sl).
  - apply (detect_single _ "interface{}" _ _ "" false). reflexivity.
Qed.

(** ** The base type *)

Section BaseType.

Lemma bytes_all_TrimLeft (P : ascii -> Prop) (s : string) :
  bytes_all P s -> bytes_all P (TrimLeft s).
Proof.
  induction s as [|c s IH]; [done |]. intros [Hc Hs]. cbn [TrimLeft].
  destruct (is_space c); [by apply IH | by split].
Qed.

Lemma bytes_all_TrimRight (P : ascii -> Prop) (s : string) :
  bytes_all P s -> bytes_all P (TrimRight s).
Proof.
  induction s as [|c s IH]; [done |]. intros [Hc Hs]. rewrite TrimRight_cons.
  specialize (IH Hs). destruct (TrimRight s) as [|b t].
  - by destruct (is_space c).
  - by split.
Qed.

Lemma bytes_all_TrimSpace (P : ascii -> Prop) (s : string) :
  bytes_all P s -> bytes_all P (TrimSpace s).
Proof. intros Hs. by apply bytes_all_TrimLeft, bytes_all_TrimRight. Qed.

(** The bytes before the first occurrence of a byte are other bytes. *)
Lemma Index_single_before (a : ascii) (s : string) (idx : nat) :
  Index s (String a "") = Some idx ->
  bytes_all (fun c => c <> a) (slice_to s idx).
Proof.
  revert idx. induction s as [|c s IH]; intros idx H.
  - cbn in H. done.
  - cbn [Index] in H. rewrite prefix_single in H.
    destruct (ascii_dec a c) as [->|Hne].
    + by injection H as <-.
    + destruct (Index s (String a "")) as [i|] eqn:Hi; [| done].
      injection H as <-. cbn [slice_to]. split; [congruence | by apply IH].
Qed.

Lemma Index_single_absent (a : ascii) (s : string) :
  bytes_all (fun c => c <> a) s -> Index s (String a "") = None.
Proof.
  induction s as [|c s IH]; [done |]. intros [Hc Hs].
  cbn [Index]. rewrite prefix_single.
  destruct (ascii_dec a c) as [->|]; [done |]. by rewrite (IH Hs).
Qed.

End BaseType.

(** X4: the base type [extractBaseType] returns holds no opening
    parenthesis, so extracting the base type of a base type changes
    nothing; and a type without a parenthesis is its own base type. *)
Theorem extractBaseType_idempotent (dbType : string) :
  Contains (extractBaseType dbType) "(" = false /\
  extractBaseType (extractBaseType dbType) = extractBaseType dbType /\
  (Contains dbType "(" = false -> extractBaseType dbType = dbType).
Proof.
  assert (Hno : Index (extractBaseType dbType) "(" = None).
  { unfold extractBaseType. destruct (Index dbType "(") as [idx|] eqn:Hi; [| done].
    apply Index_single_absent, bytes_all_TrimSpace.
    by apply Index_single_before. }
  split; [unfold Contains; by rewrite Hno |]. split.
  - unfold extractBaseType at 1. by rewrite Hno.
  - unfold Contains, extractBaseType. by destruct (Index dbType "(").
Qed.

Lemma extractBaseType_idempotent_witness :
  Contains "double precision" "(" = false /\
  extractBaseType "double precision" = "double precision".
Proof.
  split; [reflexivity |].
  apply (proj2 (proj2 (extractBaseType_idempotent "double precision"))).
  reflexivity.
Defined.

(** ** The loop of [replaceAcronym] *)

Section ReplaceLoop.

Lemma slice_split (s : string) (i : nat) :
  (i <= len s)%nat ->
  s = slice_to s i +:+ slice_from s i /\ len (slice_to s i) = i.
Proof.
  unfold len. revert s. induction i as [|i IH]; intros s Hi.
  - rewrite slice_from_0. by destruct s.
  - destruct s as [|c s]; [cbn in Hi; lia |]. cbn in Hi.
    destruct (IH s) as [H1 H2]; [lia |]. cbn [slice_to slice_from].
    split; [cbn; by rewrite <- H1 | cbn; by rewrite H2].
Qed.

Lemma len_slice_from (s : string) (n : nat) :
  len (slice_from s n) = (len s - n)%nat.
Proof.
  unfold len. revert s. induction n as [|n IH]; intros s.
  - rewrite slice_from_0. lia.
  - destruct s as [|c s]; [done |]. apply IH.
Qed.

Lemma replaceLoop_enough (p rep : string) (fuel : nat) :
  (0 < len p)%nat ->
  forall passed rem : string,
    (len rem < fuel)%nat ->
    is_Some (replaceLoop fuel p rep (passed +:+ rem) (len passed)).
Proof.
  intros Hp. induction fuel as [|fuel IH]; intros passed rem Hfuel; [lia |].
  rewrite replaceLoop_step.
  destruct (Nat.leb_spec (len p) (len rem)) as [Hle|]; [| done].
  destruct (String.prefix p rem && at_boundary (slice_from rem (len p))).
  - apply IH. rewrite len_slice_from. lia.
  - destruct rem as [|c rem]; [cbn in Hle; lia |].
    rewrite (append_cons_assoc passed c), <- (len_snoc passed c).
    apply IH. cbn in Hfuel. unfold len. lia.
Qed.

Lemma replaceLoop_empty_pattern (rep : string) (fuel : nat) :
  forall passed rem : string,
    replaceLoop fuel "" rep (passed +:+ rem) (len passed) = None.
Proof.
  induction fuel as [|fuel IH]; intros passed rem; [done |].
  rewrite replaceLoop_step. cbn [len String.length Nat.leb].
  rewrite prefix_empty, slice_from_0. cbn [andb].
  destruct (at_boundary rem) eqn:Hb; [apply IH |].
  destruct rem as [|c rem]; [done |].
  rewrite (append_cons_assoc passed c), <- (len_snoc passed c). apply IH.
Qed.

(** Where the pattern does not occur nothing is replaced. *)
Lemma replaceLoop_absent (p rep : string) (fuel : nat) :
  (0 < len p)%nat ->
  forall passed rem : string,
    (len rem < fuel)%nat -> Index rem p = None ->
    replaceLoop fuel p rep (passed +:+ rem) (len passed) = Some (passed +:+ rem).
Proof.
  intros Hp. induction fuel as [|fuel IH]; intros passed rem Hfuel Hi; [lia |].
  rewrite replaceLoop_step.
  destruct (Nat.leb_spec (len p) (len rem)) as [Hle|]; [| done].
  apply Index_None in Hi as [Hpre Hi]. rewrite Hpre. cbn [andb].
  destruct rem as [|c rem]; [cbn in Hle; lia |].
  rewrite (append_cons_assoc passed c), <- (len_snoc passed c).
  rewrite IH; [done | cbn in Hfuel; unfold len; lia | done].
Qed.

End ReplaceLoop.

(** X5: the loop of [replaceAcronym] ends for every non-empty pattern,
    whatever the replacement and the string: the iterations allowed,
    one more than the length of the string, are enough.  With the empty
    pattern the loop never ends, whatever number of iterations it is
    given. *)
Theorem replaceAcronym_terminates :
  (forall s pattern replacement : string,
      pattern <> "" -> is_Some (replaceAcronym s pattern replacement)) /\
  (forall (s replacement : string) (fuel : nat),
      replaceLoop fuel "" replacement s 0 = None).
Proof.
  split.
  - intros s p rep Hp. unfold replaceAcronym.
    apply (replaceLoop_enough p rep (S (len s))) with (passed := "") (rem := s).
    + destruct p; [done | cbn; lia].
    + lia.
  - intros s rep fuel. apply (replaceLoop_empty_pattern rep fuel "" s).
Qed.

Lemma replaceAcronym_terminates_witness :
  "Id" <> "" /\ is_Some (replaceAcronym "UserId" "Id" "Identifier").
Proof.
  assert (H : "Id" <> "") by discriminate.
  split; [exact H |].
  exact (proj1 replaceAcronym_terminates "UserId" "Id" "Identifier" H).
Defined.

(** X6: [replaceAcronym] returns a string unchanged when the pattern,
    not empty, does not occur in it. *)
Theorem replaceAcronym_absent (s pattern replacement : string) :
  pattern <> "" -> Contains s pattern = false ->
  replaceAcronym s pattern replacement = Some s.
Proof.
  intros Hp Hc. unfold replaceAcronym, Contains in *.
  destruct (Index s pattern) eqn:Hi; [done |].
  apply (replaceLoop_absent pattern replacement (S (len s))) with (passed := "");
    [destruct pattern; [done | cbn; lia] | lia | done].
Qed.

Lemma replaceAcronym_absent_witness :
  "Url" <> "" /\ Contains "CreatedAt" "Url" = false /\
  replaceAcronym "CreatedAt" "Url" "URL" = Some "CreatedAt".
Proof.
  assert (H : "Url" <> "") by discriminate.
  split; [exact H |]. split; [reflexivity |].
  apply (replaceAcronym_absent "CreatedAt" "Url" "URL" H). reflexivity.
Defined.

(** ** Acronym correction changes letter case only *)

Section CaseOnly.

Lemma ToLower_append (a b : string) :
  ToLower (a +:+ b) = ToLower a +:+ ToLower b.
Proof.
  unfold ToLower. induction a as [|c a IH]; [done |].
  cbn. by rewrite IH.
Qed.

Lemma len_ToLower (s : string) : len (ToLower s) = len s.
Proof.
  unfold ToLower, len. induction s as [|c s IH]; [done |]. cbn. by rewrite IH.
Qed.

Lemma acronyms_case : Forall (fun pr => ToLower pr.2 = ToLower pr.1)
                             (map_to_list acronyms).
Proof.
  apply Forall_forall. intros [p rep] Hin.
  apply elem_of_map_to_list in Hin. unfold acronyms in Hin.
  apply elem_of_list_to_map_2 in Hin.
  repeat (apply elem_of_cons in Hin as [Hin|Hin];
          [injection Hin as -> ->; by vm_compute |]).
  by apply not_elem_of_nil in Hin.
Qed.

Lemma acronymWord_case (w : string) :
  ToLower (flatten (acronymWord acronyms w)) = ToLower w.
Proof.
  unfold acronymWord. destruct (acronyms !! w) as [rep|] eqn:Hl.
  - rewrite flatten_letters.
    pose proof acronyms_case as Hc. rewrite Forall_forall in Hc.
    apply elem_of_map_to_list in Hl. exact (Hc _ Hl).
  - cbn. by rewrite append_empty_r.
Qed.

Lemma acronymWords_case (s : string) : ToLower (acronymWords s) = ToLower s.
Proof.
  destruct (parseWords_spec s) as [Hs _]. unfold acronymWords.
  destruct (parseWords s) as [pre ws]. cbn [fst snd] in Hs.
  rewrite Hs. rewrite !ToLower_append. f_equal.
  clear. induction ws as [|w ws IH]; [done |].
  rewrite bind_cons, flatten_app. cbn [flatten foldr].
  rewrite !ToLower_append. fold (flatten ws).
  by rewrite IH, acronymWord_case.
Qed.

End CaseOnly.

(** X7: acronym correction changes the case of letters and nothing
    else: for every string the output of [handleAcronyms] has the length
    of the input and the same lower-case form, in whatever order the
    table is visited; so [ToGoFieldName] and [strcase.ToCamel] differ in
    letter case only. *)
Theorem handleAcronyms_case_only (s : string) :
  ToLower (handleAcronyms s) = ToLower s /\
  len (handleAcronyms s) = len s /\
  (forall (order : list (string * string)) (r : string),
      acronymOrder order -> handleAcronymsIn order s = Some r ->
      ToLower r = ToLower s /\ len r = len s) /\
  ToLower (ToGoFieldName s) = ToLower (ToCamel s).
Proof.
  assert (Hc : forall x, ToLower (handleAcronyms x) = ToLower x).
  { intros x. rewrite handleAcronyms_acronymWords. apply acronymWords_case. }
  assert (Hl : forall x, len (handleAcronyms x) = len x).
  { intros x. by rewrite <- (len_ToLower (handleAcronyms x)), Hc, len_ToLower. }
  split; [apply Hc |]. split; [apply Hl |]. split; [| apply Hc].
  intros order r Ho Hr.
  rewrite (handleAcronymsIn_spec order s Ho) in Hr. injection Hr as <-.
  rewrite <- handleAcronyms_acronymWords. by split.
Qed.

Lemma handleAcronyms_case_only_witness :
  acronymOrder (reverse (map_to_list acronyms)) /\
  handleAcronymsIn (reverse (map_to_list acronyms)) "HttpApiUrl"
  = Some "HTTPAPIURL" /\
  ToLower "HTTPAPIURL" = ToLower "HttpApiUrl".
Proof.
  assert (Ho : acronymOrder (reverse (map_to_list acronyms))).
  { apply reverse_Permutation. }
  assert (Hr : handleAcronymsIn (reverse (map_to_list acronyms)) "HttpApiUrl"
               = Some "HTTPAPIURL") by (by vm_compute).
  split; [exact Ho |]. split; [exact Hr |].
  exact (proj1 (proj1 (proj2 (proj2 (handleAcronyms_case_only "HttpApiUrl")))
                  _ _ Ho Hr)).
Defined.

(** ** Singularisation: edge cases *)

Section SingularizeFacts.

Lemma len_slice_to (s : string) (j : nat) : len (slice_to s j) = (j `min` len s)%nat.
Proof.
  unfold len. revert s. induction j as [|j IH]; intros s; [by destruct s |].
  destruct s as [|c s]; [done |]. cbn. by rewrite IH.
Qed.

Lemma irregulars_entries (k v : string) :
  irregulars !! k = Some v -> (3 <= len k)%nat /\ (0 < len v)%nat.
Proof.
  intros H. unfold irregulars in H. apply elem_of_list_to_map_2 in H.
  repeat (apply elem_of_cons in H as [H|H];
          [injection H as -> ->; vm_compute; lia |]).
  by apply not_elem_of_nil in H.
Qed.

End SingularizeFacts.

(** X8: [singularize] never turns a non-empty word into the empty
    string, and returns every word of at most two bytes unchanged. *)
Theorem singularize_edges (word : string) :
  (word <> "" -> singularize word <> "") /\
  ((len word <= 2)%nat -> singularize word = word).
Proof.
  split.
  - intros Hne.
    assert (Hlen : (0 < len (singularize word))%nat);
      [| intros Heq; rewrite Heq in Hlen; cbn in Hlen; lia].
    assert (Hw : (0 < len word)%nat) by (destruct word; [done | cbn; lia]).
    unfold singularize.
    destruct (String.eqb_spec word "") as [->|_]; [done |].
    destruct (irregulars !! word) as [v|] eqn:Hi.
    { by destruct (irregulars_entries _ _ Hi). }
    set (n := len word) in *.
    destruct (Nat.ltb_spec 3 n) as [H3|H3]; cbn [andb].
    + repeat match goal with
        | |- context [if String.eqb ?a ?b then _ else _] =>
            destruct (String.eqb a b)
        | |- context [if (?a <? ?b)%nat then _ else _] =>
            destruct (Nat.ltb_spec a b)
        | |- context [if ?a && ?b then _ else _] => destruct a; cbn [andb orb]
        | |- context [if ?a || ?b then _ else _] => destruct a; cbn [andb orb]
        end;
        rewrite ?len_append, ?len_slice_to; fold n; cbn [len String.length];
        try lia.
    + repeat match goal with
        | |- context [if String.eqb ?a ?b then _ else _] =>
            destruct (String.eqb a b)
        | |- context [if (?a <? ?b)%nat then _ else _] =>
            destruct (Nat.ltb_spec a b)
        | |- context [if ?a && ?b then _ else _] => destruct a; cbn [andb orb]
        | |- context [if ?a || ?b then _ else _] => destruct a; cbn [andb orb]
        end;
        rewrite ?len_append, ?len_slice_to; fold n; cbn [len String.length];
        try lia.
  - intros Hlen. unfold singularize.
    destruct (String.eqb word ""); [done |].
    destruct (irregulars !! word) as [v|] eqn:Hi.
    { destruct (irregulars_entries _ _ Hi). lia. }
    destruct (Nat.ltb_spec 3 (len word)); [lia |]. cbn [andb].
    destruct (Nat.ltb_spec 2 (len word)); [lia | done].
Qed.

Lemma singularize_edges_witness :
  "oes" <> "" /\ singularize "oes" <> "" /\
  (len "es" <= 2)%nat /\ singularize "es" = "es".
Proof.
  assert (H1 : "oes" <> "") by discriminate.
  assert (H2 : (len "es" <= 2)%nat) by (cbn; lia).
  split; [exact H1 |].
  split; [exact (proj1 (singularize_edges "oes") H1) |].
  split; [exact H2 | exact (proj2 (singularize_edges "es") H2)].
Defined.

(** ** Standard-library import paths *)

Section PrefixFacts.

Lemma prefix_refl (s : string) : String.prefix s s = true.
Proof.
  induction s as [|c s IH]; [done |]. cbn. by destruct (ascii_dec c c).
Qed.

Lemma prefix_append_l (a b s : string) :
  String.prefix (a +:+ b) s = true -> String.prefix a s = true.
Proof.
  revert s. induction a as [|c a IH]; intros s H; [apply prefix_empty |].
  destruct s as [|d s]; [done |]. cbn in *.
  destruct (ascii_dec c d); [by apply IH | done].
Qed.

End PrefixFacts.

(** X9: [isStdLib] accepts a path exactly when the path begins with one
    of the listed names: the equality test and the test for the name
    followed by a slash add nothing to the plain prefix test. *)
Theorem isStdLib_prefix (path : string) :
  isStdLib path = existsb (fun prefix => HasPrefix path prefix) stdLibPrefixes /\
  (isStdLib path = true
   <-> exists prefix, prefix ∈ stdLibPrefixes /\ HasPrefix path prefix = true).
Proof.
  assert (H : isStdLib path
              = existsb (fun prefix => HasPrefix path prefix) stdLibPrefixes).
  { unfold isStdLib. generalize stdLibPrefixes. intros l.
    induction l as [|p l IH]; [done |]. cbn [existsb]. rewrite IH. f_equal.
    unfold HasPrefix. destruct (String.prefix p path) eqn:Hp.
    - by rewrite orb_true_r.
    - rewrite orb_false_r. apply orb_false_iff. split.
      + apply String.eqb_neq. intros ->. by rewrite prefix_refl in Hp.
      + destruct (String.prefix (p +:+ "/") path) eqn:Hq; [| done].
        apply prefix_append_l in Hq. congruence. }
  split; [exact H |]. rewrite H, existsb_exists.
  split; intros [p [Hin Hp]]; exists p; (split; [| done]);
    by apply list_elem_of_In.
Qed.

(** ** Pieces of a split *)

Section SplitPieces.
Context (a : ascii).

Lemma bytes_all_rev_app (P : ascii -> Prop) (p q : string) :
  bytes_all P p -> bytes_all P q -> bytes_all P (String.rev_app p q).
Proof.
  revert q. induction p as [|c p IH]; intros q Hp Hq; [done |].
  destruct Hp as [Hc Hp]. cbn [String.rev_app]. apply IH; [done | by split].
Qed.

Lemma split_go_pieces (s cur : string) :
  bytes_all (fun c => c <> a) cur ->
  Forall (bytes_all (fun c => c <> a)) (split_go (String a "") s cur 0).
Proof.
  revert cur. induction s as [|c s IH]; intros cur Hcur.
  - cbn [split_go]. apply Forall_cons. split; [| done].
    by apply (bytes_all_rev_app _ cur "").
  - cbn [split_go]. rewrite prefix_single. destruct (ascii_dec a c) as [->|Hne].
    + apply Forall_cons. split; [by apply (bytes_all_rev_app _ cur "") |].
      by apply IH.
    + apply IH. split; [congruence | done].
Qed.

Lemma Split_pieces (s : string) :
  Forall (bytes_all (fun c => c <> a)) (Split s (String a "")).
Proof. by apply split_go_pieces. Qed.

End SplitPieces.

(** X10: every table name [splitTables] returns is not empty, has no
    white space at either end (trimming it again changes nothing) and
    holds no comma; the empty string gives no table name. *)
Theorem splitTables_entries (tables : string) :
  Forall (fun t => t <> "" /\ TrimSpace t = t /\ Contains t "," = false)
         (splitTables tables) /\
  splitTables "" = [].
Proof.
  split; [| reflexivity]. unfold splitTables.
  pose proof (Split_pieces ","%char tables) as Hp.
  revert Hp. generalize (Split tables ","). intros l Hl.
  assert (Hgen : forall acc,
             Forall (fun t => t <> "" /\ TrimSpace t = t /\ Contains t "," = false) acc ->
             Forall (fun t => t <> "" /\ TrimSpace t = t /\ Contains t "," = false)
               (foldl (fun result t =>
                         let t := TrimSpace t in
                         if negb (String.eqb t "") then result ++ [t] else result)
                      acc l)).
  { induction Hl as [|t l Ht Hl IH]; intros acc Hacc; [done |].
    cbn [foldl]. apply IH. cbn zeta.
    destruct (String.eqb_spec (TrimSpace t) "") as [|Hne]; cbn [negb]; [done |].
    apply Forall_app. split; [done |]. apply Forall_cons. split; [| done].
    split; [done |]. split; [apply TrimSpace_idem |].
    unfold Contains. rewrite Index_single_absent; [done |].
    by apply bytes_all_TrimSpace. }
  by apply Hgen.
Qed.

(** ** [ToPascalCase] *)

Section PascalFacts.

Lemma upper_byte_underscore (c : ascii) :
  not_underscore c -> not_underscore (upper_byte c).
Proof.
  unfold not_underscore.
  destruct c as [[] [] [] [] [] [] [] []]; vm_compute; congruence.
Qed.

Lemma lower_byte_underscore (c : ascii) :
  not_underscore c -> not_underscore (lower_byte c).
Proof.
  unfold not_underscore.
  destruct c as [[] [] [] [] [] [] [] []]; vm_compute; congruence.
Qed.

Lemma bytes_all_map_bytes (P : ascii -> Prop) (f : ascii -> ascii) (s : string) :
  (forall c, P c -> P (f c)) -> bytes_all P s -> bytes_all P (map_bytes f s).
Proof.
  intros Hf. induction s as [|c s IH]; [done |]. intros [Hc Hs].
  split; [by apply Hf | by apply IH].
Qed.

Lemma bytes_all_append (P : ascii -> Prop) (a b : string) :
  bytes_all P a -> bytes_all P b -> bytes_all P (a +:+ b).
Proof.
  induction a as [|c a IH]; [done |]. intros [Hc Ha] Hb.
  split; [done | by apply IH].
Qed.

Lemma pascalAcronyms_values (k v : string) :
  pascalAcronyms !! k = Some v -> bytes_all not_underscore v.
Proof.
  intros H. unfold pascalAcronyms in H. apply elem_of_list_to_map_2 in H.
  repeat (apply elem_of_cons in H as [H|H];
          [injection H as -> ->; vm_compute; repeat split; congruence |]).
  by apply not_elem_of_nil in H.
Qed.

Lemma pascalWord_underscore (word : string) :
  bytes_all not_underscore word -> bytes_all not_underscore (pascalWord word).
Proof.
  intros Hw. unfold pascalWord. destruct (String.eqb word ""); [done |].
  destruct (pascalAcronyms !! ToLower word) as [v|] eqn:Hv.
  - by apply (pascalAcronyms_values _ _ Hv).
  - apply bytes_all_append.
    + apply bytes_all_map_bytes; [apply upper_byte_underscore |].
      by apply bytes_all_slice_to.
    + destruct (1 <? len word)%nat; [| done].
      apply bytes_all_map_bytes; [apply lower_byte_underscore |].
      by apply bytes_all_slice_from.
Qed.

End PascalFacts.

(** X11: the name [ToPascalCase] builds holds no underscore, whatever
    the input; underscores only separate the words, so empty words (a
    leading, trailing or doubled underscore) leave no trace. *)
Theorem ToPascalCase_no_underscore (s : string) :
  Contains (ToPascalCase s) "_" = false /\
  ToPascalCase ("_" +:+ s) = ToPascalCase s /\
  ToPascalCase "" = "".
Proof.
  split; [| split; [| reflexivity]].
  - unfold Contains. rewrite Index_single_absent; [done |].
    unfold ToPascalCase. pose proof (Split_pieces "_"%char s) as Hp.
    revert Hp. generalize (Split s "_"). intros l Hl.
    assert (Hgen : forall acc, bytes_all not_underscore acc ->
               bytes_all not_underscore
                 (foldl (fun result word => result +:+ pascalWord word) acc l)).
    { induction Hl as [|w l Hw Hl IH]; intros acc Hacc; [done |].
      cbn [foldl]. apply IH, bytes_all_append; [done |].
      by apply pascalWord_underscore. }
    by apply Hgen.
  - unfold ToPascalCase, Split.
    change ("_" +:+ s) with (String "_" s). cbn [split_go].
    rewrite prefix_single. destruct (ascii_dec "_" "_"); [| done].
    cbn [String.length Nat.sub foldl]. reflexivity.
Qed.

(** ** Cleaned default values *)

Section ContainsFacts.

Lemma prefix_slice_to (sub s : string) (j : nat) :
  String.prefix sub (slice_to s j) = true -> String.prefix sub s = true.
Proof.
  revert s j. induction sub as [|a sub IH]; intros s j H; [apply prefix_empty |].
  destruct j as [|j]; [by destruct s |]. destruct s as [|c s]; [done |].
  cbn in *. destruct (ascii_dec a c); [by apply (IH s j) | done].
Qed.

Lemma Index_slice_to (s sub : string) (j : nat) :
  Index s sub = None -> Index (slice_to s j) sub = None.
Proof.
  revert j. induction s as [|c s IH]; intros j H.
  - by destruct j.
  - apply Index_None in H as [Hp H]. destruct j as [|j].
    + cbn [slice_to Index]. destruct (String.prefix sub "") eqn:Hq; [| done].
      destruct sub; [by rewrite prefix_empty in Hp | done].
    + cbn [slice_to Index].
      destruct (String.prefix sub (String c (slice_to s j))) eqn:Hq.
      * apply (prefix_slice_to sub (String c s) (S j)) in Hq. congruence.
      * by rewrite (IH j H).
Qed.

Lemma Index_slice_from (s sub : string) (i : nat) :
  Index s sub = None -> Index (slice_from s i) sub = None.
Proof.
  revert s. induction i as [|i IH]; intros s H; [by rewrite slice_from_0 |].
  destruct s as [|c s]; [done |]. apply Index_None in H as [_ H]. by apply IH.
Qed.

Lemma Contains_slice (s sub : string) (i j : nat) :
  Contains s sub = false -> Contains (slice s i j) sub = false.
Proof.
  unfold Contains, slice. intros H.
  destruct (Index s sub) eqn:Hi; [done |].
  by rewrite (Index_slice_to _ sub (j - i) (Index_slice_from s sub i Hi)).
Qed.

Lemma map_bytes_slice (f : ascii -> ascii) (s : string) (i j : nat) :
  map_bytes f (slice s i j) = slice (map_bytes f s) i j.
Proof.
  unfold slice. generalize (j - i)%nat. intros k.
  revert s. induction i as [|i IH]; intros s.
  - rewrite !slice_from_0. revert s. induction k as [|k IHk]; intros s;
      [by destruct s |].
    destruct s as [|c s]; [done |]. cbn. by rewrite IHk.
  - destruct s as [|c s]; [by destruct k |]. apply IH.
Qed.

End ContainsFacts.

(** X12: what [cleanDefaultValue] lets through never mentions nextval,
    never mentions current_timestamp, now() or current_date in any
    letter case, and is never the word NULL in any letter case; either
    it is empty, or it is the default itself, or the default without
    its enclosing pair of parentheses. *)
Theorem cleanDefaultValue_never (defaultVal : string) :
  let r := cleanDefaultValue defaultVal in
  Contains r "nextval" = false /\
  Contains (ToLower r) "current_timestamp" = false /\
  Contains (ToLower r) "now()" = false /\
  Contains (ToLower r) "current_date" = false /\
  ToUpper r <> "NULL" /\
  (r = "" \/ r = defaultVal
   \/ r = slice defaultVal 1 (len defaultVal - 1)).
Proof.
  cbn zeta. unfold cleanDefaultValue.
  destruct (Contains defaultVal "nextval") eqn:H1; [by repeat split; auto |].
  destruct (Contains (ToLower defaultVal) "current_timestamp") eqn:H2;
    [by repeat split; auto |].
  destruct (Contains (ToLower defaultVal) "now()") eqn:H3;
    [by repeat split; auto |].
  destruct (Contains (ToLower defaultVal) "current_date") eqn:H4;
    [by repeat split; auto |].
  cbn [orb].
  destruct (HasPrefix defaultVal "(" && HasSuffix defaultVal ")").
  - destruct (String.eqb_spec
                (ToUpper (slice defaultVal 1 (len defaultVal - 1))) "NULL")
      as [|Hn]; [by repeat split; auto |].
    unfold ToLower in *. rewrite map_bytes_slice.
    repeat split; auto using Contains_slice.
  - destruct (String.eqb_spec (ToUpper defaultVal) "NULL") as [|Hn];
      [by repeat split; auto |].
    repeat split; auto.
Qed.

(** ** The import manager *)

Section ImportFacts.

Lemma Has_Add (p path : string) (im : ImportManager) :
  Has (Add p im) path = true <-> (p = path /\ p <> "") \/ Has im path = true.
Proof.
  unfold Has, Add, ImportManager in *.
  destruct (String.eqb_spec p "") as [->|Hne]; cbn [negb].
  - split; [by right | intros [[_ ?]|?]; done].
  - destruct (decide (p = path)) as [->|Hpp].
    + rewrite lookup_insert_eq. cbn. split; [by left | done].
    + rewrite lookup_insert_ne by done. split; [by right |].
      intros [[? _]|?]; done.
Qed.

Lemma eqb_or (a b c : string) :
  String.eqb a b || String.eqb a c = true <-> a = b \/ a = c.
Proof. rewrite orb_true_iff, !String.eqb_eq. done. Qed.

Lemma Has_cond_Add (b : bool) (p path : string) (im : ImportManager) :
  Has (if b then Add p im else im) path = true
  <-> (b = true /\ p = path /\ p <> "") \/ Has im path = true.
Proof.
  destruct b.
  - rewrite Has_Add. split; [intros [[? ?]|?] | intros [[_ [? ?]]|?]]; auto.
  - split; [by right | intros [[? _]|?]; done].
Qed.

Lemma Has_detectStep (im : ImportManager) (field : StructField) (path : string) :
  Has (detectStep im field) path = true
  <-> Has im path = true \/ fieldNeeds field path.
Proof.
  unfold detectStep, fieldNeeds. cbn zeta.
  rewrite !Has_cond_Add, !eqb_or, negb_true_iff, String.eqb_neq.
  unfold WellKnownImports.Time, WellKnownImports.Datatypes,
    WellKnownImports.UUID.
  split.
  - intros [[_ [<- Hne]] | [[Hc [<- _]] | [[Hc [<- _]] | [[Hc [<- _]] | H]]]].
    + right. right. right. right. by split.
    + right. right. right. left. by split.
    + right. right. left. by split.
    + right. left. by split.
    + by left.
  - intros [H | [[-> Hc] | [[-> Hc] | [[-> Hc] | [-> Hne]]]]].
    + do 4 right. exact H.
    + do 3 right. left. by repeat split.
    + do 2 right. left. by repeat split.
    + right. left. by repeat split.
    + left. by repeat split.
Qed.

Lemma Has_detect_loop (fields : list StructField) (im : ImportManager)
  (path : string) :
  Has (foldl detectStep im fields) path = true
  <-> Has im path = true \/ exists field, field ∈ fields /\ fieldNeeds field path.
Proof.
  revert im. induction fields as [|f fields IH]; intros im.
  - cbn. split; [by left |]. intros [?|[f [Hf _]]]; [done |].
    by apply not_elem_of_nil in Hf.
  - cbn [foldl]. rewrite IH, Has_detectStep. split.
    + intros [[?|?]|[f' [? ?]]]; [by left | right | right].
      * exists f. split; [apply list_elem_of_here | done].
      * exists f'. split; [by apply list_elem_of_further | done].
    + intros [?|[f' [Hin ?]]]; [by left; left |].
      apply elem_of_cons in Hin as [->|Hin]; [by left; right |].
      right. by exists f'.
Qed.

Lemma Has_DetectRequiredImports (fields : list StructField) (path : string) :
  Has (DetectRequiredImports fields) path = true
  <-> exists field, field ∈ fields /\ fieldNeeds field path.
Proof.
  change (DetectRequiredImports fields)
    with (foldl detectStep NewImportManager fields).
  rewrite Has_detect_loop. split; [| by right].
  intros [He|?]; [| done]. unfold Has, NewImportManager, ImportManager in He.
  by rewrite lookup_empty in He.
Qed.

End ImportFacts.

(** X13: an import path is in the manager [DetectRequiredImports]
    returns exactly when some field asks for it: by its type name
    (time.Time, datatypes.JSON, uuid.UUID, plain or as a pointer) or by
    its own import path, when that is not empty.  Nothing else gets in,
    and the empty path never does. *)
Theorem DetectRequiredImports_exact (fields : list StructField) (path : string) :
  (Has (DetectRequiredImports fields) path = true
   <-> exists field, field ∈ fields /\ fieldNeeds field path) /\
  Has (DetectRequiredImports fields) "" = false /\
  DetectRequiredImports [] = NewImportManager.
Proof.
  split; [apply Has_DetectRequiredImports |]. split; [| reflexivity].
  apply not_true_iff_false. rewrite Has_DetectRequiredImports.
  intros [f [_ Hf]].
  unfold fieldNeeds in Hf.
  destruct Hf as [[? _]|[[? _]|[[? _]|[_ ?]]]]; done.
Qed.

(** X14: [GetAll] returns every key of the manager once, in ascending
    order; and the import block is empty exactly when the manager is. *)
Theorem GetAll_sorted (im : ImportManager) :
  Sorted String.le (GetAll im) /\
  NoDup (GetAll im) /\
  (forall path, path ∈ GetAll im <-> is_Some (im !! path)) /\
  length (GetAll im) = Count im /\
  (GenerateImportBlock im = "" <-> im = ∅).
Proof.
  unfold GetAll, Count, ImportManager in *.
  pose proof (merge_sort_Permutation String.le ((map_to_list im).*1)) as Hp.
  split; [apply Sorted_merge_sort; apply _ |].
  split; [rewrite Hp; apply NoDup_fst_map_to_list |].
  split; [| split].
  - intros path. rewrite Hp, list_elem_of_fmap. split.
    + intros [[k v] [-> Hin]]. apply elem_of_map_to_list in Hin. by exists v.
    + intros [v Hv]. exists (path, v). split; [done |].
      by apply elem_of_map_to_list.
  - rewrite Hp, length_fmap. apply length_map_to_list.
  - unfold GenerateImportBlock.
    match goal with
    | |- context [Nat.eqb ?a 0] => destruct (Nat.eqb_spec a 0) as [Hz|Hnz]
    end.
    + split; [intros _; by apply map_size_empty_iff | reflexivity].
    + split; [intros Hb; cbn in Hb; discriminate Hb |].
      intros ->. exfalso. by apply Hnz, map_size_empty_iff.
Qed.

(** ** More on the generator *)

Section GeneratorPaths.
Context {World : Type} (env : Env World).

Lemma GenerateToFile_path (g : Generator World) (tableName outputDir : string)
  (w w' : World) (filePath : string) :
  GenerateToFile env g tableName outputDir w = ((filePath, None), w') ->
  filePath = filePathOf env outputDir tableName.
Proof.
  unfold GenerateToFile, filePathOf.
  destruct (Generate env g tableName w) as [[content [e|]] w1]; [done |].
  destruct (os_MkdirAll env outputDir w1) as [[e|] w2]; [done |].
  destruct (os_WriteFile env _ content w2) as [[e|] w3]; [done |].
  by intros [= <- _].
Qed.

(** What the loop returns, whatever the calls do: the paths so far and
    the computed paths of the first [k] tables; [k] is the number of
    tables when there is no error, and the index of the table named in
    the error otherwise. *)
Lemma generateLoop_paths (g : Generator World) (outputDir : string)
  (tables acc : list string) (w : World) :
  exists k : nat,
    (k <= length tables)%nat /\
    (generateLoop env g outputDir tables acc w).1.1
    = acc ++ (filePathOf env outputDir <$> take k tables) /\
    ((generateLoop env g outputDir tables acc w).1.2 = None ->
     k = length tables) /\
    (forall err, (generateLoop env g outputDir tables acc w).1.2 = Some err ->
       exists table inner,
         tables !! k = Some table /\
         err = ErrWrap ("failed to generate " +:+ table +:+ ": ") inner).
Proof.
  revert acc w. induction tables as [|t tables IH]; intros acc w.
  - exists 0%nat. cbn. rewrite app_nil_r. repeat split; [lia | done].
  - cbn [generateLoop].
    destruct (GenerateToFile env g t outputDir w) as [[p [e|]] w1] eqn:Hg.
    + exists 0%nat. cbn. rewrite app_nil_r.
      split; [lia |]. split; [done |]. split; [done |].
      intros err [= <-]. by exists t, e.
    + apply GenerateToFile_path in Hg as ->.
      destruct (IH (acc ++ [filePathOf env outputDir t]) w1)
        as [k [Hk [Hp [Hn He]]]].
      exists (S k). cbn [length take fmap list_fmap lookup list_lookup].
      split; [lia |]. split; [by rewrite Hp, <- app_assoc |].
      split; [intros H; by rewrite (Hn H) | exact He].
Qed.

End GeneratorPaths.

(** X15: the paths that [GenerateAll] returns are computed from the
    table names alone: they are [outputDir] joined with the file names
    of the first [k] tables that [GetTables] listed, in order.  Without
    an error [k] is the number of tables; with one, it is the index of
    the table that the error names. *)
Theorem GenerateAll_paths {World : Type} (env : Env World)
  (g : Generator World) (outputDir : string) (w w0 : World)
  (tables : list string) :
  GetTables (introspector g) w = (Ok tables, w0) ->
  exists k : nat,
    (k <= length tables)%nat /\
    (GenerateAll env g outputDir w).1.1
    = filePathOf env outputDir <$> take k tables /\
    ((GenerateAll env g outputDir w).1.2 = None -> k = length tables) /\
    (forall err, (GenerateAll env g outputDir w).1.2 = Some err ->
       exists table inner,
         tables !! k = Some table /\
         err = ErrWrap ("failed to generate " +:+ table +:+ ": ") inner).
Proof.
  intros Ht. unfold GenerateAll. rewrite Ht.
  apply (generateLoop_paths env g outputDir tables [] w0).
Qed.

Lemma GenerateAll_paths_witness :
  exists k : nat,
    (k <= 3)%nat /\
    (GenerateAll (Scenario.env true) Scenario.generator "out" []).1.1
    = filePathOf (Scenario.env true) "out" <$> take k Scenario.tables /\
    Scenario.tables !! k = Some "broken".
Proof.
  destruct (GenerateAll_paths (Scenario.env true) Scenario.generator "out"
              [] [Scenario.EvGetTables] Scenario.tables eq_refl)
    as [k [Hk [Hp [_ He]]]].
  exists k. split; [exact Hk |]. split; [exact Hp |].
  destruct (He (ErrWrap "failed to generate broken: "
                  (ErrWrap "failed to get table metadata: "
                           Scenario.metadataError)) eq_refl)
    as [t [inner [Hl Hw]]].
  rewrite Hl. f_equal. injection Hw as Hw _.
  apply (f_equal (fun s => slice s 19 25)) in Hw.
  destruct k as [|[|[|k]]]; cbn in Hl; try done; injection Hl as <-;
    by vm_compute in Hw.
Defined.

(** X16: the bytes that [Generate] returns together with an error (the
    unformatted text, when formatting fails) reach no caller's result
    and no file: [GenerateString] and [GetCodePreview] return the empty
    string, and [GenerateToFile] and [SaveCodeToFile] stop in the world
    that [Generate] left, before any directory or file is made. *)
Theorem Generate_error_discards_output {World : Type} (env : Env World)
  (g : Generator World) (tableName : string) (w w' : World)
  (out : string) (err : error) :
  Generate env g tableName w = ((out, Some err), w') ->
  GenerateString env g tableName w = (("", Some err), w') /\
  (forall outputDir,
     GenerateToFile env g tableName outputDir w = (("", Some err), w')) /\
  (forall a : App.State World,
     App.connectedGenerator a = Some g ->
     App.GetCodePreview env tableName a w
     = (("", Some (ErrWrap ("failed to generate code for table "
                            +:+ tableName +:+ ": ") err)), w') /\
     forall filePath,
       App.SaveCodeToFile env tableName filePath a w
       = (Some (ErrWrap ("failed to generate code for table "
                         +:+ tableName +:+ ": ") err), w')).
Proof.
  intros Hg.
  assert (Hs : GenerateString env g tableName w = (("", Some err), w')).
  { unfold GenerateString. by rewrite Hg. }
  split; [exact Hs |]. split.
  - intros outputDir. unfold GenerateToFile. by rewrite Hg.
  - intros a Ha. unfold App.GetCodePreview, App.SaveCodeToFile.
    rewrite Ha, Hs, Hg. done.
Qed.

Lemma Generate_error_discards_output_witness :
  GenerateToFile (Scenario.env false) Scenario.generator "accounts" "out" []
  = (("", Some (ErrWrap "go/format failed (returning unformatted): "
                        Scenario.formatError)),
     [Scenario.EvGetTableMetadata "accounts"]).
Proof.
  apply (proj1 (proj2 (Generate_error_discards_output (Scenario.env false)
                         Scenario.generator "accounts" []
                         [Scenario.EvGetTableMetadata "accounts"]
                         "package models type Account"
                         (ErrWrap "go/format failed (returning unformatted): "
                                  Scenario.formatError) eq_refl))).
Defined.

(** ** The fields and imports of a generated struct *)

Lemma foldl_snoc_fmap {A B : Type} (f : A -> B) (l : list A) (acc : list B) :
  foldl (fun acc x => acc ++ [f x]) acc l = acc ++ (f <$> l).
Proof.
  revert acc. induction l as [|x l IH]; intros acc; cbn.
  - by rewrite app_nil_r.
  - by rewrite IH, <- app_assoc.
Qed.

(** A mapping of the table asks for an import only through its import
    path. *)
Lemma mappingOK_needs (n t tg c ip : string) (sl : bool) (path : string) :
  mappingOK (mkTypeMapping t ip sl) = true ->
  (fieldNeeds (mkStructField n t tg c ip) path <-> ip = path /\ path <> "") /\
  ip ∈ [""; WellKnownImports.Time; WellKnownImports.Datatypes;
        WellKnownImports.UUID].
Proof.
  intros Hk. unfold mappingOK in Hk. cbn [GoType ImportPath] in Hk.
  unfold fieldNeeds, WellKnownImports.Time, WellKnownImports.Datatypes,
    WellKnownImports.UUID.
  cbn [FieldType FieldImportPath].
  apply orb_true_iff in Hk as [Hk|Hk];
    [apply orb_true_iff in Hk as [Hk|Hk];
     [apply orb_true_iff in Hk as [Hk|Hk] |] |].
  1-3: apply andb_true_iff in Hk as [Ht Hip];
       apply String.eqb_eq in Ht; apply String.eqb_eq in Hip; subst t ip;
       (split; [| set_solver]);
       (split;
        [by intros [[-> [?|?]]|[[-> [?|?]]|[[-> [?|?]]|[-> ?]]]] |]);
       intros [<- _]; auto 10.
  repeat match goal with
    | H : (_ && _) = true |- _ => apply andb_true_iff in H as [H ?]
    | H : negb _ = true |- _ => apply negb_true_iff in H
    end.
  apply String.eqb_eq in Hk. subst ip.
  assert (Hp : forall x, t <> String "*" x).
  { intros x ->. unfold HasPrefix in *. rewrite prefix_single in *.
    by destruct (ascii_dec "*" "*"). }
  repeat match goal with
    | H : String.eqb t _ = false |- _ => apply String.eqb_neq in H
    end.
  split; [| set_solver]. split.
  - intros [[_ [?|?]]|[[_ [?|?]]|[[_ [?|?]]|[-> ?]]]]; try done;
      exfalso; by eapply Hp.
  - intros [<- ?]. done.
Qed.

Section FieldFacts.
Context {World : Type}.

Lemma buildFields_fmap (g : Generator World) (columns : list ColumnMetadata) :
  buildFields g columns
  = (fun col =>
       let field := BuildStructField col (typeMapper g) in
       mkStructField (ToGoFieldName (Name col)) (FieldType field)
         (Tags field) (FieldComment field) (FieldImportPath field))
    <$> columns.
Proof. unfold buildFields. by rewrite foldl_snoc_fmap. Qed.

End FieldFacts.

(** X17: the struct that a session's generator builds for a table has
    one field per column, in order, named by [ToGoFieldName]; and its
    import block holds a path exactly when the type table gives that
    path, not empty, to the raw type of some column.  Such a path is one
    of time, gorm.io/datatypes and github.com/google/uuid, so the three
    flags of the template data account for every import. *)
Theorem buildFields_imports {World : Type} (i : DBIntrospector World)
  (columns : list ColumnMetadata) (path : string) :
  let fields := buildFields (NewGenerator i) columns in
  FieldName <$> fields = (fun col => ToGoFieldName (Name col)) <$> columns /\
  (Has (DetectRequiredImports fields) path = true
   <-> exists col, col ∈ columns /\ path <> "" /\
         (GetGoType NewTypeMapper (RawType col) (IsNullable col)).1.2 = path) /\
  (Has (DetectRequiredImports fields) path = true ->
   path ∈ [WellKnownImports.Time; WellKnownImports.Datatypes;
           WellKnownImports.UUID]).
Proof.
  cbn zeta. rewrite buildFields_fmap. cbn [typeMapper NewGenerator].
  split; [by rewrite <- list_fmap_compose |].
  assert (Hcol : forall col : ColumnMetadata,
    let field := BuildStructField col NewTypeMapper in
    (fieldNeeds (mkStructField (ToGoFieldName (Name col)) (FieldType field)
                   (Tags field) (FieldComment field) (FieldImportPath field))
                path
     <-> (GetGoType NewTypeMapper (RawType col) (IsNullable col)).1.2 = path
         /\ path <> "") /\
    (GetGoType NewTypeMapper (RawType col) (IsNullable col)).1.2
    ∈ [""; WellKnownImports.Time; WellKnownImports.Datatypes;
       WellKnownImports.UUID]).
  { intros col. cbn zeta. unfold BuildStructField.
    destruct (GetGoType_cases (RawType col) (IsNullable col))
      as [[k [m [Hk ->]]] | ->];
      cbn [FieldType FieldImportPath FieldName Tags FieldComment fst snd].
    - apply typeMap_mappingOK in Hk. destruct m as [t ip sl].
      cbn [GoType ImportPath]. by apply (mappingOK_needs _ _ _ _ _ sl).
    - apply (mappingOK_needs _ "interface{}" _ _ "" false). reflexivity. }
  assert (Hiff : Has (DetectRequiredImports
                   ((fun col =>
                       let field := BuildStructField col NewTypeMapper in
                       mkStructField (ToGoFieldName (Name col)) (FieldType field)
                         (Tags field) (FieldComment field)
                         (FieldImportPath field)) <$> columns)) path = true
    <-> exists col, col ∈ columns /\ path <> "" /\
          (GetGoType NewTypeMapper (RawType col) (IsNullable col)).1.2 = path).
  { rewrite Has_DetectRequiredImports. split.
    - intros [f [Hin Hf]]. apply list_elem_of_fmap in Hin as [col [-> Hin]].
      apply (proj1 (Hcol col)) in Hf as [? ?]. by exists col.
    - intros [col [Hin [Hne Hp]]]. eexists. split.
      + apply list_elem_of_fmap. by exists col.
      + by apply (proj1 (Hcol col)). }
  split; [exact Hiff |].
  intros H. apply Hiff in H as [col [_ [Hne <-]]].
  pose proof (proj2 (Hcol col)) as Hin.
  apply elem_of_cons in Hin as [Hin|Hin]; [done | exact Hin].
Qed.

(** ** More on the session *)

Section SessionMore.
Context {World : Type} (env : Env World).

Import App.

Lemma NewApp_consistent : consistent (NewApp (World := World)).
Proof.
  unfold consistent, NewApp. cbn. split; [| done].
  split; [done | by intros [? ?]].
Qed.

Lemma ConnectDB_consistent (cfg : DBConfig) (a : State World) (w : World) :
  consistent a -> consistent (ConnectDB env cfg a w).1.2.
Proof.
  intros (Hc & Hg & Hd). unfold ConnectDB.
  assert (Hcleared : consistent (mkState (World := World) None (dbConfig a) None false)).
  { unfold consistent. cbn. split; [| done]. split; [done | by intros [? ?]]. }
  assert (Hset : forall j : DBIntrospector World,
    consistent (mkState (Some j) (Some cfg) (Some (NewGenerator j)) true)).
  { intros j. unfold consistent. cbn. split; [| done]. split; [eauto | done]. }
  destruct (introspector a) as [i|] eqn:Hi.
  - destruct (Close i w) as [r w1].
    destruct (NewIntrospector env cfg w1) as [[j|e] w2]; [| exact Hcleared].
    destruct (Connect j w2) as [[e|] w3]; [exact Hcleared |].
    destruct (SaveConfig env _ w3) as [[e|] w4]; apply Hset.
  - assert (Ha : consistent a) by (unfold consistent; by rewrite Hi).
    destruct (NewIntrospector env cfg w) as [[j|e] w2]; [| exact Ha].
    destruct (Connect j w2) as [[e|] w3]; [exact Ha |].
    destruct (SaveConfig env _ w3) as [[e|] w4]; apply Hset.
Qed.

Lemma perform_consistent (c : Call) (a : State World) (w : World) :
  consistent a -> consistent (perform env c a w).1.
Proof.
  intros Ha. destruct c; cbn [perform fst]; try exact Ha.
  - unfold Startup. destruct (LoadConfig env w) as [[cfg|e] w1]; [| exact Ha].
    destruct (negb _); [| exact Ha].
    destruct Ha as (Hc & Hg & Hd). unfold consistent. cbn. done.
  - pose proof (ConnectDB_consistent cfg a w Ha) as H.
    by destruct (ConnectDB env cfg a w) as [[r a'] w'].
  - unfold DisconnectDB. destruct (introspector a) as [i|] eqn:Hi; [| exact Ha].
    destruct (Close i w) as [[e|] w1]; [exact Ha |].
    unfold consistent. cbn. split; [| done]. split; [done | by intros [? ?]].
Qed.

Lemma reachable_consistent (a : State World) (w : World) :
  reachable env a w -> consistent a.
Proof.
  induction 1 as [w | c a w _ IH]; [apply NewApp_consistent |].
  by apply perform_consistent.
Qed.

(** X18: in every state a session can reach, the connection fields
    agree ([consistent]); so the nil tests beside the flag in the guards
    of the methods never decide: a connected session has its
    introspector, and its generator is [NewGenerator] of that
    introspector. *)
Theorem session_consistent (a : State World) (w : World) :
  reachable env a w ->
  consistent a /\
  connectedIntrospector a = introspector a /\
  connectedGenerator a = NewGenerator <$> introspector a /\
  (connected a = false -> Disconnected a).
Proof.
  intros Hr. pose proof (reachable_consistent a w Hr) as Ha.
  split; [exact Ha |]. destruct Ha as (Hc & Hg & Hd).
  unfold connectedIntrospector, connectedGenerator, Disconnected.
  rewrite Hg. destruct (connected a) eqn:Hcon; cbn [negb].
  - repeat split; done.
  - destruct (introspector a) as [i|] eqn:Hi.
    + exfalso. assert (false = true) by (apply Hc; eauto). done.
    + repeat split; done.
Qed.

(** X19: [DisconnectDB] in a state a session can reach.  It keeps the
    configuration.  When it returns no error the session is
    disconnected and a second call changes nothing, not even the world.
    When it returns an error, [Close] has failed: the error wraps its
    cause and the session stays as it was, still connected. *)
Theorem DisconnectDB_outcomes (a a' : State World) (w w' : World)
  (r : option error) :
  reachable env a w ->
  DisconnectDB a w = (r, a', w') ->
  dbConfig a' = dbConfig a /\
  (r = None -> Disconnected a' /\ DisconnectDB a' w' = (None, a', w')) /\
  (forall err, r = Some err ->
     a' = a /\ connected a = true /\
     exists i cause, introspector a = Some i /\ (Close i w).1 = Some cause /\
       err = ErrWrap "failed to close connection: " cause).
Proof.
  intros Hr Hd. destruct (reachable_consistent a w Hr) as (Hc & Hg & _).
  unfold DisconnectDB in Hd. destruct (introspector a) as [i|] eqn:Hi.
  - destruct (Close i w) as [[e|] w1] eqn:Hcl; injection Hd as <- <- <-.
    + split; [done |]. split; [done |]. intros err [= <-].
      split; [done |]. split; [apply Hc; eauto |].
      exists i, e. by rewrite Hcl.
    + split; [done |]. split; [| done]. intros _. by split.
  - injection Hd as <- <- <-. split; [done |]. split; [| done]. intros _.
    unfold Disconnected, DisconnectDB. rewrite Hi.
    split; [| done]. split; [| done].
    destruct (connected a) eqn:Hcon; [| done].
    destruct (proj1 Hc eq_refl) as [? ?]. done.
Qed.

Lemma previewLoop_keys (g : Generator World) (tableNames : list string)
  (results : gmap string string) (w : World) :
  match (previewLoop env g tableNames results w).1.2 with
  | None =>
      forall t, is_Some ((previewLoop env g tableNames results w).1.1 !! t)
                <-> t ∈ tableNames \/ is_Some (results !! t)
  | Some _ => (previewLoop env g tableNames results w).1.1 = ∅
  end.
Proof.
  revert results w. induction tableNames as [|t0 ts IH]; intros results w.
  - cbn. intros t. split; [by right |]. intros [H|H]; [| done].
    by apply not_elem_of_nil in H.
  - cbn [previewLoop].
    destruct (GenerateString env g t0 w) as [[code [e|]] w1]; [done |].
    specialize (IH (<[t0 := code]> results) w1).
    destruct (previewLoop env g ts (<[t0 := code]> results) w1)
      as [[m [e|]] w2]; [exact IH |].
    cbn in IH |- *. intros t. rewrite IH, elem_of_cons.
    destruct (decide (t0 = t)) as [->|Hne].
    + rewrite lookup_insert_eq. split; [auto | eauto].
    + rewrite lookup_insert_ne by done. split.
      * intros [?|?]; auto.
      * intros [[?|?]|?]; auto. by subst.
Qed.

(** X21: [GetCodePreviewMultiple] answers for all tables or for none:
    without an error the map has a text for exactly the requested
    tables, and with an error the map is empty, whatever was generated
    before the failing table. *)
Theorem GetCodePreviewMultiple_keys (tableNames : list string)
  (a : State World) (w w' : World) (results : gmap string string)
  (r : option error) :
  GetCodePreviewMultiple env tableNames a w = ((results, r), w') ->
  (r = None -> forall t, is_Some (results !! t) <-> t ∈ tableNames) /\
  (r <> None -> results = ∅).
Proof.
  unfold GetCodePreviewMultiple. intros H.
  destruct (connectedGenerator a) as [g|].
  - pose proof (previewLoop_keys g tableNames ∅ w) as Hk.
    rewrite H in Hk. cbn in Hk. destruct r as [e|].
    + split; [done | by intros _].
    + split; [| done]. intros _ t. rewrite Hk. split; [| auto].
      intros [?|Hs]; [done |]. rewrite lookup_empty in Hs. by destruct Hs.
  - injection H as <- <- _. split; [done | by intros _].
Qed.

(** X22: the column list of [FetchTableSchema] has one entry per
    column, in order, and the Go type it shows for a column is the type
    of the field that the session's generator builds for it. *)
Theorem FetchTableSchema_types (tableName : string) (a : State World)
  (i : DBIntrospector World) (w w' : World) (columns : list ColumnMetadata) :
  connectedIntrospector a = Some i ->
  GetColumns i tableName w = (Ok columns, w') ->
  exists infos,
    FetchTableSchema tableName a w = ((infos, None), w') /\
    ciName <$> infos = Name <$> columns /\
    ciGoType <$> infos = FieldType <$> buildFields (NewGenerator i) columns.
Proof.
  intros Ha Hc. unfold FetchTableSchema. rewrite Ha, Hc.
  eexists. split; [reflexivity |].
  rewrite foldl_snoc_fmap, buildFields_fmap. cbn [app typeMapper NewGenerator].
  rewrite <- !list_fmap_compose. split; [done |].
  apply list_fmap_ext. intros _ col _. cbn. unfold BuildStructField.
  by destruct (GetGoType NewTypeMapper (RawType col) (IsNullable col))
    as [[t ip] c].
Qed.

(** X23: what a successful [ConnectDB] leaves: a connected session
    that keeps the configuration it was given, whose driver is one of
    the three supported names, and whose generator is made of its
    introspector.  [IsPostgres] is true for the driver name postgres
    only, so it is false after a connection under the name postgresql,
    which [NewIntrospector] also gives the PostgreSQL introspector. *)
Theorem ConnectDB_success (cfg : DBConfig) (a a' : State World) (w w' : World) :
  ConnectDB env cfg a w = (None, a', w') ->
  connected a' = true /\
  dbConfig a' = Some cfg /\
  Driver cfg ∈ ["mysql"; "postgres"; "postgresql"] /\
  (exists i, introspector a' = Some i /\ generator a' = Some (NewGenerator i)) /\
  IsPostgres a' = String.eqb (Driver cfg) "postgres" /\
  (Driver cfg = "postgresql" -> IsPostgres a' = false) /\
  GetConnectionStatus a'
  = mkConnectionStatus true (Driver cfg) (Host cfg) (DBName cfg) "".
Proof.
  unfold ConnectDB. intros H.
  assert (Hgoal : forall (a0 : State World) (w0 : World),
    match NewIntrospector env cfg w0 with
    | (Err err, w) => (Some (ErrWrap "failed to create introspector: " err), a0, w)
    | (Ok i, w) =>
        match Connect i w with
        | (Some err, w) =>
            (Some (ErrWrap "failed to connect to database: " err), a0, w)
        | (None, w) =>
            match SaveConfig env (mkConfig cfg (mkGeneratorConfig "*" "./models")) w with
            | (Some err, w) =>
                (None, mkState (Some i) (Some cfg) (Some (NewGenerator i)) true,
                 log_Printf env ("Warning: Could not save config: " +:+ Error err) w)
            | (None, w) =>
                (None, mkState (Some i) (Some cfg) (Some (NewGenerator i)) true, w)
            end
        end
    end = (None, a', w') ->
    Driver cfg ∈ ["mysql"; "postgres"; "postgresql"] /\
    exists i, a' = mkState (Some i) (Some cfg) (Some (NewGenerator i)) true).
  { intros a0 w0 H0.
    destruct (NewIntrospector env cfg w0) as [[j|e] w2] eqn:Hn; [| done].
    split.
    - unfold NewIntrospector in Hn.
      destruct (String.eqb_spec (Driver cfg) "mysql") as [->|_]; [set_solver |].
      destruct (String.eqb_spec (Driver cfg) "postgres") as [->|_]; [set_solver |].
      destruct (String.eqb_spec (Driver cfg) "postgresql") as [->|_]; [set_solver |].
      done.
    - destruct (Connect j w2) as [[e|] w3]; [done |].
      destruct (SaveConfig env _ w3) as [[e|] w4]; injection H0 as <- _;
        by exists j. }
  assert (Hres : Driver cfg ∈ ["mysql"; "postgres"; "postgresql"] /\
    exists i, a' = mkState (Some i) (Some cfg) (Some (NewGenerator i)) true).
  { destruct (introspector a) as [i|].
    - destruct (Close i w) as [r w1].
      exact (Hgoal (mkState None (dbConfig a) None false) w1 H).
    - exact (Hgoal a w H). }
  destruct Hres as [Hdrv [i ->]]. cbn.
  split; [done |]. split; [done |]. split; [exact Hdrv |].
  split; [by exists i |]. split; [done |]. split; [by intros -> | done].
Qed.

(** X24: [NewIntrospector] accepts the driver names mysql, postgres
    and postgresql, spelled exactly so, and nothing else; any other
    name gives the error that quotes it, in the world as it was. *)
Theorem NewIntrospector_drivers (cfg : DBConfig) (w : World) :
  ((exists i w', NewIntrospector env cfg w = (Ok i, w'))
   <-> Driver cfg ∈ ["mysql"; "postgres"; "postgresql"]) /\
  (Driver cfg ∉ ["mysql"; "postgres"; "postgresql"] ->
   NewIntrospector env cfg w
   = (Err (ErrNew ("unsupported database driver: " +:+ Driver cfg)), w)).
Proof.
  unfold NewIntrospector. rewrite !elem_of_cons, elem_of_nil.
  destruct (String.eqb_spec (Driver cfg) "mysql") as [Hm|Hm].
  { destruct (NewMySQLIntrospector env cfg w) as [i w1].
    split; [split; eauto | intros Hn; exfalso; auto]. }
  destruct (String.eqb_spec (Driver cfg) "postgres") as [Hp|Hp].
  { cbn [orb]. destruct (NewPostgresIntrospector env cfg w) as [i w1].
    split; [split; eauto | intros Hn; exfalso; auto]. }
  destruct (String.eqb_spec (Driver cfg) "postgresql") as [Hq|Hq].
  { cbn [orb]. destruct (NewPostgresIntrospector env cfg w) as [i w1].
    split; [split; eauto | intros Hn; exfalso; auto]. }
  cbn [orb]. split; [| done]. split.
  - by intros [i [w1 ?]].
  - intros [?|[?|[?|[]]]]; done.
Qed.

End SessionMore.

(** X20: [SaveAllToDirectory] runs the loop of [SaveSelectedToDirectory]
    on the tables that [GetTables] lists, and ends in the same world, so
    the same files are written; but when a table fails it returns no
    path at all, where [SaveSelectedToDirectory] returns the paths
    written so far, and it wraps the error once more. *)
Theorem SaveAllToDirectory_selected {World : Type} (env : Env World)
  (a : App.State World) (g : Generator World)
  (outputDir : string) (w w0 : World) (tables : list string) :
  App.connectedGenerator a = Some g ->
  GetTables (introspector g) w = (Ok tables, w0) ->
  App.SaveAllToDirectory env outputDir a w
  = ((match (App.SaveSelectedToDirectory env tables outputDir a w0).1.2 with
      | None => (App.SaveSelectedToDirectory env tables outputDir a w0).1.1
      | Some _ => []
      end,
      ErrWrap "failed to generate all tables: "
        <$> (App.SaveSelectedToDirectory env tables outputDir a w0).1.2),
     (App.SaveSelectedToDirectory env tables outputDir a w0).2).
Proof.
  intros Ha Ht.
  unfold App.SaveAllToDirectory, App.SaveSelectedToDirectory, GenerateAll.
  rewrite Ha, Ht.
  by destruct (generateLoop env g outputDir tables [] w0) as [[paths [e|]] w1].
Qed.

Lemma session_consistent_witness :
  let env := Scenario.env true in
  let s1 := App.perform env (App.CallConnectDB Scenario_goodConfig) App.NewApp [] in
  App.reachable env s1.1 s1.2 /\
  App.connectedGenerator s1.1 = Some Scenario.generator.
Proof.
  intros env s1.
  assert (Hr : App.reachable env s1.1 s1.2).
  { apply App.reachable_call, App.reachable_new. }
  split; [exact Hr |].
  exact (proj1 (proj2 (proj2 (session_consistent env s1.1 s1.2 Hr)))).
Defined.

Lemma DisconnectDB_outcomes_witness :
  let env := Scenario.env true in
  let s1 := App.perform env (App.CallConnectDB Scenario_goodConfig) App.NewApp [] in
  let s2 := App.mkState None (Some Scenario_goodConfig) None false in
  App.DisconnectDB s1.1 s1.2 = (None, s2, [Scenario.EvClose]) /\
  App.Disconnected s2 /\
  App.DisconnectDB s2 [Scenario.EvClose] = (None, s2, [Scenario.EvClose]).
Proof.
  intros env s1 s2. split; [reflexivity |].
  assert (Hr : App.reachable env s1.1 s1.2).
  { apply App.reachable_call, App.reachable_new. }
  exact (proj1 (proj2 (DisconnectDB_outcomes env s1.1 s2 s1.2
                         [Scenario.EvClose] None Hr eq_refl)) eq_refl).
Defined.

Lemma SaveAllToDirectory_selected_witness :
  let env := Scenario.env true in
  let s1 := App.perform env (App.CallConnectDB Scenario_goodConfig) App.NewApp [] in
  (App.SaveAllToDirectory env "out" s1.1 []).1.1 = [] /\
  (App.SaveSelectedToDirectory env Scenario.tables "out" s1.1
     [Scenario.EvGetTables]).1.1 = ["out/accounts.go"] /\
  (App.SaveAllToDirectory env "out" s1.1 []).2
  = (App.SaveSelectedToDirectory env Scenario.tables "out" s1.1
       [Scenario.EvGetTables]).2.
Proof.
  intros env s1.
  pose proof (SaveAllToDirectory_selected env s1.1 Scenario.generator "out"
                [] [Scenario.EvGetTables] Scenario.tables eq_refl eq_refl) as H.
  split; [by rewrite H |]. split; [reflexivity | by rewrite H].
Defined.

Lemma GetCodePreviewMultiple_keys_witness :
  let env := Scenario.env true in
  let s1 := App.perform env (App.CallConnectDB Scenario_goodConfig) App.NewApp [] in
  let r := App.GetCodePreviewMultiple env ["accounts"; "customers"] s1.1 [] in
  r.1.2 = None /\
  forall t, is_Some (r.1.1 !! t) <-> t ∈ ["accounts"; "customers"].
Proof.
  intros env s1 r. split; [reflexivity |].
  apply (proj1 (GetCodePreviewMultiple_keys env ["accounts"; "customers"]
                  s1.1 [] r.2 r.1.1 r.1.2 eq_refl)).
  reflexivity.
Defined.

Lemma FetchTableSchema_types_witness :
  let env := Scenario.env true in
  let s1 := App.perform env (App.CallConnectDB Scenario_goodConfig) App.NewApp [] in
  exists infos,
    App.FetchTableSchema "accounts" s1.1 [] = ((infos, None), []) /\
    App.ciGoType <$> infos = ["uint32"; "string"].
Proof.
  intros env s1.
  destruct (FetchTableSchema_types "accounts" s1.1 Scenario.introspector
              [] [] [idColumn; emailColumn] eq_refl eq_refl)
    as [infos [H1 [_ H3]]].
  exists infos. split; [exact H1 |]. rewrite H3. reflexivity.
Defined.

Lemma ConnectDB_success_witness :
  let env := Scenario.env true in
  let r := App.ConnectDB env Scenario_goodConfig App.NewApp [] in
  r.1.1 = None /\
  App.connected r.1.2 = true /\
  App.dbConfig r.1.2 = Some Scenario_goodConfig /\
  App.IsPostgres r.1.2 = false.
Proof.
  intros env r. split; [reflexivity |].
  pose proof (ConnectDB_success env Scenario_goodConfig App.NewApp r.1.2
                [] r.2 eq_refl) as (Hc & Hd & _ & _ & Hp & _).
  split; [exact Hc |]. split; [exact Hd |]. rewrite Hp. reflexivity.
Defined.

(** ** The PostgreSQL introspector *)

Section SizedTypes.

Lemma bytes_all_impl (P Q : ascii -> Prop) (s : string) :
  (forall c, P c -> Q c) -> bytes_all P s -> bytes_all Q s.
Proof.
  intros HPQ. induction s as [|c s IH]; [done |].
  intros [Hc Hs]. split; [by apply HPQ | by apply IH].
Qed.

Lemma pretty_N_char_digit (x : N) : is_digit (pretty_N_char x) = true.
Proof. unfold pretty_N_char. by repeat case_match. Qed.

Lemma pretty_N_go_bytes (x : N) (s : string) :
  bytes_all sizeByte s -> bytes_all sizeByte (pretty_N_go x s).
Proof.
  revert s. induction (N.lt_wf_0 x) as [x _ IH]; intros s Hs.
  assert (x = 0 \/ 0 < x)%N as [->|Hx] by lia.
  - by rewrite pretty_N_go_0.
  - rewrite pretty_N_go_step by done. apply IH.
    { by apply N.div_lt. }
    split; [| done]. left. apply pretty_N_char_digit.
Qed.

Lemma pretty_N_bytes (x : N) : bytes_all sizeByte (pretty x).
Proof.
  unfold pretty, pretty_N. destruct (decide (x = 0%N)).
  - split; [by left | done].
  - by apply pretty_N_go_bytes.
Qed.

Lemma pretty_Z_bytes (x : Z) : bytes_all sizeByte (pretty x).
Proof.
  unfold pretty, pretty_Z. destruct x as [|p|p].
  - split; [by left | done].
  - apply pretty_N_bytes.
  - split; [right; by left | apply pretty_N_bytes].
Qed.

Lemma TrimRight_paren (X : string) : TrimRight (X +:+ ")") = X +:+ ")".
Proof.
  induction X as [|c X IH]; [done |].
  cbn [String.append]. rewrite TrimRight_cons, IH. by destruct X.
Qed.

Lemma prefix_bytes_all (P : ascii -> Prop) (sub s : string) :
  String.prefix sub s = true -> bytes_all P s -> bytes_all P sub.
Proof.
  revert s. induction sub as [|a sub IH]; intros s Hp Hs; [done |].
  destruct s as [|c s]; [done |]. cbn [String.prefix] in Hp.
  destruct (ascii_dec a c) as [->|]; [| done].
  destruct Hs as [Hc Hs]. split; [done | by apply (IH s)].
Qed.

(** A text has no occurrence of a word that holds a byte the text
    lacks. *)
Lemma Index_absent_byte (P : ascii -> Prop) (s sub : string) :
  bytes_all P s -> ~ bytes_all P sub -> Index s sub = None.
Proof.
  intros Hs Hsub. induction s as [|c s IH]; cbn [Index].
  - destruct (String.prefix sub "") eqn:Hp; [| done].
    exfalso. apply Hsub. by apply (prefix_bytes_all P sub "").
  - destruct (String.prefix sub (String c s)) eqn:Hp.
    + exfalso. apply Hsub. by apply (prefix_bytes_all P sub (String c s)).
    + destruct Hs as [_ Hs]. by rewrite (IH Hs).
Qed.

Lemma Index_append_single (a : ascii) (p rest : string) :
  bytes_all (fun c => c <> a) p ->
  Index (p +:+ String a rest) (String a "") = Some (len p).
Proof.
  induction p as [|c p IH]; intros Hp.
  - cbn [String.append Index]. rewrite prefix_single.
    by destruct (ascii_dec a a).
  - destruct Hp as [Hc Hp]. cbn [String.append Index].
    rewrite prefix_single. destruct (ascii_dec a c) as [->|_]; [done |].
    by rewrite (IH Hp).
Qed.

Lemma extractBaseType_sized (base X : string) :
  bytes_all (fun c => c <> "("%char) base ->
  TrimSpace base = base ->
  extractBaseType (base +:+ "(" +:+ X +:+ ")") = base.
Proof.
  intros Hb Ht. unfold extractBaseType.
  change (base +:+ "(" +:+ X +:+ ")") with (base +:+ String "(" (X +:+ ")")).
  rewrite Index_append_single by done.
  by rewrite slice_to_append.
Qed.

Lemma typeMap_keys (k : string) (m : TypeMapping) :
  typeMap NewTypeMapper !! k = Some m ->
  HasPrefix k "varchar(" = false /\ HasPrefix k "numeric(" = false /\
  HasPrefix k "[" = false.
Proof.
  intros H. apply typeMap_assigned in H.
  assert (Hall : forallb (fun kv : string * TypeMapping =>
                   negb (HasPrefix kv.1 "varchar(")
                   && negb (HasPrefix kv.1 "numeric(")
                   && negb (HasPrefix kv.1 "["))
                 typeAssignments = true) by (by vm_compute).
  rewrite forallb_forall in Hall.
  specialize (Hall (k, m) (proj1 (list_elem_of_In _ _) H)). cbn [fst] in Hall.
  apply andb_true_iff in Hall as [Hall H3].
  apply andb_true_iff in Hall as [H1 H2].
  by rewrite !negb_true_iff in *.
Qed.

Lemma sizeByte_plain (c : ascii) :
  sizeByte c -> is_upper c = false /\ c <> "s"%char.
Proof.
  intros [Hd|[->| ->]]; [| done | done].
  unfold is_digit, is_upper, byte_in in *.
  split.
  - apply andb_true_iff in Hd as [_ Hd]. apply N.leb_le in Hd.
    apply andb_false_iff. left. apply N.leb_gt. lia.
  - intros ->. by vm_compute in Hd.
Qed.

(** A sized varchar or numeric type is looked up as its base type. *)
Lemma GetGoType_sized (base X : string) (isNullable : bool) :
  base = "varchar" \/ base = "numeric" ->
  bytes_all sizeByte X ->
  GetGoType NewTypeMapper (base +:+ "(" +:+ X +:+ ")") isNullable
  = GetGoType NewTypeMapper base isNullable.
Proof.
  intros Hbase HX.
  assert (Hlow : lowercase X).
  { eapply bytes_all_impl; [| exact HX]. intros c Hc.
    by apply sizeByte_plain. }
  assert (Hs : bytes_all (fun c => c <> "s"%char) X).
  { eapply bytes_all_impl; [| exact HX]. intros c Hc.
    by apply sizeByte_plain. }
  destruct Hbase as [-> | ->].
  - set (raw := "varchar" +:+ "(" +:+ X +:+ ")").
    assert (Hn : ToLower (TrimSpace raw) = raw).
    { unfold TrimSpace, raw.
      change ("varchar" +:+ "(" +:+ X +:+ ")")
        with ("varchar(" +:+ (X +:+ ")")).
      rewrite <- append_assoc, TrimRight_paren, append_assoc.
      apply lowercase_ToLower. unfold lowercase.
      apply bytes_all_append; [by vm_compute |].
      apply bytes_all_append; [exact Hlow | by vm_compute]. }
    transitivity ("string", "", ""); [| by vm_compute].
    unfold GetGoType. rewrite Hn.
    assert (Hu : Contains raw "unsigned" = false).
    { unfold Contains.
      rewrite (Index_absent_byte (fun c => c <> "s"%char)); [done | |].
      - unfold raw. apply bytes_all_append; [by vm_compute |].
        apply bytes_all_append; [by vm_compute |].
        apply bytes_all_append; [exact Hs | by vm_compute].
      - intros (_ & _ & H & _). done. }
    rewrite Hu.
    change (HasPrefix raw "tinyint(1)") with false. cbn [andb].
    destruct (typeMap NewTypeMapper !! raw) as [m|] eqn:Hm.
    { apply typeMap_keys in Hm as [Hm _]. unfold HasPrefix in Hm.
      change raw with ("varchar(" +:+ (X +:+ ")")) in Hm.
      by rewrite prefix_append in Hm. }
    assert (Hb : extractBaseType raw = "varchar").
    { apply (extractBaseType_sized _ X); [| reflexivity].
      cbn; repeat split; discriminate. }
    rewrite Hb. by vm_compute.
  - set (raw := "numeric" +:+ "(" +:+ X +:+ ")").
    assert (Hn : ToLower (TrimSpace raw) = raw).
    { unfold TrimSpace, raw.
      change ("numeric" +:+ "(" +:+ X +:+ ")")
        with ("numeric(" +:+ (X +:+ ")")).
      rewrite <- append_assoc, TrimRight_paren, append_assoc.
      apply lowercase_ToLower. unfold lowercase.
      apply bytes_all_append; [by vm_compute |].
      apply bytes_all_append; [exact Hlow | by vm_compute]. }
    transitivity ("float64", "", ""); [| by vm_compute].
    unfold GetGoType. rewrite Hn.
    assert (Hu : Contains raw "unsigned" = false).
    { unfold Contains.
      rewrite (Index_absent_byte (fun c => c <> "s"%char)); [done | |].
      - unfold raw. apply bytes_all_append; [by vm_compute |].
        apply bytes_all_append; [by vm_compute |].
        apply bytes_all_append; [exact Hs | by vm_compute].
      - intros (_ & _ & H & _). done. }
    rewrite Hu.
    change (HasPrefix raw "tinyint(1)") with false. cbn [andb].
    destruct (typeMap NewTypeMapper !! raw) as [m|] eqn:Hm.
    { apply typeMap_keys in Hm as (_ & Hm & _). unfold HasPrefix in Hm.
      change raw with ("numeric(" +:+ (X +:+ ")")) in Hm.
      by rewrite prefix_append in Hm. }
    assert (Hb : extractBaseType raw = "numeric").
    { apply (extractBaseType_sized _ X); [| reflexivity].
      cbn; repeat split; discriminate. }
    rewrite Hb. by vm_compute.
Qed.

End SizedTypes.

(** X25: the type mapper understands what the PostgreSQL introspector
    reads.  For each of the catalog type names that [normalizeDataType]
    knows, the raw type that [buildRawType] makes is found in the type
    table, with the Go type listed in [Postgres_udtTypes] and an empty
    note, whatever the declared data type, length, precision and scale
    are, a sized varchar included; and a numeric column gets float64
    with or without precision and scale. *)
Theorem Postgres_known_types :
  forall (udtName goType : string),
    (udtName, goType) ∈ Postgres_udtTypes ->
    forall (dataType : string) (charMaxLength numericPrecision numericScale
              : option Z) (isNullable : bool),
      let rawType := Postgres.buildRawType dataType udtName charMaxLength
                       numericPrecision numericScale in
      (GetGoType NewTypeMapper rawType isNullable).1.1 = goType /\
      (GetGoType NewTypeMapper rawType isNullable).2 = "" /\
      GetGoType NewTypeMapper
        (Postgres.buildRawType "numeric" "numeric" charMaxLength
           numericPrecision numericScale) isNullable
      = ("float64", "", "").
Proof.
  intros udtName goType Hin dataType cm np ns isNullable. cbn zeta.
  assert (Hnum : GetGoType NewTypeMapper
                   (Postgres.buildRawType "numeric" "numeric" cm np ns)
                   isNullable = ("float64", "", "")).
  { unfold Postgres.buildRawType.
    change (Postgres.normalizeDataType "numeric" "numeric") with "numeric".
    cbn [String.eqb Ascii.eqb Bool.eqb orb andb].
    destruct np as [p|]; [| by vm_compute].
    assert (Hp : GetGoType NewTypeMapper ("numeric(" +:+ pretty p +:+ ")")
                   isNullable = ("float64", "", "")).
    { etransitivity;
        [exact (GetGoType_sized "numeric" (pretty p) isNullable
                  (or_intror eq_refl) (pretty_Z_bytes p))
        | by vm_compute]. }
    destruct ns as [s|]; [| exact Hp].
    destruct (0 <? s)%Z; [| exact Hp].
    assert (Hps : bytes_all sizeByte (pretty p +:+ "," +:+ pretty s)).
    { apply bytes_all_append; [apply pretty_Z_bytes |].
      split; [right; by right | apply pretty_Z_bytes]. }
    etransitivity;
      [| exact (eq_trans (GetGoType_sized "numeric" _ isNullable
                            (or_intror eq_refl) Hps) eq_refl)].
    f_equal. cbn [String.append]. do 8 f_equal.
    by rewrite !append_assoc. }
  assert (Hvar : forall udt, udt = "varchar" \/ udt = "bpchar" ->
    GetGoType NewTypeMapper
      (Postgres.buildRawType dataType udt cm np ns) isNullable
    = ("string", "", "")).
  { intros udt Hu. unfold Postgres.buildRawType.
    assert (Hnorm : Postgres.normalizeDataType dataType udt = "varchar")
      by (by destruct Hu as [-> | ->]).
    rewrite Hnorm. cbn [String.eqb Ascii.eqb Bool.eqb orb andb].
    destruct cm as [n|]; [| by vm_compute].
    etransitivity;
      [exact (GetGoType_sized "varchar" (pretty n) isNullable
                (or_introl eq_refl) (pretty_Z_bytes n))
      | by vm_compute]. }
  unfold Postgres_udtTypes in Hin.
  repeat (apply elem_of_cons in Hin as [Hin|Hin];
          [injection Hin as -> ->;
           first [ rewrite Hvar by auto; by repeat split
                 | split; [by vm_compute |]; split; [by vm_compute | exact Hnum] ]
          |]).
  by apply not_elem_of_nil in Hin.
Qed.

Lemma Postgres_known_types_witness :
  ("bpchar", "string") ∈ Postgres_udtTypes /\
  (GetGoType NewTypeMapper
     (Postgres.buildRawType "character" "bpchar" (Some 36%Z) None None)
     false).1.1 = "string".
Proof.
  assert (H : ("bpchar", "string") ∈ Postgres_udtTypes).
  { unfold Postgres_udtTypes. do 7 apply list_elem_of_further.
    apply list_elem_of_here. }
  split; [exact H |].
  exact (proj1 (Postgres_known_types _ _ H "character" (Some 36%Z) None None
                  false)).
Defined.

Section ArrayTypes.

Lemma TrimRight_head (c : ascii) (s : string) :
  is_space c = false -> exists t, TrimRight (String c s) = String c t.
Proof.
  intros Hc. rewrite TrimRight_cons. destruct (TrimRight s) as [|b t].
  - rewrite Hc. by exists "".
  - by exists (String b t).
Qed.

Lemma TrimSpace_head (c : ascii) (s : string) :
  is_space c = false -> exists t, TrimSpace (String c s) = String c t.
Proof.
  intros Hc. unfold TrimSpace.
  destruct (TrimRight_head c s Hc) as [t ->]. cbn [TrimLeft]. rewrite Hc.
  by exists t.
Qed.

(** The base type of a text that starts with a bracket starts with a
    bracket. *)
Lemma extractBaseType_head (t : string) :
  exists t', extractBaseType (String "[" t) = String "[" t'.
Proof.
  unfold extractBaseType. cbn [Index]. rewrite prefix_single.
  destruct (ascii_dec "(" "[") as [|_]; [done |].
  destruct (Index t "(") as [idx|]; cbn [fmap option_fmap option_map].
  - cbn [slice_to]. by apply TrimSpace_head.
  - by exists t.
Qed.

Lemma typeMap_bracket (t : string) :
  typeMap NewTypeMapper !! String "[" t = None.
Proof.
  destruct (typeMap NewTypeMapper !! String "[" t) as [m|] eqn:Hm; [| done].
  apply typeMap_keys in Hm as (_ & _ & Hm). unfold HasPrefix in Hm.
  rewrite prefix_single in Hm. by destruct (ascii_dec "[" "[").
Qed.

End ArrayTypes.

(** X26: an array column of PostgreSQL never gets a Go type of its
    own.  For a catalog type name that starts with an underscore,
    [buildRawType] writes two brackets and the rest of the name, and no
    lookup of [GetGoType] finds that: the field is an interface{} with
    the note unknown type. *)
Theorem Postgres_array_fallback (udtName : string)
  (charMaxLength numericPrecision numericScale : option Z) (isNullable : bool) :
  HasPrefix udtName "_" = true ->
  Postgres.buildRawType "ARRAY" udtName charMaxLength numericPrecision
    numericScale = "[]" +:+ slice_from udtName 1 /\
  GetGoType NewTypeMapper
    (Postgres.buildRawType "ARRAY" udtName charMaxLength numericPrecision
       numericScale) isNullable
  = ("interface{}", "", "// unknown type: []" +:+ slice_from udtName 1).
Proof.
  intros Hp. destruct udtName as [|c rest]; [done |].
  unfold HasPrefix in Hp. rewrite prefix_single in Hp.
  destruct (ascii_dec "_" c) as [<-|]; [| done]. clear Hp.
  assert (Hnorm : Postgres.normalizeDataType "ARRAY" (String "_" rest)
                  = "[]" +:+ rest).
  { unfold Postgres.normalizeDataType, HasPrefix. rewrite prefix_single.
    destruct (ascii_dec "_" "_"); [| done].
    cbn. by rewrite slice_from_0. }
  assert (Hraw : Postgres.buildRawType "ARRAY" (String "_" rest) charMaxLength
                   numericPrecision numericScale = "[]" +:+ rest).
  { unfold Postgres.buildRawType. by rewrite Hnorm. }
  rewrite Hraw. cbn [slice_from]. rewrite slice_from_0.
  split; [reflexivity |].
  unfold GetGoType, applyNullable.
  destruct (TrimSpace_head "[" (String "]" rest) eq_refl) as [t Ht].
  change ("[]" +:+ rest) with (String "[" (String "]" rest)).
  rewrite Ht. change (ToLower (String "[" t)) with (String "[" (ToLower t)).
  destruct (extractBaseType_head (ToLower t)) as [t' ->].
  change (String "[" t' +:+ " unsigned") with (String "[" (t' +:+ " unsigned")).
  rewrite !typeMap_bracket.
  replace (HasPrefix (String "[" (ToLower t)) "tinyint(1)") with false
    by (unfold HasPrefix; cbn [String.prefix]; by destruct (ascii_dec "t" "[")).
  cbn [andb]. by destruct (Contains _ _).
Qed.

Lemma Postgres_array_fallback_witness :
  GetGoType NewTypeMapper
    (Postgres.buildRawType "ARRAY" "_int4" None (Some 32%Z) (Some 0%Z)) true
  = ("interface{}", "", "// unknown type: []int4").
Proof.
  exact (proj2 (Postgres_array_fallback "_int4" None (Some 32%Z) (Some 0%Z)
                  true eq_refl)).
Defined.

Lemma cleanDefaultValue_nextval (d : string) :
  Contains d "nextval" = true -> cleanDefaultValue d = "".
Proof. intros H. unfold cleanDefaultValue. by rewrite H. Qed.

(** X27: a PostgreSQL column whose default calls nextval (a serial
    column) is marked auto-increment, and its gorm tag carries the
    attribute autoIncrement and no default attribute, whether or not it
    is a primary key. *)
Theorem Postgres_serial_tag (r : Postgres.ColumnRow) (d : string)
  (pkColumns : gmap string bool) :
  Postgres.columnDefault r = Some d ->
  Contains d "nextval" = true ->
  let col := Postgres.markPrimaryKey pkColumns (Postgres.columnOfRow r) in
  IsAutoIncrement col = true /\
  "autoIncrement" ∈ gormParts col /\
  (forall part, part ∈ gormParts col -> HasPrefix part "default:" = false).
Proof.
  intros Hd Hn. cbn zeta.
  assert (Hcol : IsAutoIncrement
                   (Postgres.markPrimaryKey pkColumns (Postgres.columnOfRow r))
                 = true /\
                 DefaultValue
                   (Postgres.markPrimaryKey pkColumns (Postgres.columnOfRow r))
                 = Some d).
  { unfold Postgres.markPrimaryKey.
    destruct (pkColumns !! _); cbn; by rewrite Hd. }
  destruct Hcol as [Ha Hdef]. split; [exact Ha |].
  rewrite gormParts_eq, Ha, Hdef, (cleanDefaultValue_nextval d Hn).
  cbn [String.eqb]. split.
  - rewrite !elem_of_app. right. left. apply list_elem_of_here.
  - intros part. rewrite !elem_of_app.
    intros [H|[H|[H|[H|[H|H]]]]].
    + destruct (IsPrimaryKey _); [| by apply not_elem_of_nil in H].
      by apply list_elem_of_singleton in H as ->.
    + by apply list_elem_of_singleton in H as ->.
    + by apply list_elem_of_singleton in H as ->.
    + by apply list_elem_of_singleton in H as ->.
    + by apply not_elem_of_nil in H.
    + destruct (_ && _); [| by apply not_elem_of_nil in H].
      by apply list_elem_of_singleton in H as ->.
Qed.

Lemma Postgres_serial_tag_witness :
  let r := Postgres.mkColumnRow "id" "integer" "int4" "NO"
             (Some "nextval('users_id_seq'::regclass)") None (Some 32%Z)
             (Some 0%Z) 1 "" in
  BuildGormTag (Postgres.markPrimaryKey {["id" := true]} (Postgres.columnOfRow r))
  = "gorm:" +:+ dquote +:+ "primaryKey;autoIncrement;column:id;type:integer"
    +:+ dquote /\
  "autoIncrement"
  ∈ gormParts (Postgres.markPrimaryKey {["id" := true]} (Postgres.columnOfRow r)).
Proof.
  intros r. split; [by vm_compute |].
  exact (proj1 (proj2 (Postgres_serial_tag r _ {["id" := true]} eq_refl
                         eq_refl))).
Defined.

Lemma foldl_insert_true (rows : list string) (m : gmap string bool)
  (k : string) :
  is_Some (foldl (fun pkColumns columnName => <[columnName := true]> pkColumns)
                 m rows !! k)
  <-> k ∈ rows \/ is_Some (m !! k).
Proof.
  revert m. induction rows as [|c rows IH]; intros m; cbn [foldl].
  - split; [by right |]. intros [H|H]; [by apply not_elem_of_nil in H | done].
  - rewrite IH, elem_of_cons. destruct (decide (c = k)) as [->|Hne].
    + rewrite lookup_insert_eq. split; [auto | eauto].
    + rewrite lookup_insert_ne by done. split.
      * intros [?|?]; auto.
      * intros [[?|?]|?]; auto. by subst.
Qed.

(** X28: when both queries of the PostgreSQL [GetColumns] succeed,
    it returns one column per row, in the order of the rows; a column
    is a primary key exactly when its name is among the names the
    primary-key query returned, and the rest of the column is what the
    row alone gives. *)
Theorem Postgres_GetColumns_primary_keys (rows : list Postgres.ColumnRow)
  (pkRows : list string) :
  exists columns,
    Postgres.GetColumns (Postgres.QueryRows rows None)
      (Postgres.QueryRows pkRows None) = Ok columns /\
    Forall2 (fun r col =>
               (IsPrimaryKey col = true <-> Postgres.columnName r ∈ pkRows) /\
               Name col = Postgres.columnName r /\
               DataType col = DataType (Postgres.columnOfRow r) /\
               RawType col = RawType (Postgres.columnOfRow r) /\
               IsNullable col = IsNullable (Postgres.columnOfRow r) /\
               IsAutoIncrement col = IsAutoIncrement (Postgres.columnOfRow r) /\
               DefaultValue col = DefaultValue (Postgres.columnOfRow r) /\
               Comment col = Comment (Postgres.columnOfRow r))
            rows columns.
Proof.
  eexists. split; [reflexivity |].
  rewrite <- list_fmap_compose. apply Forall2_fmap_r, Forall_Forall2_diag.
  apply Forall_forall. intros r _. cbn [compose].
  unfold Postgres.markPrimaryKey. cbn [Name Postgres.columnOfRow].
  pose proof (foldl_insert_true pkRows ∅ (Postgres.columnName r)) as Hk.
  destruct (foldl _ ∅ pkRows !! Postgres.columnName r) as [b|] eqn:Hl.
  - assert (Hin : Postgres.columnName r ∈ pkRows).
    { destruct (proj1 Hk) as [?|[? H]]; [eauto | done |].
      by rewrite lookup_empty in H. }
    cbn. done.
  - assert (Hin : Postgres.columnName r ∉ pkRows).
    { intros Hin. destruct (proj2 Hk (or_introl Hin)) as [? ?]. done. }
    cbn. split; [| done]. split; [done | intros ?; done].
Qed.

(** ** The MySQL introspector *)

Lemma gormParts_markers (col : ColumnMetadata) :
  ("primaryKey" ∈ gormParts col <-> IsPrimaryKey col = true) /\
  ("autoIncrement" ∈ gormParts col <-> IsAutoIncrement col = true) /\
  ("not null" ∈ gormParts col
   <-> IsNullable col = false /\ IsPrimaryKey col = false).
Proof.
  rewrite gormParts_eq.
  assert (Hd : forall marker : string,
    marker = "primaryKey" \/ marker = "autoIncrement" \/ marker = "not null" ->
    marker ∉ match DefaultValue col with
             | Some d =>
                 if String.eqb (cleanDefaultValue d) "" then []
                 else ["default:" +:+ cleanDefaultValue d]
             | None => []
             end).
  { intros marker Hm Hin. destruct (DefaultValue col) as [d|];
      [| by apply not_elem_of_nil in Hin].
    destruct (String.eqb _ ""); [by apply not_elem_of_nil in Hin |].
    apply list_elem_of_singleton in Hin.
    destruct Hm as [-> | [-> | ->]]; done. }
  pose proof (Hd "primaryKey" (or_introl eq_refl)) as Hd1.
  pose proof (Hd "autoIncrement" (or_intror (or_introl eq_refl))) as Hd2.
  pose proof (Hd "not null" (or_intror (or_intror eq_refl))) as Hd3.
  rewrite !elem_of_app, !list_elem_of_singleton.
  destruct (IsPrimaryKey col), (IsAutoIncrement col), (IsNullable col);
    cbn [negb andb];
    rewrite ?list_elem_of_singleton, ?elem_of_nil;
    (split; [| split]); split;
    try (intros [?|[?|[?|[?|[?|?]]]]]; done);
    try (intros [? ?]; done); try done; auto 10.
Qed.

(** X29: from a row of the MySQL catalog to the gorm tag.  The
    attribute primaryKey is there exactly when the column key is PRI,
    autoIncrement exactly when the extra text holds auto_increment, and
    not null exactly when the nullable text is not YES and the key is
    not PRI; the texts are compared as they are, in capitals. *)
Theorem MySQL_row_tag (r : MySQL.ColumnRow) :
  let col := MySQL.columnOfRow r in
  ("primaryKey" ∈ gormParts col <-> MySQL.columnKey r = Some "PRI") /\
  ("autoIncrement" ∈ gormParts col
   <-> exists x, MySQL.extra r = Some x /\ Contains x "auto_increment" = true) /\
  ("not null" ∈ gormParts col
   <-> MySQL.isNullable r <> "YES" /\ MySQL.columnKey r <> Some "PRI").
Proof.
  cbn zeta. destruct (gormParts_markers (MySQL.columnOfRow r)) as (H1 & H2 & H3).
  rewrite H1, H2, H3. cbn [MySQL.columnOfRow IsPrimaryKey IsAutoIncrement IsNullable].
  split; [| split].
  - destruct (MySQL.columnKey r) as [k|]; [| done].
    rewrite String.eqb_eq. split; [by intros -> | by intros [= ->]].
  - destruct (MySQL.extra r) as [x|].
    + split; [eauto | by intros [? [[= <-] ?]]].
    + split; [done | by intros [? [? ?]]].
  - rewrite String.eqb_neq.
    destruct (MySQL.columnKey r) as [k|].
    + rewrite String.eqb_neq. split; intros [? Hk]; split; try done;
        [by intros [= ->] | by intros ->].
    + split; intros [? ?]; by split.
Qed.

(** ** Quotes in enum values *)

Section NoQuote.

Lemma star_not_quote (fuel : nat) (s : string) (c : Regexp.caps)
  (m : Regexp.caps * string) :
  m ∈ Regexp.star_run (Regexp.run (Regexp.Class Regexp.not_quote)) fuel s c ->
  m.1 = c /\ exists pre, s = pre +:+ m.2 /\ bytes_all noQuote pre.
Proof.
  revert s. induction fuel as [|fuel IH]; intros s Hm.
  - apply list_elem_of_singleton in Hm as ->. split; [done |]. by exists "".
  - cbn [Regexp.star_run] in Hm. apply elem_of_app in Hm as [Hm|Hm].
    + apply list_elem_of_bind in Hm as [m1 [Hm Hm1]].
      cbn [Regexp.run] in Hm1. destruct s as [|b s];
        [by apply not_elem_of_nil in Hm1 |].
      destruct (Regexp.not_quote b) eqn:Hb; [| by apply not_elem_of_nil in Hm1].
      apply list_elem_of_singleton in Hm1 as ->. cbn [fst snd] in Hm.
      destruct (len s <? len (String b s))%nat; [| by apply not_elem_of_nil in Hm].
      destruct (IH s Hm) as [Hc [pre [Hs Hpre]]].
      split; [done |]. exists (String b pre). split; [by rewrite Hs at 1 |].
      split; [| done]. unfold noQuote, Regexp.not_quote in *.
      apply negb_true_iff in Hb. by apply Ascii.eqb_neq in Hb.
    + apply list_elem_of_singleton in Hm as ->. split; [done |]. by exists "".
Qed.

Lemma run_valueRe_ok (s : string) (c : Regexp.caps) (m : Regexp.caps * string) :
  caps_all noQuote c -> m ∈ Regexp.run valueRe s c -> caps_all noQuote m.1.
Proof.
  intros Hc Hm. unfold valueRe in Hm. cbn [Regexp.run] in Hm.
  apply list_elem_of_bind in Hm as [m1 [Hm Hm1]].
  destruct s as [|b s]; [by apply not_elem_of_nil in Hm1 |].
  destruct (Ascii.eqb "'" b); [| by apply not_elem_of_nil in Hm1].
  apply list_elem_of_singleton in Hm1 as ->. cbn [fst snd] in Hm.
  apply list_elem_of_bind in Hm as [m2 [Hm Hm2]].
  apply list_elem_of_fmap in Hm2 as [m3 [-> Hm3]]. cbn [fst snd] in Hm.
  apply star_not_quote in Hm3 as [Hc3 [pre [Hs Hpre]]].
  destruct (m3.2) as [|b' rest] eqn:Hrest; [by apply not_elem_of_nil in Hm |].
  destruct (Ascii.eqb "'" b'); [| by apply not_elem_of_nil in Hm].
  apply list_elem_of_singleton in Hm as ->. cbn [fst].
  rewrite Hc3. apply caps_all_insert; [done |].
  rewrite Hs at 1 2. rewrite len_append.
  replace (len pre + len (String b' rest) - len (String b' rest))%nat
    with (len pre) by lia.
  by rewrite slice_to_append.
Qed.

Lemma find_from_valueRe_ok (s : string) (pos m0 : nat) (c : Regexp.caps)
  (rest : string) :
  Regexp.find_from valueRe s pos = Some (m0, c, rest) -> caps_all noQuote c.
Proof.
  revert pos. induction s as [|b s IH]; intros pos Hf;
    cbn [Regexp.find_from] in Hf.
  - destruct (Regexp.run valueRe "" ∅) as [|m ms] eqn:Hr; [done |].
    injection Hf as _ <- _.
    apply (run_valueRe_ok "" ∅ m (caps_all_empty noQuote)).
    rewrite Hr. apply list_elem_of_here.
  - destruct (Regexp.run valueRe (String b s) ∅) as [|m ms] eqn:Hr.
    + by apply (IH (S pos)).
    + injection Hf as _ <- _.
      apply (run_valueRe_ok (String b s) ∅ m (caps_all_empty noQuote)).
      rewrite Hr. apply list_elem_of_here.
Qed.

Lemma allMatches_valueRe_ok (fuel : nat) (s : string) (pos : nat)
  (prev : option nat) :
  Forall (fun m => bytes_all noQuote (default "" (m !! 1%nat)))
         (Regexp.allMatches fuel valueRe s pos prev).
Proof.
  revert pos prev.
  induction fuel as [|fuel IH]; intros pos prev; cbn [Regexp.allMatches]; [done |].
  destruct (pos <=? len s)%nat; [| done].
  destruct (Regexp.exec valueRe s pos) as [[[m0 m1] c]|] eqn:He; [| done].
  destruct (negb _); [| by apply IH].
  apply Forall_cons. split; [| by apply IH].
  unfold Regexp.exec in He.
  destruct (Regexp.find_from valueRe (slice_from s pos) pos)
    as [[[k c'] rest]|] eqn:Hf; [| done].
  injection He as _ _ <-. apply find_from_valueRe_ok in Hf.
  unfold Regexp.submatch. cbn.
  destruct (c' !! 1%nat) as [v|] eqn:Hv; [by apply (Hf 1%nat) | done].
Qed.

Lemma foldl_values_quote (valueMatches : list (list string))
  (values : list string) :
  Forall (fun m => bytes_all noQuote (default "" (m !! 1%nat))) valueMatches ->
  Forall (bytes_all noQuote) values ->
  Forall (bytes_all noQuote)
    (foldl (fun values m =>
              if (2 <=? length m)%nat
              then values ++ [default "" (m !! 1%nat)] else values)
           values valueMatches).
Proof.
  revert values. induction valueMatches as [|m ms IH]; intros values Hms Hv;
    [done |].
  apply Forall_cons in Hms as [Hm Hms]. cbn [foldl]. apply IH; [done |].
  destruct (2 <=? length m)%nat; [| done].
  apply Forall_app. split; [done |]. by apply Forall_cons.
Qed.

Lemma ParseEnumValues_quote (columnType : string) :
  Forall (bytes_all noQuote) (ParseEnumValues columnType).
Proof.
  unfold ParseEnumValues. destruct (length _ <? 2)%nat; [done |].
  apply foldl_values_quote; [| done]. apply allMatches_valueRe_ok.
Qed.

End NoQuote.

(** X30: no enum value holds a quote.  Every value that
    [ParseEnumValues] returns, and so every value the MySQL introspector
    stores in a column, is free of the quote character, so the values
    that [FormatEnumComment] writes between quotes cannot end early. *)
Theorem enum_values_no_quote (columnType : string) (r : MySQL.ColumnRow) :
  Forall (bytes_all noQuote) (ParseEnumValues columnType) /\
  Forall (bytes_all noQuote)
         (EnumValues (MySQL.columnOfRow r)) /\
  ParseEnumValues "enum('it''s','b')" = ["it"; "s"; "b"].
Proof.
  split; [apply ParseEnumValues_quote |]. split; [| by vm_compute].
  cbn [MySQL.columnOfRow EnumValues].
  destruct (String.eqb _ "enum"); [| done].
  apply (ParseEnumValues_quote (MySQL.columnType r)).
Qed.
